(** * alai-youtube: the response cache and the pagination/aggregation layer

    A shallow embedding of [memory_cache.go] and of the YouTube service
    (the [services] package: [FindTags], [GetVideos], [GetChannelInfo],
    [GetChannelPlaylist], [batchIteration], [processVideoItems], ...).

    Go pointers to objects that the code mutates after sharing them
    ([*Video], [*VideoResults]) are locations in a heap; objects that are
    never mutated once decoded ([*ChannelInfo], [*Item]) are represented by
    [option] of their value, [None] being the nil pointer.  A nil
    dereference, an index out of range and an unlock of an unlocked mutex
    are [Panic]; a call that never returns (a [Lock] on a held mutex in a
    sequential run, or the exhausted recursion budget of [GetInstance]) is
    [Diverge].  The HTTP transport and the JSON decoder are the external
    collaborators of the package: they are the fields of [Upstream].  Go's
    [int] is [Z]: the code compares counts and adds small constants to
    slice lengths, and the range check of [strconv.Atoi] is written out.
    Logging ([log.Printf], [alailog.Printf]) changes nothing that is
    modelled and is left out.  Line numbers refer to the service file. *)

From Stdlib Require Import ZArith Ascii String List Lia.
From stdpp Require Import base option list strings gmap.

Local Open Scope string_scope.
Local Open Scope Z_scope.
Local Open Scope list_scope.

(** ** Strings: the functions of [strings] and [strconv] the code calls *)

Module strings.

(** [strings.Join(elems, sep)]. *)
Definition Join (elems : list string) (sep : string) : string :=
  String.concat sep elems.

(** [strings.Replace(s, " ", new, -1)]: every space is replaced. *)
Fixpoint ReplaceSpaces (s new : string) : string :=
  match s with
  | EmptyString => EmptyString
  | String c s' =>
      if Ascii.eqb c " "%char then new +:+ ReplaceSpaces s' new
      else String c (ReplaceSpaces s' new)
  end.

(** [strings.Split(s, ",")]: the fields between the commas of [s]; a
    string with no comma is its own single field, the empty string too. *)
Fixpoint SplitComma (s : string) : list string :=
  match s with
  | EmptyString => [EmptyString]
  | String c s' =>
      if Ascii.eqb c ","%char then EmptyString :: SplitComma s'
      else match SplitComma s' with
           | f :: fs => String c f :: fs
           | [] => [String c EmptyString]
           end
  end.

(** No byte of [s] is a comma. *)
Fixpoint commaFree (s : string) : bool :=
  match s with
  | EmptyString => true
  | String c s' => negb (Ascii.eqb c ","%char) && commaFree s'
  end.

End strings.

(** Go's [error] values, as far as the package builds and returns them. *)
Inductive error : Type :=
  | errorString (msg : string)               (* errors.New(msg), and the transport's and decoder's own errors *)
  | wrapError (prefix : string) (err : error) (* fmt.Errorf(prefix + "%w", err) *)
  | NumError (Func Num : string) (Err : error). (* *strconv.NumError *)

Module strconv.

Definition ErrSyntax : error := errorString "invalid syntax".
Definition ErrRange : error := errorString "value out of range".

(** The decimal digits of [n] in front of [acc]; [fuel] bounds their
    number, the bit length of [n] is enough. *)
Fixpoint formatBits (fuel : nat) (n : N) (acc : string) : string :=
  match fuel with
  | O => acc
  | S fuel' =>
      let acc' := String (ascii_of_N (48 + n mod 10)) acc in
      if (n <? 10)%N then acc' else formatBits fuel' (n / 10) acc'
  end.

(** [strconv.Itoa]: decimal digits, with a leading minus sign below zero. *)
Definition Itoa (i : Z) : string :=
  match i with
  | Z0 => "0"
  | Zpos p => formatBits (Pos.size_nat p) (Npos p) EmptyString
  | Zneg p => String "-" (formatBits (Pos.size_nat p) (Npos p) EmptyString)
  end.

Definition digit (c : ascii) : option Z :=
  let n := Z.of_N (N_of_ascii c) in
  if (48 <=? n) && (n <=? 57) then Some (n - 48) else None.

Fixpoint digits (s : string) (acc : Z) : option Z :=
  match s with
  | EmptyString => Some acc
  | String c s' =>
      match digit c with
      | Some d => digits s' (acc * 10 + d)
      | None => None
      end
  end.

Definition maxInt : Z := 2 ^ 63 - 1.
Definition minInt : Z := - 2 ^ 63.

(** [strconv.Atoi] on a 64-bit platform: an optional sign, then at least
    one decimal digit and nothing else; the value has to fit an [int]. *)
Definition Atoi (s : string) : Z * option error :=
  let '(neg, body) :=
    match s with
    | String "-"%char r => (true, r)
    | String "+"%char r => (false, r)
    | _ => (false, s)
    end in
  match body with
  | EmptyString => (0, Some (NumError "Atoi" s ErrSyntax))
  | _ =>
      match digits body 0 with
      | None => (0, Some (NumError "Atoi" s ErrSyntax))
      | Some n =>
          let v := if neg then - n else n in
          if v <? minInt then (minInt, Some (NumError "Atoi" s ErrRange))
          else if maxInt <? v then (maxInt, Some (NumError "Atoi" s ErrRange))
          else (v, None)
      end
  end.

End strconv.

(** ** Data model *)

Record ThumbnailImage : Type := {
  Url : string;
  Width : Z;
  Height : Z
}.

Record Thumbnails : Type := {
  Thumbnails_Default : option ThumbnailImage;
  Thumbnails_Medium : option ThumbnailImage;
  Thumbnails_High : option ThumbnailImage
}.

Record VideoSnippet : Type := {
  Snippet_ChannelId : string;
  Snippet_ChannelTitle : string;
  Snippet_PublishedAt : string;
  Snippet_Title : string;
  Snippet_Description : string;
  Snippet_Thumbnails : Thumbnails;
  Snippet_Tags : list string;
  Snippet_FormattedTags : string
}.

Record VideoStatistics : Type := {
  ViewCount : string;
  LikeCount : string;
  DislikeCount : string;
  FavoriteCount : string;
  CommentCount : string
}.

(** [type Video struct]: [Snippet] and [Statistics] are pointers. *)
Record Video : Type := {
  Video_Id : string;
  Video_Snippet : option VideoSnippet;
  Video_Statistics : option VideoStatistics
}.

(** A location of the heap; a Go pointer is [option loc], nil is [None]. *)
Abbreviation loc := nat.

(** [type VideoResults struct]: [Items] is a [[]*Video]. *)
Record VideoResults : Type := {
  Items : list (option loc);
  NextPageToken : string
}.

Record RelatedPlaylists : Type := {
  Likes : string;
  Uploads : string
}.

Record ItemContentDetails : Type := {
  ContentDetails_RelatedPlaylists : option RelatedPlaylists
}.

Record ItemStatistics : Type := {
  Item_ViewCount : string;
  SubscriberCount : string;
  HiddenSubscriberCount : bool;
  VideoCount : string
}.

(** [type Item struct]; of its [Snippet] block, which no function of the
    package reads, the title and the description are kept. *)
Record Item : Type := {
  Item_Id : string;
  Item_Snippet : option (string * string);
  Item_ContentDetails : option ItemContentDetails;
  Item_Statistics : option ItemStatistics
}.

Record ChannelInfo : Type := {
  ChannelInfo_Items : list (option Item);
  ChannelInfo_NextPageToken : string
}.

(** One element of [TagSearchResults.Items]. *)
Record TagSearchItem : Type := {
  TagSearch_Id : option string;                          (* Id *struct{ VideoId } *)
  TagSearch_Snippet : option (string * string * Thumbnails) (* ChannelTitle, ChannelId, Thumbnails *)
}.

Record TagSearchResults : Type := {
  TagSearch_Items : list TagSearchItem;
  TagSearch_NextPageToken : string
}.

(** One element of [ChannelPlaylistVideoResults.Items]. *)
Record PlaylistItem : Type := {
  Playlist_Id : string;
  Playlist_Snippet : option Thumbnails;      (* Snippet *struct{ ..., Thumbnails } *)
  Playlist_ContentDetails : option string    (* ContentDetails *struct{ VideoId } *)
}.

Record ChannelPlaylistVideoResults : Type := {
  Playlist_Items : list PlaylistItem;
  Playlist_NextPageToken : string
}.

(** [VidSnippetInfo], the struct local to [FindTags]. *)
Record VidSnippetInfo : Type := {
  Info_ChannelTitle : string;
  Info_ChannelId : string;
  Info_Thumbnails : Thumbnails
}.

(** ** Outcomes and the state monad of the embedding *)

Inductive outcome (S A : Type) : Type :=
  | Ret (a : A) (s : S)
  | Panic
  | Diverge.
Arguments Ret {S A} a s.
Arguments Panic {S A}.
Arguments Diverge {S A}.

Definition St (S A : Type) : Type := S -> outcome S A.

Definition ret {S A} (a : A) : St S A := fun s => Ret a s.

Definition bind {S A B} (m : St S A) (k : A -> St S B) : St S B :=
  fun s =>
    match m s with
    | Ret a s' => k a s'
    | Panic => Panic
    | Diverge => Diverge
    end.

Definition panic {S A} : St S A := fun _ => Panic.
Definition diverge {S A} : St S A := fun _ => Diverge.
Definition get {S} : St S S := fun s => Ret s s.
Definition put {S} (s : S) : St S unit := fun _ => Ret tt s.

(** Dereference of a possibly nil pointer. *)
Definition deref {S A} (p : option A) : St S A :=
  match p with
  | Some a => ret a
  | None => panic
  end.

Declare Scope go_scope.
Delimit Scope go_scope with go.
Notation "x <- c ;; k" := (bind c (fun x => k))
  (at level 100, c at next level, right associativity) : go_scope.
Notation "c ;;; k" := (bind c (fun _ => k))
  (at level 100, right associativity) : go_scope.
Local Open Scope go_scope.

(** ** memory_cache.go *)

Record MemoryCache : Type := {
  videoCache : gmap string (option loc);
  channelCache : gmap string (option ChannelInfo);
  playlistCache : gmap string (option loc);
  videoDetailsCache : gmap string (option loc);
  mu : bool   (* the embedded sync.Mutex: true while it is held *)
}.

Definition NewMemoryCache : MemoryCache :=
  {| videoCache := ∅; channelCache := ∅; playlistCache := ∅;
     videoDetailsCache := ∅; mu := false |}.

(** [m[key]] on a Go map: the zero value, nil, for a missing key. *)
Definition index {V} (m : gmap string (option V)) (key : string) : option V :=
  default None (m !! key).

Module MemoryCache.

Definition set_mu (b : bool) (c : MemoryCache) : MemoryCache :=
  {| videoCache := videoCache c; channelCache := channelCache c;
     playlistCache := playlistCache c;
     videoDetailsCache := videoDetailsCache c; mu := b |}.

Definition set_videoCache (m : gmap string (option loc)) (c : MemoryCache) : MemoryCache :=
  {| videoCache := m; channelCache := channelCache c;
     playlistCache := playlistCache c;
     videoDetailsCache := videoDetailsCache c; mu := mu c |}.

Definition set_channelCache (m : gmap string (option ChannelInfo)) (c : MemoryCache) : MemoryCache :=
  {| videoCache := videoCache c; channelCache := m;
     playlistCache := playlistCache c;
     videoDetailsCache := videoDetailsCache c; mu := mu c |}.

Definition set_playlistCache (m : gmap string (option loc)) (c : MemoryCache) : MemoryCache :=
  {| videoCache := videoCache c; channelCache := channelCache c;
     playlistCache := m;
     videoDetailsCache := videoDetailsCache c; mu := mu c |}.

Definition set_videoDetailsCache (m : gmap string (option loc)) (c : MemoryCache) : MemoryCache :=
  {| videoCache := videoCache c; channelCache := channelCache c;
     playlistCache := playlistCache c;
     videoDetailsCache := m; mu := mu c |}.

(** [c.Lock()]: blocks while the mutex is held. *)
Definition Lock : St MemoryCache unit :=
  fun c => if mu c then Diverge else Ret tt (set_mu true c).

(** [c.Unlock()]: a run-time error on a mutex that is not held. *)
Definition Unlock : St MemoryCache unit :=
  fun c => if mu c then Ret tt (set_mu false c) else Panic.

(** Every method is [c.Lock(); defer c.Unlock(); <body>]: the deferred
    unlock runs once the result has been computed. *)
Definition GetVideo (key : string) : St MemoryCache (option loc) :=
  Lock ;;; c <- get ;; let r := index (videoCache c) key in Unlock ;;; ret r.

Definition SetVideo (key : string) (video : option loc) : St MemoryCache unit :=
  Lock ;;; c <- get ;; put (set_videoCache (<[key := video]> (videoCache c)) c) ;;; Unlock.

Definition GetChannel (key : string) : St MemoryCache (option ChannelInfo) :=
  Lock ;;; c <- get ;; let r := index (channelCache c) key in Unlock ;;; ret r.

Definition SetChannel (key : string) (channel : option ChannelInfo) : St MemoryCache unit :=
  Lock ;;; c <- get ;; put (set_channelCache (<[key := channel]> (channelCache c)) c) ;;; Unlock.

Definition GetPlaylist (key : string) : St MemoryCache (option loc) :=
  Lock ;;; c <- get ;; let r := index (playlistCache c) key in Unlock ;;; ret r.

Definition SetPlaylist (key : string) (playlist : option loc) : St MemoryCache unit :=
  Lock ;;; c <- get ;; put (set_playlistCache (<[key := playlist]> (playlistCache c)) c) ;;; Unlock.

Definition GetVideoDetail (key : string) : St MemoryCache (option loc) :=
  Lock ;;; c <- get ;; let r := index (videoDetailsCache c) key in Unlock ;;; ret r.

Definition SetVideoDetail (key : string) (detail : option loc) : St MemoryCache unit :=
  Lock ;;; c <- get ;; put (set_videoDetailsCache (<[key := detail]> (videoDetailsCache c)) c) ;;; Unlock.

Definition GetServiceName : string := "memory-cache".

End MemoryCache.

(** ** The program state *)

(** [type YoutubeApi struct]: the key and the embedded [Cache], a reference
    to a [MemoryCache] object. *)
Record YoutubeApi : Type := {
  apiKey : string;
  Cache : nat
}.

Record World : Type := {
  videos : list Video;                   (* the Video objects, by location *)
  results : list VideoResults;           (* the VideoResults objects, by location *)
  caches : list MemoryCache;             (* the MemoryCache objects, by reference *)
  onceDone : bool;                       (* youTubeServiceInstance.Once has run *)
  ServiceInstance : option YoutubeApi;   (* youTubeServiceInstance.Instance *)
  requests : list string                 (* the URLs requested so far, oldest first *)
}.

Definition M (A : Type) : Type := St World A.

Definition set_videos (l : list Video) (w : World) : World :=
  {| videos := l; results := results w; caches := caches w;
     onceDone := onceDone w; ServiceInstance := ServiceInstance w;
     requests := requests w |}.

Definition set_results (l : list VideoResults) (w : World) : World :=
  {| videos := videos w; results := l; caches := caches w;
     onceDone := onceDone w; ServiceInstance := ServiceInstance w;
     requests := requests w |}.

Definition set_caches (l : list MemoryCache) (w : World) : World :=
  {| videos := videos w; results := results w; caches := l;
     onceDone := onceDone w; ServiceInstance := ServiceInstance w;
     requests := requests w |}.

Definition set_instance (y : option YoutubeApi) (w : World) : World :=
  {| videos := videos w; results := results w; caches := caches w;
     onceDone := true; ServiceInstance := y;
     requests := requests w |}.

Definition set_requests (l : list string) (w : World) : World :=
  {| videos := videos w; results := results w; caches := caches w;
     onceDone := onceDone w; ServiceInstance := ServiceInstance w;
     requests := l |}.

(** [new(Video)] with the given content. *)
Definition newVideo (v : Video) : M loc :=
  fun w => Ret (length (videos w)) (set_videos (videos w ++ [v]) w).

Definition loadVideo (l : loc) : M Video :=
  fun w => match videos w !! l with Some v => Ret v w | None => Panic end.

Definition storeVideo (l : loc) (v : Video) : M unit :=
  fun w => Ret tt (set_videos (<[l := v]> (videos w)) w).

Definition newVideoResults (r : VideoResults) : M loc :=
  fun w => Ret (length (results w)) (set_results (results w ++ [r]) w).

Definition loadVideoResults (l : loc) : M VideoResults :=
  fun w => match results w !! l with Some r => Ret r w | None => Panic end.

Definition storeVideoResults (l : loc) (r : VideoResults) : M unit :=
  fun w => Ret tt (set_results (<[l := r]> (results w)) w).

(** A method call on the [MemoryCache] object behind a [Cache] reference. *)
Definition onCache {A} (ref : nat) (m : St MemoryCache A) : M A :=
  fun w =>
    match caches w !! ref with
    | None => Panic
    | Some c =>
        match m c with
        | Ret a c' => Ret a (set_caches (<[ref := c']> (caches w)) w)
        | Panic => Panic
        | Diverge => Diverge
        end
    end.

(** ** The external collaborators *)

(** What [http.Get(url)] followed by [io.ReadAll(resp.Body)] yields. *)
Inductive Response : Type :=
  | GetFailed (err : error)     (* http.Get returned err *)
  | ReadFailed (err : error)    (* io.ReadAll returned err *)
  | Body (body : string).

(** The upstream API answers a URL knowing the requests made before it;
    [json.Unmarshal] into each of the four target shapes either fails or
    yields the decoded value. *)
Record Upstream : Type := {
  transport : list string -> string -> Response;
  json_TagSearchResults : string -> error + TagSearchResults;
  json_VideoResults : string -> error + (list (option Video) * string);
  json_ChannelInfo : string -> error + ChannelInfo;
  json_ChannelPlaylistVideoResults : string -> error + ChannelPlaylistVideoResults
}.

(** ** The service *)

Definition MinViews : Z := 1000.

Definition calculateNumPages (numItems : Z) : Z :=
  let numPages := Z.quot numItems 50 in
  if 0 <? Z.rem numItems 50 then numPages + 1 else numPages.

(** [batchIteration]: [i] runs over 0, 50, 100, ... below [len(input)];
    [steps] bounds the number of rounds of the loop. *)
Fixpoint batchIteration_loop (steps : nat) (input : list string) (i : nat)
    (results : list string) : list string :=
  match steps with
  | O => results
  | S steps' =>
      if (i <? length input)%nat then
        let end_ := if (length input <? i + 50)%nat then length input else (i + 50)%nat in
        batchIteration_loop steps' input (i + 50)
          (results ++ [strings.Join (take (end_ - i) (drop i input)) ","])
      else results
  end.

Definition batchIteration (input : list string) : list string :=
  batchIteration_loop (length input) input 0 [].

(** The URL templates, [fmt.Sprintf] applied to them. *)
Definition Sprintf_SearchVideoIds (fSearch key nextPageStr : string) : string :=
  "https://www.googleapis.com/youtube/v3/search?part=snippet&maxResults=100&q=" +:+ fSearch
  +:+ "&type=video&order=date&relevanceLanguage=en&key=" +:+ key +:+ nextPageStr.

Definition Sprintf_GetTags (key id nextPageStr : string) : string :=
  "https://www.googleapis.com/youtube/v3/videos?key=" +:+ key
  +:+ "&fields=items(snippet(title,publishedAt,description,tags),id,statistics)&part=snippet,statistics&id="
  +:+ id +:+ "&order=date" +:+ nextPageStr.

Definition Sprintf_GetChannelVideos (id key : string) : string :=
  "https://www.googleapis.com/youtube/v3/channels/?part=snippet,contentDetails,statistics&id="
  +:+ id +:+ "&maxResults=50&key=" +:+ key.

Definition Sprintf_GetChannelPlaylist (playlistId key nextPageStr : string) : string :=
  "https://www.googleapis.com/youtube/v3/playlistItems?part=snippet,contentDetails&maxResults=50&playlistId="
  +:+ playlistId +:+ "&key=" +:+ key +:+ nextPageStr.

(** [fmt.Sprintf("&pageToken=%v", nextPage)] from the second page on. *)
Definition pageTokenParam (i : nat) (nextPage : string) : string :=
  match i with
  | O => EmptyString
  | S _ => "&pageToken=" +:+ nextPage
  end.

(** [int(math.Ceil(float64(n)/float64(10)))]; the quotient is rounded by
    less than a tenth for every slice length below 2^53, so the ceiling is
    the exact one. *)
Definition ceilTenth (n : nat) : nat := ((n + 9) / 10)%nat.

Definition isEmpty (s : string) : bool := String.eqb s EmptyString.

Section Service.

Variable U : Upstream.

(** [GetInstance()], the accessor of the process-wide instance, which the
    free functions of the package call to read the API key.  It is tied
    to the service below once [SearchAndRetrieveTags] is defined. *)
Variable GetInstance : M YoutubeApi.

(** [http.Get(url)] and the [io.ReadAll] of its body. *)
Definition http_Get (url : string) : M Response :=
  fun w => Ret (transport U (requests w) url) (set_requests (requests w ++ [url]) w).

Definition httpGetRequest (apiUrl : string) : M (string * option error) :=
  r <- http_Get apiUrl ;;
  match r with
  | GetFailed err => ret (EmptyString, Some (wrapError "failed HTTP request, error: " err))
  | ReadFailed err => ret (EmptyString, Some (wrapError "failed reading body, error: " err))
  | Body body => ret (body, None)
  end.

(** The decoder allocates one [Video] per non-null element of [items]. *)
Fixpoint newVideos (items : list (option Video)) : M (list (option loc)) :=
  match items with
  | [] => ret []
  | None :: items' => ps <- newVideos items' ;; ret (None :: ps)
  | Some v :: items' => l <- newVideo v ;; ps <- newVideos items' ;; ret (Some l :: ps)
  end.

(** [unmarshalResponse]: the [*VideoResults] it returns is read once by
    its caller and dropped, so it is returned by value. *)
Definition unmarshalResponse (body : string) : M (option VideoResults * option error) :=
  match json_VideoResults U body with
  | inl err => ret (None, Some (wrapError "Failed to unmarshal response body: " err))
  | inr (items, token) =>
      ps <- newVideos items ;;
      ret (Some {| Items := ps; NextPageToken := token |}, None)
  end.

Definition Cache_GetVideo (yt : YoutubeApi) key := onCache (Cache yt) (MemoryCache.GetVideo key).
Definition Cache_SetVideo (yt : YoutubeApi) key v := onCache (Cache yt) (MemoryCache.SetVideo key v).
Definition Cache_GetChannel (yt : YoutubeApi) key := onCache (Cache yt) (MemoryCache.GetChannel key).
Definition Cache_SetChannel (yt : YoutubeApi) key v := onCache (Cache yt) (MemoryCache.SetChannel key v).
Definition Cache_GetPlaylist (yt : YoutubeApi) key := onCache (Cache yt) (MemoryCache.GetPlaylist key).
Definition Cache_SetPlaylist (yt : YoutubeApi) key v := onCache (Cache yt) (MemoryCache.SetPlaylist key v).
Definition Cache_GetVideoDetail (yt : YoutubeApi) key := onCache (Cache yt) (MemoryCache.GetVideoDetail key).
Definition Cache_SetVideoDetail (yt : YoutubeApi) key v := onCache (Cache yt) (MemoryCache.SetVideoDetail key v).

(** [finalProduct.Items = append(finalProduct.Items, items...)]. *)
Definition appendItems (finalProduct : loc) (items : list (option loc)) : M unit :=
  r <- loadVideoResults finalProduct ;;
  storeVideoResults finalProduct
    {| Items := Items r ++ items; NextPageToken := NextPageToken r |}.

(** The inner loop of [GetVideos] (lines 611-633) from round [i] on, with
    [remaining] rounds left; [Some err] is the early [return]. *)
Fixpoint GetVideos_pages (finalProduct : loc) (fSearch : string)
    (remaining i : nat) (nextPage : string) : M (option error) :=
  match remaining with
  | O => ret None
  | S remaining' =>
      let nextPageStr := pageTokenParam i nextPage in
      inst <- GetInstance ;;
      let apiUrl := Sprintf_GetTags (apiKey inst) fSearch nextPageStr in
      r <- httpGetRequest apiUrl ;;
      match r with
      | (_, Some err) => ret (Some err)
      | (body, None) =>
          r' <- unmarshalResponse body ;;
          match r' with
          | (_, Some err) => ret (Some err)
          | (res, None) =>
              res <- deref res ;;
              let nextPage := NextPageToken res in
              if isEmpty nextPage then ret None
              else
                appendItems finalProduct (Items res) ;;;
                GetVideos_pages finalProduct fSearch remaining' (S i) nextPage
          end
      end
  end.

(** The outer loop of [GetVideos] (lines 609-634) over the batches. *)
Fixpoint GetVideos_batches (finalProduct : loc) (bound : nat)
    (input : list string) : M (option error) :=
  match input with
  | [] => ret None
  | fSearch :: input' =>
      r <- GetVideos_pages finalProduct fSearch bound 0 EmptyString ;;
      match r with
      | Some err => ret (Some err)
      | None => GetVideos_batches finalProduct bound input'
      end
  end.

Definition GetVideos (yt : YoutubeApi) (videoIds : list string)
    : M (option loc * option error) :=
  let videoIdsKey := strings.Join videoIds "," in
  v <- Cache_GetVideoDetail yt videoIdsKey ;;
  match v with
  | Some _ => ret (v, None)
  | None =>
      let input := batchIteration videoIds in
      finalProduct <- newVideoResults {| Items := []; NextPageToken := EmptyString |} ;;
      r <- GetVideos_batches finalProduct (ceilTenth (length input)) input ;;
      match r with
      | Some err => ret (Some finalProduct, Some err)
      | None =>
          Cache_SetVideoDetail yt videoIdsKey (Some finalProduct) ;;;
          ret (Some finalProduct, None)
      end
  end.

(** The [range res.Items] loop of [FindTags] (lines 406-409); [None] is
    the nil dereference of an element without [Id] or [Snippet]. *)
Fixpoint FindTags_collect (items : list TagSearchItem) (videos : list string)
    (vidIds : gmap string VidSnippetInfo)
    : option (list string * gmap string VidSnippetInfo) :=
  match items with
  | [] => Some (videos, vidIds)
  | vid :: items' =>
      match TagSearch_Id vid, TagSearch_Snippet vid with
      | Some videoId, Some (channelTitle, channelId, thumbs) =>
          FindTags_collect items' (videos ++ [videoId])
            (<[videoId := {| Info_ChannelTitle := channelTitle;
                             Info_ChannelId := channelId;
                             Info_Thumbnails := thumbs |}]> vidIds)
      | _, _ => None
      end
  end.

(** The page loop of [FindTags] (lines 375-414) from round [i] on. *)
Fixpoint FindTags_pages (yt : YoutubeApi) (fSearch : string) (remaining i : nat)
    (nextPage : string) (videos : list string) (vidIds : gmap string VidSnippetInfo)
    : M (list string * gmap string VidSnippetInfo * option error) :=
  match remaining with
  | O => ret (videos, vidIds, None)
  | S remaining' =>
      let nextPageStr := pageTokenParam i nextPage in
      let pageUrl := Sprintf_SearchVideoIds fSearch (apiKey yt) nextPageStr in
      r <- http_Get pageUrl ;;
      match r with
      | GetFailed err => ret (videos, vidIds, Some err)
      | ReadFailed err => ret (videos, vidIds, Some err)
      | Body body =>
          match json_TagSearchResults U body with
          | inl err => ret (videos, vidIds, Some err)
          | inr res =>
              match FindTags_collect (TagSearch_Items res) videos vidIds with
              | None => panic
              | Some (videos', vidIds') =>
                  let nextPage := TagSearch_NextPageToken res in
                  if isEmpty nextPage then ret (videos', vidIds', None)
                  else FindTags_pages yt fSearch remaining' (S i) nextPage videos' vidIds'
              end
          end
      end
  end.

(** Lines 429-433 of [FindTags]: the three assignments through
    [item.Snippet]. *)
Definition mergeSnippetInfo (snippetInfo : VidSnippetInfo) (sn : VideoSnippet) : VideoSnippet :=
  {| Snippet_ChannelId := Info_ChannelId snippetInfo;
     Snippet_ChannelTitle := Info_ChannelTitle snippetInfo;
     Snippet_PublishedAt := Snippet_PublishedAt sn;
     Snippet_Title := Snippet_Title sn;
     Snippet_Description := Snippet_Description sn;
     Snippet_Thumbnails := Info_Thumbnails snippetInfo;
     Snippet_Tags := Snippet_Tags sn;
     Snippet_FormattedTags := Snippet_FormattedTags sn |}.

Definition set_Snippet (sn : VideoSnippet) (v : Video) : Video :=
  {| Video_Id := Video_Id v; Video_Snippet := Some sn;
     Video_Statistics := Video_Statistics v |}.

(** The filter loop of [FindTags] (lines 421-437) over [items], with the
    items retained so far in [filteredItems]. *)
Fixpoint FindTags_filter (vidIds : gmap string VidSnippetInfo)
    (items filteredItems : list (option loc))
    : M (list (option loc) * option error) :=
  match items with
  | [] => ret (filteredItems, None)
  | item :: items' =>
      l <- deref item ;;
      v <- loadVideo l ;;
      st <- deref (Video_Statistics v) ;;
      if isEmpty (ViewCount st) then FindTags_filter vidIds items' filteredItems
      else
        match strconv.Atoi (ViewCount st) with
        | (_, Some err) => ret ([], Some err)
        | (views, None) =>
            if MinViews <? views then
              match vidIds !! Video_Id v with
              | Some snippetInfo =>
                  sn <- deref (Video_Snippet v) ;;
                  storeVideo l (set_Snippet (mergeSnippetInfo snippetInfo sn) v)
              | None => ret tt
              end ;;;
              FindTags_filter vidIds items' (filteredItems ++ [item])
            else FindTags_filter vidIds items' filteredItems
        end
  end.

Definition FindTags (yt : YoutubeApi) (input : string) (numPages : Z)
    : M (option loc * option error) :=
  v <- Cache_GetVideo yt input ;;
  match v with
  | Some _ => ret (v, None)
  | None =>
      let fSearch := strings.ReplaceSpaces input "%20%" in
      r <- FindTags_pages yt fSearch (Z.to_nat numPages) 0 EmptyString [] ∅ ;;
      match r with
      | (_, _, Some err) => ret (None, Some err)
      | (videos, vidIds, None) =>
          r' <- GetVideos yt videos ;;
          match r' with
          | (_, Some err) => ret (None, Some err)
          | (vidResults, None) =>
              l <- deref vidResults ;;
              vr <- loadVideoResults l ;;
              r'' <- FindTags_filter vidIds (Items vr) [] ;;
              match r'' with
              | (_, Some err) => ret (None, Some err)
              | (filteredItems, None) =>
                  storeVideoResults l
                    {| Items := filteredItems; NextPageToken := NextPageToken vr |} ;;;
                  Cache_SetVideo yt input vidResults ;;;
                  ret (vidResults, None)
              end
          end
      end
  end.

Definition SearchAndRetrieveTags (yt : YoutubeApi) (search : string)
    (pages : option (list Z)) : M (option loc * option error) :=
  match pages with
  | None => FindTags yt search 1
  | Some [] => panic
  | Some (p :: _) =>
      FindTags yt search (if 1 <? p then (if 5 <=? p then 5 else p) else 1)
  end.

(** [getChannelInfo]: the channel endpoint. *)
Definition getChannelInfo (channelId : string) : M (option ChannelInfo * option error) :=
  inst <- GetInstance ;;
  let pageUrl := Sprintf_GetChannelVideos channelId (apiKey inst) in
  r <- http_Get pageUrl ;;
  match r with
  | GetFailed err => ret (None, Some err)
  | ReadFailed err => ret (None, Some err)
  | Body body =>
      match json_ChannelInfo U body with
      | inl err => ret (None, Some err)
      | inr res => ret (Some res, None)
      end
  end.

Definition GetChannelInfo (yt : YoutubeApi) (channelId : string)
    : M (option ChannelInfo * option error) :=
  v <- Cache_GetChannel yt channelId ;;
  match v with
  | Some _ => ret (v, None)
  | None =>
      r <- getChannelInfo channelId ;;
      match r with
      | (_, Some _) => ret (None, Some (errorString "channel info not found"))
      | (None, None) => ret (None, Some (errorString "no item available in cInfo"))
      | (Some cInfo, None) =>
          match ChannelInfo_Items cInfo with
          | [] => ret (None, Some (errorString "no item available in cInfo"))
          | _ :: _ =>
              Cache_SetChannel yt channelId (Some cInfo) ;;;
              ret (Some cInfo, None)
          end
      end
  end.

Definition GetVideoCount (item : option Item) : M (Z * option error) :=
  it <- deref item ;;
  st <- deref (Item_Statistics it) ;;
  match strconv.Atoi (VideoCount st) with
  | (_, Some _) => ret (0, Some (errorString "internal server error"))
  | (vidCount, None) => ret (vidCount, None)
  end.

Definition generatePageUrl (playlistId nextPage : string) (pageNum : nat) : M string :=
  let nextPageStr := pageTokenParam pageNum nextPage in
  inst <- GetInstance ;;
  ret (Sprintf_GetChannelPlaylist playlistId (apiKey inst) nextPageStr).

Definition fetchVideoResultsFromAPI (url : string)
    : M (option ChannelPlaylistVideoResults * option error) :=
  r <- http_Get url ;;
  match r with
  | GetFailed err => ret (None, Some err)
  | ReadFailed err => ret (None, Some err)
  | Body body =>
      match json_ChannelPlaylistVideoResults U body with
      | inl err => ret (None, Some err)
      | inr res => ret (Some res, None)
      end
  end.

(** The [range res.Items] loop of [fetchPlaylistVideos] (lines 506-509). *)
Fixpoint fetchPlaylistVideos_collect (items : list PlaylistItem) (videos : list string)
    (thumbnails : gmap string Thumbnails)
    : option (list string * gmap string Thumbnails) :=
  match items with
  | [] => Some (videos, thumbnails)
  | vid :: items' =>
      match Playlist_ContentDetails vid, Playlist_Snippet vid with
      | Some videoId, Some thumbs =>
          fetchPlaylistVideos_collect items' (videos ++ [videoId])
            (<[videoId := thumbs]> thumbnails)
      | _, _ => None
      end
  end.

(** The page loop of [fetchPlaylistVideos] (lines 499-514) from round [i] on. *)
Fixpoint fetchPlaylistVideos_pages (playlistId : string) (remaining i : nat)
    (nextPage : string) (videos : list string) (thumbnails : gmap string Thumbnails)
    : M (list string * gmap string Thumbnails * option error) :=
  match remaining with
  | O => ret (videos, thumbnails, None)
  | S remaining' =>
      pageUrl <- generatePageUrl playlistId nextPage i ;;
      r <- fetchVideoResultsFromAPI pageUrl ;;
      match r with
      | (_, Some err) => ret ([], ∅, Some err)
      | (res, None) =>
          res <- deref res ;;
          match fetchPlaylistVideos_collect (Playlist_Items res) videos thumbnails with
          | None => panic
          | Some (videos', thumbnails') =>
              let nextPage := Playlist_NextPageToken res in
              if isEmpty nextPage then ret (videos', thumbnails', None)
              else fetchPlaylistVideos_pages playlistId remaining' (S i) nextPage
                     videos' thumbnails'
          end
      end
  end.

Definition fetchPlaylistVideos (playlistId : string) (numPages : Z)
    : M (list string * gmap string Thumbnails * option error) :=
  fetchPlaylistVideos_pages playlistId (Z.to_nat numPages) 0 EmptyString [] ∅.

Definition set_Thumbnails (thumbs : Thumbnails) (sn : VideoSnippet) : VideoSnippet :=
  {| Snippet_ChannelId := Snippet_ChannelId sn;
     Snippet_ChannelTitle := Snippet_ChannelTitle sn;
     Snippet_PublishedAt := Snippet_PublishedAt sn;
     Snippet_Title := Snippet_Title sn;
     Snippet_Description := Snippet_Description sn;
     Snippet_Thumbnails := thumbs;
     Snippet_Tags := Snippet_Tags sn;
     Snippet_FormattedTags := Snippet_FormattedTags sn |}.

(** The loop of [processVideoItems] (lines 546-550). *)
Fixpoint processVideoItems_loop (thumbnails : gmap string Thumbnails)
    (items : list (option loc)) : M unit :=
  match items with
  | [] => ret tt
  | item :: items' =>
      l <- deref item ;;
      v <- loadVideo l ;;
      match thumbnails !! Video_Id v with
      | Some thumbs =>
          sn <- deref (Video_Snippet v) ;;
          storeVideo l (set_Snippet (set_Thumbnails thumbs sn) v)
      | None => ret tt
      end ;;;
      processVideoItems_loop thumbnails items'
  end.

Definition processVideoItems (videos : option loc) (thumbnails : gmap string Thumbnails)
    : M (option loc) :=
  l <- deref videos ;;
  vr <- loadVideoResults l ;;
  processVideoItems_loop thumbnails (Items vr) ;;;
  ret videos.

Definition getChannelPlaylist (yt : YoutubeApi) (playlistId : string) (numItems : Z)
    : M (option loc * option error) :=
  let numPages := calculateNumPages numItems in
  r <- fetchPlaylistVideos playlistId numPages ;;
  match r with
  | (_, _, Some err) => ret (None, Some err)
  | (videos, thumbnails, None) =>
      r' <- GetVideos yt videos ;;
      match r' with
      | (_, Some err) => ret (None, Some err)
      | (getVideos, None) =>
          p <- processVideoItems getVideos thumbnails ;;
          ret (p, None)
      end
  end.

(** The cache key of [GetChannelPlaylist] (line 143). *)
Definition playlistCacheKey (item : Item) (vidCount : Z) : string :=
  Item_Id item +:+ "-" +:+ strconv.Itoa vidCount.

(** The uploads playlist of an item that carries both blocks. *)
Definition uploadsOf (item : Item) : option string :=
  match Item_ContentDetails item with
  | Some cd =>
      match ContentDetails_RelatedPlaylists cd with
      | Some rp => Some (Uploads rp)
      | None => None
      end
  | None => None
  end.

Definition GetChannelPlaylist (yt : YoutubeApi) (item : option Item) (vidCount : Z)
    : M (option loc * option error) :=
  it <- deref item ;;
  let cacheKey := playlistCacheKey it vidCount in
  v <- Cache_GetPlaylist yt cacheKey ;;
  match v with
  | Some _ => ret (v, None)
  | None =>
      match uploadsOf it with
      | Some uploads =>
          r <- getChannelPlaylist yt uploads vidCount ;;
          match r with
          | (_, Some _) => ret (None, Some (errorString "internal server error"))
          | (None, None) => ret (None, Some (errorString "no results found"))
          | (Some results, None) =>
              Cache_SetPlaylist yt cacheKey (Some results) ;;;
              ret (Some results, None)
          end
      | None =>
          Cache_SetPlaylist yt cacheKey None ;;;
          ret (None, Some (errorString "contentDetails or RelatedPlaylists are nil"))
      end
  end.

End Service.

(** ** The process-wide instance *)

Definition NewYoutubeApi (apiKey : string) (cache : nat) : YoutubeApi :=
  {| apiKey := apiKey; Cache := cache |}.

(** [NewMemoryCache()]: a new cache object, by reference. *)
Definition newMemoryCache : M nat :=
  fun w => Ret (length (caches w)) (set_caches (caches w ++ [NewMemoryCache]) w).

(** [youTubeServiceInstance.Do(f)] with the [f] of [GetInstance]. *)
Definition Once_Do (apiKey : string) (cache : nat) : M unit :=
  fun w =>
    if onceDone w then Ret tt w
    else Ret tt (set_instance (Some (NewYoutubeApi apiKey cache)) w).

(** [GetInstance()] as the package calls it, with no parameters: the key is
    the empty string and the cache a new [MemoryCache].  Each call searches
    for "alai" on the shared instance, drops the outcome and returns the
    instance.  [fuel] bounds the depth of the recursion through
    [SearchAndRetrieveTags], [FindTags] and [GetVideos]. *)
Fixpoint GetInstance (U : Upstream) (fuel : nat) : M YoutubeApi :=
  match fuel with
  | O => diverge
  | S fuel' =>
      cache <- newMemoryCache ;;
      Once_Do EmptyString cache ;;;
      w <- get ;;
      inst <- deref (ServiceInstance w) ;;
      SearchAndRetrieveTags U (GetInstance U fuel') inst "alai" None ;;;
      ret inst
  end.

(** [opt["apiKey"]] and [opt["cache"]] of the map [GetInstance] may be
    given: the key when the entry holds a string, the cache when the entry
    holds a [Cache]. *)
Record InstanceParams : Type := {
  opt_apiKey : option string;
  opt_cache : option nat
}.

(** [GetInstance(optionalParams...)] (lines 63-85): the first map, if there
    is one, gives the key (its type assertion panics without a string) and
    may give the cache; the calls the package makes from inside are those
    of [GetInstance] above. *)
Definition GetInstanceWith (U : Upstream) (fuel : nat) (optionalParams : list InstanceParams)
    : M YoutubeApi :=
  match fuel with
  | O => diverge
  | S fuel' =>
      cache <- newMemoryCache ;;
      r <- match optionalParams with
           | [] => ret (EmptyString, cache)
           | opt :: _ =>
               apiKey <- deref (opt_apiKey opt) ;;
               ret (apiKey, default cache (opt_cache opt))
           end ;;
      Once_Do (fst r) (snd r) ;;;
      w <- get ;;
      inst <- deref (ServiceInstance w) ;;
      SearchAndRetrieveTags U (GetInstance U fuel') inst "alai" None ;;;
      ret inst
  end.

(** * Vocabulary of the properties *)

(** ** The memory cache *)

(** What a [Get] and a [Set] of one partition do to a cache whose mutex is
    free; [proj] reads the partition's map, [others] the three other maps. *)
Definition partition_laws {V O : Type}
    (Get : string -> St MemoryCache (option V))
    (Set_ : string -> option V -> St MemoryCache unit)
    (proj : MemoryCache -> gmap string (option V))
    (others : MemoryCache -> O) (c : MemoryCache) (k : string) (v : option V) : Prop :=
  Get k c = Ret (index (proj c) k) c /\
  exists c',
    Set_ k v c = Ret tt c' /\
    Get k c' = Ret v c' /\
    proj c' = <[k := v]> (proj c) /\
    (forall k', k' <> k -> proj c' !! k' = proj c !! k') /\
    others c' = others c /\
    mu c' = false.

(** Every method takes the mutex first: on a held mutex it blocks. *)
Definition blocks_when_held (c : MemoryCache) : Prop :=
  (forall k, MemoryCache.GetVideo k c = Diverge) /\ (forall k v, MemoryCache.SetVideo k v c = Diverge) /\
  (forall k, MemoryCache.GetChannel k c = Diverge) /\ (forall k v, MemoryCache.SetChannel k v c = Diverge) /\
  (forall k, MemoryCache.GetPlaylist k c = Diverge) /\ (forall k v, MemoryCache.SetPlaylist k v c = Diverge) /\
  (forall k, MemoryCache.GetVideoDetail k c = Diverge) /\ (forall k v, MemoryCache.SetVideoDetail k v c = Diverge).

(** ** The batcher *)

(** The chunks of at most 50 consecutive identifiers, before [Join]. *)
Fixpoint chunks (fuel : nat) (l : list string) : list (list string) :=
  match fuel with
  | O => []
  | S fuel' =>
      match l with
      | [] => []
      | _ :: _ => take 50 l :: chunks fuel' (drop 50 l)
      end
  end.

(** ** Cached values *)

(** The four partitions of a cache. *)
Inductive Partition : Type :=
  | VideoPartition | ChannelPartition | PlaylistPartition | VideoDetailPartition.

(** What a partition holds and an operation returns: a [*VideoResults] or a
    [*ChannelInfo]. *)
Inductive Value : Type :=
  | ResultSet (p : option loc)
  | ChannelRecord (c : option ChannelInfo).

(** The value the partition [part] of [c] holds under [key]. *)
Definition stored (c : MemoryCache) (part : Partition) (key : string) : Value :=
  match part with
  | VideoPartition => ResultSet (index (videoCache c) key)
  | ChannelPartition => ChannelRecord (index (channelCache c) key)
  | PlaylistPartition => ResultSet (index (playlistCache c) key)
  | VideoDetailPartition => ResultSet (index (videoDetailsCache c) key)
  end.

(** The cache of [yt] is there, its mutex is free, and it holds [v]. *)
Definition cached (yt : YoutubeApi) (part : Partition) (key : string) (v : Value)
    (w : World) : Prop :=
  exists c, caches w !! Cache yt = Some c /\ mu c = false /\ stored c part key = v.

Definition isNil (v : Value) : bool :=
  match v with
  | ResultSet None | ChannelRecord None => true
  | _ => false
  end.

(** ** The four cached operations, as one *)

Inductive Operation : Type :=
  | OpFindTags (input : string) (numPages : Z)
  | OpGetVideos (videoIds : list string)
  | OpGetChannelInfo (channelId : string)
  | OpGetChannelPlaylist (item : Item) (vidCount : Z).

Definition call (U : Upstream) (gi : M YoutubeApi) (yt : YoutubeApi) (op : Operation)
    : M (Value * option error) :=
  match op with
  | OpFindTags input numPages =>
      r <- FindTags U gi yt input numPages ;; ret (ResultSet (fst r), snd r)
  | OpGetVideos videoIds =>
      r <- GetVideos U gi yt videoIds ;; ret (ResultSet (fst r), snd r)
  | OpGetChannelInfo channelId =>
      r <- GetChannelInfo U gi yt channelId ;; ret (ChannelRecord (fst r), snd r)
  | OpGetChannelPlaylist item vidCount =>
      r <- GetChannelPlaylist U gi yt (Some item) vidCount ;; ret (ResultSet (fst r), snd r)
  end.

(** The partition an operation caches in, and its cache key. *)
Definition cacheKeyOf (op : Operation) : Partition * string :=
  match op with
  | OpFindTags input _ => (VideoPartition, input)
  | OpGetVideos videoIds => (VideoDetailPartition, strings.Join videoIds ",")
  | OpGetChannelInfo channelId => (ChannelPartition, channelId)
  | OpGetChannelPlaylist item vidCount => (PlaylistPartition, playlistCacheKey item vidCount)
  end.

(** ** Reading an outcome *)

(** What a run returned, if it returned. *)
Definition returned {A} (o : outcome World A) : option A :=
  match o with
  | Ret a _ => Some a
  | _ => None
  end.

(** The state a run ended in; [w] if it did not return. *)
Definition worldAfter {A} (o : outcome World A) (w : World) : World :=
  match o with
  | Ret _ w' => w'
  | _ => w
  end.

(** ** Scripted upstreams and small worlds, for the examples *)

Module Script.

Definition lookup {A} (table : list (string * A)) (body : string) : error + A :=
  match list_find (fun e => String.eqb (fst e) body) table with
  | Some (_, (_, a)) => inr a
  | None => inl (errorString "unexpected end of JSON input")
  end.

(** The upstream that answers its n-th request with the n-th of [replies]
    and decodes the bodies listed in the four tables. *)
Definition upstream (replies : list Response)
    (searches : list (string * TagSearchResults))
    (lookups : list (string * (list (option Video) * string)))
    (channels : list (string * ChannelInfo))
    (playlists : list (string * ChannelPlaylistVideoResults)) : Upstream :=
  {| transport := fun history _ =>
       nth (length history) replies (GetFailed (errorString "connection refused"));
     json_TagSearchResults := lookup searches;
     json_VideoResults := lookup lookups;
     json_ChannelInfo := lookup channels;
     json_ChannelPlaylistVideoResults := lookup playlists |}.

Definition noThumbnails : Thumbnails :=
  {| Thumbnails_Default := None; Thumbnails_Medium := None; Thumbnails_High := None |}.

Definition thumbnail (url : string) : Thumbnails :=
  {| Thumbnails_Default := Some {| Url := url; Width := 120; Height := 90 |};
     Thumbnails_Medium := None; Thumbnails_High := None |}.

Definition video (id channel views : string) : Video :=
  {| Video_Id := id;
     Video_Snippet := Some {| Snippet_ChannelId := EmptyString;
                              Snippet_ChannelTitle := channel;
                              Snippet_PublishedAt := "2024-02-22T01:25:54Z";
                              Snippet_Title := id; Snippet_Description := EmptyString;
                              Snippet_Thumbnails := noThumbnails;
                              Snippet_Tags := []; Snippet_FormattedTags := EmptyString |};
     Video_Statistics := Some {| ViewCount := views; LikeCount := "0";
                                 DislikeCount := "0"; FavoriteCount := "0";
                                 CommentCount := "0" |} |}.

(** The service of the examples: its key is "k" and its cache the object 0. *)
Definition yt : YoutubeApi := NewYoutubeApi "k" 0.

(** A world in which [yt] is also the shared instance and its start-up
    search for "alai" is already cached (as the result object 0), so that
    [GetInstance] returns at once. *)
Definition started : World :=
  {| videos := [];
     results := [ {| Items := []; NextPageToken := EmptyString |} ];
     caches := [ MemoryCache.set_videoCache {[ "alai" := Some O ]} NewMemoryCache ];
     onceDone := true;
     ServiceInstance := Some yt;
     requests := [] |}.

(** Three looked-up videos with 500, 1500 and 2000 views, as the items of
    the result object 1, and an index that knows the second of them. *)
Definition alaiInfo : VidSnippetInfo :=
  {| Info_ChannelTitle := "Alai"; Info_ChannelId := "UC-alai";
     Info_Thumbnails := thumbnail "https://i.ytimg.com/vi/v2/default.jpg" |}.

Definition snippetIndex : gmap string VidSnippetInfo := {[ "v2" := alaiInfo ]}.


Definition looked : World :=
  {| videos := [video "v1" "c" "500"; video "v2" "c" "1500"; video "v3" "c" "2000"];
     results := [ {| Items := []; NextPageToken := EmptyString |};
                  {| Items := [Some 0%nat; Some 1%nat; Some 2%nat];
                     NextPageToken := EmptyString |} ];
     caches := [ MemoryCache.set_videoCache {[ "alai" := Some O ]} NewMemoryCache ];
     onceDone := true;
     ServiceInstance := Some yt;
     requests := [] |}.

(** A search for one video, "v1", and its look-up, which reports [views]
    and one more page. *)
Definition searchOf (views : string) : Upstream :=
  upstream [Body "search"; Body "lookup"]
    [("search",
      {| TagSearch_Items :=
           [ {| TagSearch_Id := Some "v1";
                TagSearch_Snippet := Some ("Alai", "UC-alai", noThumbnails) |} ];
         TagSearch_NextPageToken := EmptyString |})]
    [("lookup", ([Some (video "v1" "c" views)], "more"))] [] [].

(** The worlds of a search for "cats" after the search page and after the
    look-up, and the index the search page gives. *)
Definition searched (views : string) : World :=
  worldAfter (FindTags_pages (searchOf views) yt "cats" 1 0 EmptyString [] ∅ started) started.

Definition lookedUp (views : string) : World :=
  worldAfter (GetVideos (searchOf views) (GetInstance (searchOf views) 1) yt ["v1"]
                (searched views)) started.

Definition searchIndex : gmap string VidSnippetInfo :=
  {[ "v1" := {| Info_ChannelTitle := "Alai"; Info_ChannelId := "UC-alai";
                Info_Thumbnails := noThumbnails |} ]}.

(** The world after a first search for "cats" over one page. *)
Definition afterSearch : World :=
  worldAfter (call (searchOf "1001") (GetInstance (searchOf "1001") 1) yt
                (OpFindTags "cats" 1) started) started.

(** A look-up of the one video "a", answered by a single page that holds
    the video and no continuation token. *)
Definition singlePage : Upstream :=
  upstream [Body "page"] [] [("page", ([Some (video "a" "c" "2000")], EmptyString))] [] [].

(** A look-up answered by a first page that announces a second one. *)
Definition twoPages : Upstream :=
  upstream [Body "page-1"; Body "page-2"] []
    [("page-1", ([Some (video "a" "c" "2000")], "token-2"));
     ("page-2", ([Some (video "b" "c" "3000")], EmptyString))] [] [].

(** Fifty-one identifiers: two batches.  The page of the first batch comes
    with a video and a continuation token; the request of the second batch
    fails. *)
Definition manyIds : list string := replicate 51 "x".

Definition timeout : error := errorString "context deadline exceeded".

Definition secondBatchFails : Upstream :=
  upstream [Body "page-1"; GetFailed timeout] []
    [("page-1", ([Some (video "x" "c" "2000")], "token-2"))] [] [].

(** A channel without its content details, and the same channel with them. *)
Definition bareChannel : Item :=
  {| Item_Id := "UC-alai"; Item_Snippet := None; Item_ContentDetails := None;
     Item_Statistics := None |}.

Definition channel : Item :=
  {| Item_Id := "UC-alai"; Item_Snippet := None;
     Item_ContentDetails :=
       Some {| ContentDetails_RelatedPlaylists :=
                 Some {| Likes := EmptyString; Uploads := "UU-alai" |} |};
     Item_Statistics := None |}.

(** The uploads playlist holds one video, "v1"; its look-up follows. *)
Definition uploads : Upstream :=
  upstream [Body "playlist"; Body "lookup"] []
    [("lookup", ([Some (video "v1" "c" "10")], "more"))] []
    [("playlist",
      {| Playlist_Items :=
           [ {| Playlist_Id := "PLitem1";
                Playlist_Snippet := Some (thumbnail "https://i.ytimg.com/vi/v1/default.jpg");
                Playlist_ContentDetails := Some "v1" |} ];
         Playlist_NextPageToken := EmptyString |})].

(** The playlist endpoint is down. *)
Definition playlistFails : Upstream := upstream [GetFailed timeout] [] [] [] [].

End Script.

(** ** Items of a result set, read through the heap *)

(** The video behind an element of [Items]. *)
Definition videoAt (w : World) (item : option loc) : option Video :=
  match item with
  | Some l => videos w !! l
  | None => None
  end.


(** The element points to a video that carries both of its blocks. *)
Definition wellFormed (w : World) (item : option loc) : Prop :=
  exists v, videoAt w item = Some v /\
            is_Some (Video_Snippet v) /\ is_Some (Video_Statistics v).

Definition viewCountAt (w : World) (item : option loc) : option string :=
  match videoAt w item with
  | Some v => ViewCount <$> Video_Statistics v
  | None => None
  end.

(** The view count as an integer, when the string parses as one. *)
Definition parsedViews (s : string) : option Z :=
  match strconv.Atoi s with
  | (n, None) => Some n
  | (_, Some _) => None
  end.

(** The parsed view count strictly exceeds [MinViews]. *)
Definition retained (w : World) (item : option loc) : bool :=
  match viewCountAt w item with
  | Some s =>
      match parsedViews s with
      | Some n => MinViews <? n
      | None => false
      end
  | None => false
  end.

(** The error of the first element whose view count is neither empty nor
    an integer. *)
Fixpoint firstBad (w : World) (items : list (option loc)) : option error :=
  match items with
  | [] => None
  | item :: items' =>
      match viewCountAt w item with
      | Some s =>
          if isEmpty s then firstBad w items'
          else match strconv.Atoi s with
               | (_, Some err) => Some err
               | (_, None) => firstBad w items'
               end
      | None => firstBad w items'
      end
  end.

(** The merge of [FindTags] on one video: the three fields come from the
    entry of the index under the video's id, if there is one. *)
Definition mergeFound (vidIds : gmap string VidSnippetInfo) (v : Video) : Video :=
  match vidIds !! Video_Id v, Video_Snippet v with
  | Some snippetInfo, Some sn => set_Snippet (mergeSnippetInfo snippetInfo sn) v
  | _, _ => v
  end.


(** From [w] to [w'] the videos behind [touched] went through [f] and
    nothing else changed. *)
Definition updated (f : Video -> Video) (touched : list (option loc)) (w w' : World) : Prop :=
  w' = set_videos (videos w') w /\
  length (videos w') = length (videos w) /\
  forall l v, videos w !! l = Some v ->
    (Some l ∈ touched -> videos w' !! l = Some (f v)) /\
    (Some l ∉ touched -> videos w' !! l = Some v).

(** What a merge step may do to a video: rewrite it once and for all,
    keeping its id and statistics and the presence of its snippet. *)
Definition mergeStep (f : Video -> Video) : Prop :=
  forall v, f (f v) = f v /\ Video_Id (f v) = Video_Id v /\
            Video_Statistics (f v) = Video_Statistics v /\
            (is_Some (Video_Snippet (f v)) <-> is_Some (Video_Snippet v)).

(** The view count of the element is empty or parses as an integer. *)
Definition emptyOrParses (w : World) (item : option loc) : Prop :=
  exists s, viewCountAt w item = Some s /\ (s = EmptyString \/ is_Some (parsedViews s)).

(** The view count of the element parses as an integer. *)
Definition parses (w : World) (item : option loc) : Prop :=
  exists s n, viewCountAt w item = Some s /\ parsedViews s = Some n.

(** The view count of the element is not empty and is no integer. *)
Definition unparsable (w : World) (item : option loc) : Prop :=
  exists s, viewCountAt w item = Some s /\ s <> EmptyString /\ parsedViews s = None.

(** The page count [SearchAndRetrieveTags] hands to [FindTags]. *)
Definition pageCountOf (pages : option (list Z)) : option Z :=
  match pages with
  | None => Some 1
  | Some [] => None
  | Some (p :: _) => Some (if 1 <? p then (if 5 <=? p then 5 else p) else 1)
  end.



(** The cache behind [yt] is there and its mutex is free. *)
Definition cacheReady (yt : YoutubeApi) (w : World) : Prop :=
  exists c, caches w !! Cache yt = Some c /\ mu c = false.

(** ** The cache key of the playlist partition, in the words of the spec *)

(** The uploads-playlist identifier, "-" and the decimal desired count; an
    item without the playlist has no such key. *)
Definition specPlaylistKey (item : Item) (desiredCount : Z) : option string :=
  match uploadsOf item with
  | Some uploads => Some (uploads +:+ "-" +:+ strconv.Itoa desiredCount)
  | None => None
  end.

(** The playlist partition of the cache object [ref]. *)
Definition playlistOf (w : World) (ref : nat) : gmap string (option loc) :=
  match caches w !! ref with
  | Some c => playlistCache c
  | None => ∅
  end.

(** ** The runs of the examples *)

Module Run.

(** The look-up of "a" against a single page, and against two pages. *)
Definition singlePage : outcome World (option loc * option error) :=
  GetVideos Script.singlePage (GetInstance Script.singlePage 1) Script.yt ["a"] Script.started.

Definition twoPages : outcome World (option loc * option error) :=
  GetVideos Script.twoPages (GetInstance Script.twoPages 1) Script.yt ["a"] Script.started.

(** The look-up of fifty-one identifiers whose second batch fails. *)
Definition secondBatchFails : outcome World (option loc * option error) :=
  GetVideos Script.secondBatchFails (GetInstance Script.secondBatchFails 1) Script.yt
    Script.manyIds Script.started.

(** The playlist of the channel without content details, and then, in the
    state this call leaves, of the channel with them. *)
Definition bare : outcome World (option loc * option error) :=
  GetChannelPlaylist Script.uploads (GetInstance Script.uploads 1) Script.yt
    (Some Script.bareChannel) 5 Script.started.

Definition afterBare : outcome World (option loc * option error) :=
  GetChannelPlaylist Script.uploads (GetInstance Script.uploads 1) Script.yt
    (Some Script.channel) 5 (worldAfter bare Script.started).

(** The playlist of the channel, in the start state. *)
Definition playlist : outcome World (option loc * option error) :=
  GetChannelPlaylist Script.uploads (GetInstance Script.uploads 1) Script.yt
    (Some Script.channel) 5 Script.started.

(** The same while the playlist endpoint is down. *)
Definition playlistFails : outcome World (option loc * option error) :=
  GetChannelPlaylist Script.playlistFails (GetInstance Script.playlistFails 1) Script.yt
    (Some Script.channel) 5 Script.started.

End Run.

(** ** Frames *)

(** Every run of [m] that returns relates the states before and after by [R]. *)
Definition preserves {A} (R : World -> World -> Prop) (m : M A) : Prop :=
  forall w a w', m w = Ret a w' -> R w w'.

(** No playlist partition of any cache object differs between [w] and [w']. *)
Definition samePlaylists (w w' : World) : Prop :=
  forall ref, playlistOf w' ref = playlistOf w ref.

(** ** Page fetches *)

(** The state after the request of [url]. *)
Definition logged (url : string) (w : World) : World :=
  set_requests (requests w ++ [url]) w.

(** The error of the fetch of [url] in [w] by [http.Get], [io.ReadAll] and
    [json.Unmarshal], if one of the three fails. *)
Definition fetchError {A} (U : Upstream) (decode : string -> error + A) (w : World)
    (url : string) : option error :=
  match transport U (requests w) url with
  | GetFailed err => Some err
  | ReadFailed err => Some err
  | Body body =>
      match decode body with
      | inl err => Some err
      | inr _ => None
      end
  end.


(** * Further vocabulary: the service as a whole *)


(** Two calls in a row return, and in the other order they end in the same
    cache. *)
Definition commute (m1 m2 : St MemoryCache unit) (c : MemoryCache) : Prop :=
  exists c', (m1 ;;; m2) c = Ret tt c' /\ (m2 ;;; m1) c = Ret tt c'.

(** A [Set] replaces what an earlier [Set] stored under the key, and the
    [Set]s of different keys can be swapped. *)
Definition overwrite_laws {V : Type} (Set_ : string -> option V -> St MemoryCache unit)
    (c : MemoryCache) : Prop :=
  forall (k k' : string) (v v' : option V),
    (exists c', (Set_ k v ;;; Set_ k v') c = Ret tt c' /\ Set_ k v' c = Ret tt c') /\
    (k <> k' -> commute (Set_ k v) (Set_ k' v') c).

(** ** State relations the service keeps *)

(** What a relation between the states before and after has to allow for
    the service to keep it, whatever it does to the caches: the steps on
    the heap, on the request log, on the instance and on the list of cache
    objects. *)
Record Frame (R : World -> World -> Prop) : Prop := {
  frame_refl : forall w, R w w;
  frame_trans : forall w1 w2 w3, R w1 w2 -> R w2 w3 -> R w1 w3;
  frame_newVideo : forall v, preserves R (newVideo v);
  frame_storeVideo : forall l v, preserves R (storeVideo l v);
  frame_newVideoResults : forall r, preserves R (newVideoResults r);
  frame_storeVideoResults : forall l r, preserves R (storeVideoResults l r);
  frame_http_Get : forall U url, preserves R (http_Get U url);
  frame_Once_Do : forall key cache, preserves R (Once_Do key cache);
  frame_newMemoryCache : preserves R newMemoryCache
}.


(** No mutex of any cache object is held. *)
Definition mutexesFree (w : World) : Prop :=
  Forall (fun c => mu c = false) (caches w).

Definition keepsMutexesFree (w w' : World) : Prop :=
  mutexesFree w -> mutexesFree w'.

(** Once the instance exists it stays the same. *)
Definition keepsInstance (w w' : World) : Prop :=
  onceDone w = true -> onceDone w' = true /\ ServiceInstance w' = ServiceInstance w.

(** The channel partition of the cache object [ref]. *)
Definition channelOf (w : World) (ref : nat) : gmap string (option ChannelInfo) :=
  match caches w !! ref with
  | Some c => channelCache c
  | None => ∅
  end.

(** No channel partition of any cache object differs between [w] and [w']. *)
Definition sameChannels (w w' : World) : Prop :=
  forall ref, channelOf w' ref = channelOf w ref.

(** ** States after a step, written out *)

(** The state in which the cache object of [yt] is [c]. *)
Definition withCache (yt : YoutubeApi) (c : MemoryCache) (w : World) : World :=
  set_caches (<[Cache yt := c]> (caches w)) w.

(** The state after the allocation of the result object [r]. *)
Definition allocated (r : VideoResults) (w : World) : World :=
  set_results (results w ++ [r]) w.

(** [VideoResults{}], the result set without items. *)
Definition noItems : VideoResults := {| Items := []; NextPageToken := EmptyString |}.

(** ** The start-up search of [GetInstance] *)

(** The URL of the search for "alai" that [GetInstance] runs on the
    instance (line 78), for the key of the instance. *)
Definition startUpSearch (key : string) : string :=
  Sprintf_SearchVideoIds (strings.ReplaceSpaces "alai" "%20%") key (pageTokenParam 0 EmptyString).

(** Whatever was requested before, the upstream answers the start-up search
    with a page that holds at least one video. *)
Definition alwaysFinds (U : Upstream) (key : string) : Prop :=
  forall history, exists body res vids idx,
    transport U history (startUpSearch key) = Body body /\
    json_TagSearchResults U body = inr res /\
    FindTags_collect (TagSearch_Items res) [] ∅ = Some (vids, idx) /\
    vids <> [].

(** The instance exists, and its cache holds neither the start-up search
    nor any look-up. *)
Definition awaitsStartUp (inst : YoutubeApi) (w : World) : Prop :=
  onceDone w = true /\ ServiceInstance w = Some inst /\
  exists c, caches w !! Cache inst = Some c /\ mu c = false /\
            index (videoCache c) "alai" = None /\
            forall key, index (videoDetailsCache c) key = None.

Module Startup.

(** The state of a process before its first call of [GetInstance]. *)
Definition fresh : World :=
  {| videos := []; results := []; caches := []; onceDone := false;
     ServiceInstance := None; requests := [] |}.

(** An upstream that answers every request with the same search page of
    one video. *)
Definition findsOne : Upstream :=
  {| transport := fun _ _ => Body "search";
     json_TagSearchResults :=
       Script.lookup
         [("search",
           {| TagSearch_Items :=
                [ {| TagSearch_Id := Some "v1";
                     TagSearch_Snippet := Some ("Alai", "UC-alai", Script.noThumbnails) |} ];
              TagSearch_NextPageToken := EmptyString |})];
     json_VideoResults := Script.lookup [];
     json_ChannelInfo := Script.lookup [];
     json_ChannelPlaylistVideoResults := Script.lookup [] |}.

(** An upstream whose search page holds no video. *)
Definition findsNothing : Upstream :=
  Script.upstream [Body "search"]
    [("search", {| TagSearch_Items := []; TagSearch_NextPageToken := EmptyString |})] [] [] [].

(** The instance the first call without parameters creates. *)
Definition instance : YoutubeApi := NewYoutubeApi EmptyString 0.

End Startup.

(** The instance exists and its start-up search is cached. *)
Definition startedUp (inst : YoutubeApi) (w : World) : Prop :=
  onceDone w = true /\ ServiceInstance w = Some inst /\
  exists p, cached inst VideoPartition "alai" (ResultSet (Some p)) w.

Definition keepsStartedUp (inst : YoutubeApi) (w w' : World) : Prop :=
  startedUp inst w -> startedUp inst w'.



(** The requests of the pages of a playlist: the first carries the token
    parameter [first], each later one the token of the page before it. *)
Definition playlistUrls (playlistId key first : string) (tokens : list string) : list string :=
  Sprintf_GetChannelPlaylist playlistId key first
  :: map (fun token => Sprintf_GetChannelPlaylist playlistId key ("&pageToken=" +:+ token))
       tokens.

(** The state after the requests [urls], each of which came with a call
    of [GetInstance] that left a new cache object behind. *)
Definition afterPages (urls : list string) (w : World) : World :=
  set_caches (caches w ++ replicate (length urls) NewMemoryCache)
    (set_requests (requests w ++ urls) w).

(** * Properties *)

(** ** The monad *)

Lemma bind_Ret {S A B} (m : St S A) (k : A -> St S B) (s s' : S) (b : B) :
  bind m k s = Ret b s' <-> exists a s1, m s = Ret a s1 /\ k a s1 = Ret b s'.
Proof.
  unfold bind. split.
  - destruct (m s) as [a s1| |] eqn:E; try discriminate. intros H. eauto.
  - intros (a & s1 & -> & H). exact H.
Qed.

Lemma bind_ret_l {S A B} (a : A) (k : A -> St S B) (s : S) : bind (ret a) k s = k a s.
Proof. reflexivity. Qed.

Lemma bind_eq {S A B} (m : St S A) (k : A -> St S B) (s s1 : S) (a : A) :
  m s = Ret a s1 -> bind m k s = k a s1.
Proof. unfold bind. intros ->. reflexivity. Qed.

(** ** The memory cache *)

Section MemoryCacheLaws.

Import MemoryCache.

Lemma set_mu_false_id (c : MemoryCache) : mu c = false -> set_mu false (set_mu true c) = c.
Proof. destruct c; simpl; intros ->; reflexivity. Qed.

End MemoryCacheLaws.

(** C10: on a [MemoryCache] whose mutex is free, in each of the four
    partitions a [Get] of key [k] right after [Set(k, v)] returns exactly
    [v]; the [Set] changes the partition's map at [k] only and leaves the
    three other partitions as they were; and every [Get] and [Set] takes the
    one mutex of the cache: it returns with the mutex released, and on a
    cache whose mutex is held it blocks. *)
Theorem MemoryCache_get_after_set (c : MemoryCache) (k : string)
    (vr : option loc) (ch : option ChannelInfo) :
  mu c = false ->
  partition_laws MemoryCache.GetVideo MemoryCache.SetVideo videoCache
    (fun c => (channelCache c, playlistCache c, videoDetailsCache c)) c k vr /\
  partition_laws MemoryCache.GetChannel MemoryCache.SetChannel channelCache
    (fun c => (videoCache c, playlistCache c, videoDetailsCache c)) c k ch /\
  partition_laws MemoryCache.GetPlaylist MemoryCache.SetPlaylist playlistCache
    (fun c => (videoCache c, channelCache c, videoDetailsCache c)) c k vr /\
  partition_laws MemoryCache.GetVideoDetail MemoryCache.SetVideoDetail videoDetailsCache
    (fun c => (videoCache c, channelCache c, playlistCache c)) c k vr /\
  (forall held, mu held = true -> blocks_when_held held).
Proof.
  intros Hmu.
  repeat split; try (intros; unfold MemoryCache.GetVideo, MemoryCache.SetVideo,
    MemoryCache.GetChannel, MemoryCache.SetChannel, MemoryCache.GetPlaylist,
    MemoryCache.SetPlaylist, MemoryCache.GetVideoDetail, MemoryCache.SetVideoDetail,
    bind, MemoryCache.Lock; simpl;
    match goal with H : mu _ = true |- _ => rewrite H; reflexivity end).
  all: try (destruct c; simpl in *; subst; reflexivity).
  all: destruct c as [vc cc pc dc m]; simpl in Hmu; subst m;
    eexists; (split; [reflexivity|]); cbn;
    unfold index; rewrite ?lookup_insert_eq; repeat split;
    intros; cbn; rewrite ?lookup_insert_ne by congruence; reflexivity.
Qed.

(** C10, on the new cache: a result stored under "alai" is read back, and
    the channel partition stays empty. *)
Lemma MemoryCache_get_after_set_witness :
  mu NewMemoryCache = false /\
  MemoryCache.GetVideo "alai"
    (MemoryCache.set_videoCache {[ "alai" := Some 7%nat ]} NewMemoryCache)
  = Ret (Some 7%nat) (MemoryCache.set_videoCache {[ "alai" := Some 7%nat ]} NewMemoryCache).
Proof.
  split; [reflexivity|].
  destruct (MemoryCache_get_after_set NewMemoryCache "alai" (Some 7%nat) None eq_refl)
    as [(_ & c' & Hset & Hget & _) _].
  vm_compute in Hset. injection Hset as <-. exact Hget.
Defined.

(** ** The batcher *)

Section Batcher.

Import strings.

Lemma batchIteration_loop_chunks (steps : nat) (input : list string) (i : nat)
    (results : list string) :
  batchIteration_loop steps input i results
  = results ++ map (fun chunk => Join chunk ",") (chunks steps (drop i input)).
Proof.
  revert i results. induction steps as [|steps IH]; intros i results; simpl.
  - by rewrite app_nil_r.
  - destruct (Nat.ltb_spec i (length input)) as [Hlt|Hge].
    + rewrite IH. destruct (drop i input) as [|x rest] eqn:Hd.
      { apply (f_equal length) in Hd. rewrite length_drop in Hd. simpl in Hd. lia. }
      rewrite <- Hd. cbn [map]. rewrite <- app_assoc. cbn [app].
      rewrite drop_drop. do 3 f_equal.
      destruct (Nat.ltb_spec (length input) (i + 50)) as [Hshort|Hlong].
      * rewrite !take_ge; [done| |]; rewrite length_drop; lia.
      * by replace (i + 50 - i)%nat with 50%nat by lia.
    + rewrite drop_ge by lia. by rewrite app_nil_r.
Qed.

Lemma batchIteration_chunks_eq (input : list string) :
  batchIteration input
  = map (fun chunk => Join chunk ",") (chunks (length input) input).
Proof. unfold batchIteration. by rewrite batchIteration_loop_chunks. Qed.

Lemma chunks_concat (fuel : nat) (l : list string) :
  (length l <= fuel)%nat -> concat (chunks fuel l) = l.
Proof.
  revert l. induction fuel as [|fuel IH]; intros l Hl.
  - destruct l; [done | simpl in Hl; lia].
  - destruct l as [|x l']; [done|].
    cbn [chunks concat]. rewrite IH; [apply take_drop|].
    rewrite length_drop. simpl in *. lia.
Qed.

Lemma chunks_bounded (fuel : nat) (l : list string) :
  Forall (fun chunk => chunk <> [] /\ (length chunk <= 50)%nat) (chunks fuel l).
Proof.
  revert l. induction fuel as [|fuel IH]; intros l; [constructor|].
  destruct l as [|x l']; [constructor|].
  cbn [chunks]. constructor; [|apply IH].
  split; [done|]. rewrite length_take. lia.
Qed.

Lemma chunks_length (fuel : nat) (l : list string) :
  (length l <= fuel)%nat -> length (chunks fuel l) = ((length l + 49) / 50)%nat.
Proof.
  revert l. induction fuel as [|fuel IH]; intros l Hl.
  - destruct l; [done | simpl in Hl; lia].
  - destruct l as [|x l']; [done|].
    cbn [chunks length]. rewrite IH by (rewrite length_drop; simpl in *; lia).
    rewrite length_drop. cbn [length].
    destruct (Nat.le_gt_cases 50 (S (length l'))) as [Hge|Hlt].
    + replace (S (length l') + 49)%nat with (S (length l') - 50 + 49 + 1 * 50)%nat by lia.
      rewrite Nat.div_add by lia. lia.
    + replace (S (length l') - 50 + 49)%nat with 49%nat by lia.
      change (49 `div` 50)%nat with 0%nat.
      apply (Nat.div_unique _ 50 1 (length l')%nat); lia.
Qed.

Lemma SplitComma_commaFree (s : string) :
  commaFree s = true -> SplitComma s = [s].
Proof.
  induction s as [|c s IH]; [done|]. simpl.
  destruct (Ascii.eqb c ",") eqn:E; [done|]. simpl.
  intros H. by rewrite IH.
Qed.

Lemma SplitComma_app (s t : string) :
  commaFree s = true -> SplitComma (s +:+ "," +:+ t) = s :: SplitComma t.
Proof.
  induction s as [|c s IH]; [done|]. simpl.
  destruct (Ascii.eqb c ",") eqn:E; [done|]. simpl.
  intros H. by rewrite (IH H).
Qed.

Lemma SplitComma_Join (chunk : list string) :
  chunk <> [] -> Forall (fun id => commaFree id = true) chunk ->
  SplitComma (Join chunk ",") = chunk.
Proof.
  unfold Join. induction chunk as [|x chunk IH]; [done|].
  intros _ Hall. inversion Hall as [|? ? Hx Hrest]; subst.
  destruct chunk as [|y chunk].
  - simpl. by apply SplitComma_commaFree.
  - change (String.concat "," (x :: y :: chunk))
      with (x +:+ "," +:+ String.concat "," (y :: chunk)).
    rewrite SplitComma_app by done. by rewrite IH.
Qed.

Lemma Forall_concat_chunks (P : string -> Prop) (ls : list (list string)) :
  Forall P (concat ls) -> Forall (Forall P) ls.
Proof.
  induction ls as [|l ls IH]; [constructor|].
  simpl. rewrite Forall_app. intros [? ?]. constructor; auto.
Qed.

Lemma split_batches (ls : list (list string)) :
  Forall (fun chunk => chunk <> [] /\ (length chunk <= 50)%nat) ls ->
  Forall (Forall (fun id => commaFree id = true)) ls ->
  map SplitComma (map (fun chunk => Join chunk ",") ls) = ls.
Proof.
  induction 1 as [|l ls [Hne _] _ IH]; [done|].
  intros Hall. inversion Hall; subst. cbn [map].
  rewrite SplitComma_Join by done. by rewrite IH.
Qed.

End Batcher.

(** C4, as the code has it: for every identifier list of length L whose
    identifiers hold no comma, splitting each chunk of the Batcher at its
    commas and concatenating the pieces in order gives back the list; every
    chunk holds at most 50 identifiers; there are ceil(L/50) chunks; the
    empty list gives none. *)
Theorem batchIteration_partition (input : list string) :
  Forall (fun id => strings.commaFree id = true) input ->
  concat (map strings.SplitComma (batchIteration input)) = input /\
  Forall (fun chunk => (length (strings.SplitComma chunk) <= 50)%nat) (batchIteration input) /\
  length (batchIteration input) = ((length input + 49) / 50)%nat /\
  batchIteration [] = [].
Proof.
  intros Hfree.
  assert (Hsplit : map strings.SplitComma (batchIteration input)
                   = chunks (length input) input).
  { rewrite batchIteration_chunks_eq. apply split_batches; [apply chunks_bounded|].
    apply Forall_concat_chunks. by rewrite chunks_concat. }
  repeat split.
  - rewrite Hsplit. by apply chunks_concat.
  - rewrite <- (Forall_map strings.SplitComma (fun l => (length l <= 50)%nat)).
    rewrite Hsplit. eapply Forall_impl; [apply chunks_bounded|]. by intros ? [_ ?].
  - rewrite batchIteration_chunks_eq, length_map. by apply chunks_length.
Qed.

(** C4, on three identifiers. *)
Lemma batchIteration_partition_witness :
  Forall (fun id => strings.commaFree id = true) ["a"; "b"; "c"] /\
  concat (map strings.SplitComma (batchIteration ["a"; "b"; "c"])) = ["a"; "b"; "c"].
Proof.
  assert (H : Forall (fun id => strings.commaFree id = true) ["a"; "b"; "c"])
    by (repeat constructor).
  split; [exact H|]. exact (proj1 (batchIteration_partition ["a"; "b"; "c"] H)).
Defined.

(** C4 as stated, on every identifier list, fails: an identifier that holds
    a comma comes back as two. *)
Lemma batchIteration_comma_counterexample :
  concat (map strings.SplitComma (batchIteration ["a,b"])) <> ["a,b"].
Proof. vm_compute. discriminate. Qed.

(** ** Cache accesses of the service *)

Lemma set_caches_id (w : World) (ref : nat) (c : MemoryCache) :
  caches w !! ref = Some c -> set_caches (<[ref := c]> (caches w)) w = w.
Proof. intros H. rewrite list_insert_id by done. by destruct w. Qed.

Lemma onCache_Ret {A} (ref : nat) (m : St MemoryCache A) (w w' : World) (a : A) :
  onCache ref m w = Ret a w' <->
  exists c c', caches w !! ref = Some c /\ m c = Ret a c' /\
               w' = set_caches (<[ref := c']> (caches w)) w.
Proof.
  unfold onCache. split.
  - destruct (caches w !! ref) as [c|]; [|done].
    destruct (m c) as [a' c'| |] eqn:E; try done.
    intros [= -> <-]. eauto.
  - intros (c & c' & -> & -> & ->). done.
Qed.

Section CacheReads.

Import MemoryCache.

(** A read through the mutex leaves the cache object as it was. *)
Lemma read_Ret {V} (proj : MemoryCache -> gmap string (option V)) (key : string)
    (c c' : MemoryCache) (r : option V) :
  (Lock ;;; c0 <- get ;; let r := index (proj c0) key in Unlock ;;; ret r) c = Ret r c' ->
  (forall c0, proj (set_mu true c0) = proj c0) ->
  mu c = false /\ r = index (proj c) key /\ c' = c.
Proof.
  unfold bind, Lock, get, Unlock, ret. destruct (mu c) eqn:Hmu; [done|].
  cbn. intros [= <- <-] Hproj. rewrite Hproj.
  by rewrite set_mu_false_id.
Qed.

Lemma write_Ret (upd : MemoryCache -> MemoryCache) (c c' : MemoryCache) :
  (Lock ;;; c0 <- get ;; put (upd c0) ;;; Unlock) c = Ret tt c' ->
  (forall c0, mu (upd c0) = mu c0) ->
  mu c = false /\ c' = set_mu false (upd (set_mu true c)).
Proof.
  unfold bind, Lock, get, put, Unlock. destruct (mu c) eqn:Hmu; [done|].
  intros H Hupd. rewrite Hupd in H. cbn in H. by injection H as <-.
Qed.

End CacheReads.

Section CacheAccess.

Variable yt : YoutubeApi.

Ltac read_tac :=
  let H := fresh in
  split;
  [ intros H; apply onCache_Ret in H; destruct H as (c & c' & Hc & H & ->);
    apply read_Ret in H; [|done]; destruct H as (Hmu & -> & ->);
    split; [by apply set_caches_id | exists c; done]
  | intros (-> & c & Hc & Hmu & Hr); apply onCache_Ret; exists c, c;
    split; [done|]; split;
    [ unfold MemoryCache.GetVideo, MemoryCache.GetChannel, MemoryCache.GetPlaylist,
        MemoryCache.GetVideoDetail, bind, MemoryCache.Lock, MemoryCache.Unlock, get, ret;
      rewrite Hmu; cbn; rewrite set_mu_false_id by done; cbn in Hr; congruence
    | symmetry; by apply set_caches_id ] ].

Lemma Cache_GetVideo_Ret key w r w' :
  Cache_GetVideo yt key w = Ret r w' <->
  w' = w /\ cached yt VideoPartition key (ResultSet r) w.
Proof. unfold Cache_GetVideo, cached. read_tac. Qed.

Lemma Cache_GetChannel_Ret key w r w' :
  Cache_GetChannel yt key w = Ret r w' <->
  w' = w /\ cached yt ChannelPartition key (ChannelRecord r) w.
Proof. unfold Cache_GetChannel, cached. read_tac. Qed.

Lemma Cache_GetPlaylist_Ret key w r w' :
  Cache_GetPlaylist yt key w = Ret r w' <->
  w' = w /\ cached yt PlaylistPartition key (ResultSet r) w.
Proof. unfold Cache_GetPlaylist, cached. read_tac. Qed.

Lemma Cache_GetVideoDetail_Ret key w r w' :
  Cache_GetVideoDetail yt key w = Ret r w' <->
  w' = w /\ cached yt VideoDetailPartition key (ResultSet r) w.
Proof. unfold Cache_GetVideoDetail, cached. read_tac. Qed.

End CacheAccess.

Section CacheWrites.

Variable yt : YoutubeApi.

Ltac write_tac :=
  let H := fresh in
  intros H; apply onCache_Ret in H; destruct H as (c & c' & Hc & H & ->);
  apply write_Ret in H; [|done]; destruct H as (Hmu & ->);
  eexists; split; [cbn; apply list_lookup_insert_eq; by eapply lookup_lt_Some|];
  split; [done|]; cbn; unfold index; by rewrite lookup_insert_eq.

Lemma Cache_SetVideo_cached key v w u w' :
  Cache_SetVideo yt key v w = Ret u w' -> cached yt VideoPartition key (ResultSet v) w'.
Proof. unfold Cache_SetVideo, cached. destruct u. write_tac. Qed.

Lemma Cache_SetChannel_cached key v w u w' :
  Cache_SetChannel yt key v w = Ret u w' -> cached yt ChannelPartition key (ChannelRecord v) w'.
Proof. unfold Cache_SetChannel, cached. destruct u. write_tac. Qed.

Lemma Cache_SetPlaylist_cached key v w u w' :
  Cache_SetPlaylist yt key v w = Ret u w' -> cached yt PlaylistPartition key (ResultSet v) w'.
Proof. unfold Cache_SetPlaylist, cached. destruct u. write_tac. Qed.

Lemma Cache_SetVideoDetail_cached key v w u w' :
  Cache_SetVideoDetail yt key v w = Ret u w' -> cached yt VideoDetailPartition key (ResultSet v) w'.
Proof. unfold Cache_SetVideoDetail, cached. destruct u. write_tac. Qed.

End CacheWrites.

(** Inversion of a run that returned: one step through a [bind], a [ret]
    or a [match] on an intermediate result. *)
Ltac inv_leaf_of H T :=
  lazymatch T with
  | ret _ _ = Ret _ _ => unfold ret in H; injection H as ? ?; subst
  | get _ = Ret _ _ => unfold get in H; injection H as ? ?; subst
  | panic _ = Ret _ _ => discriminate H
  | diverge _ = Ret _ _ => discriminate H
  | deref ?p _ = Ret _ _ =>
      destruct p; cbn [deref] in H;
      [unfold ret in H; injection H as ? ?; subst | discriminate H]
  end.

Ltac inv_leaves :=
  repeat match goal with HE : ?T |- _ => inv_leaf_of HE T end.

Ltac inv_step_of H T :=
  lazymatch T with
  | bind _ _ _ = Ret _ _ =>
      let a := fresh "a" in let w := fresh "w" in let E := fresh "E" in
      apply bind_Ret in H; destruct H as (a & w & E & H); cbv beta in H
  | (match ?x with _ => _ end) _ = Ret _ _ => destruct x eqn:?
  | (let '(_, _) := ?x in _) _ = Ret _ _ => destruct x eqn:?
  | (if ?x then _ else _) _ = Ret _ _ => destruct x eqn:?
  end.

Tactic Notation "inv_step" hyp(H) :=
  let T := type of H in first [inv_step_of H T; inv_leaves | inv_leaves].

Section CachedOperations.

Variable U : Upstream.
Variable yt : YoutubeApi.

(** A non-nil value under the key of [op] answers the call: nothing else
    happens, whatever [GetInstance] would do. *)
Lemma call_hit (gi : M YoutubeApi) (op : Operation) (v : Value) (w : World) :
  isNil v = false ->
  cached yt (fst (cacheKeyOf op)) (snd (cacheKeyOf op)) v w ->
  call U gi yt op w = Ret (v, None) w.
Proof.
  intros Hv Hc. destruct op; cbn in Hc; cbn [call].
  - destruct v as [[p|]|]; try done; try (destruct Hc as (? & _ & _ & ?); done).
    unfold FindTags.
    erewrite bind_eq; [|erewrite bind_eq; [|apply Cache_GetVideo_Ret; eauto]; reflexivity].
    reflexivity.
  - destruct v as [[p|]|]; try done; try (destruct Hc as (? & _ & _ & ?); done).
    unfold GetVideos.
    erewrite bind_eq; [|erewrite bind_eq; [|apply Cache_GetVideoDetail_Ret; eauto]; reflexivity].
    reflexivity.
  - destruct v as [|[p|]]; try done; try (destruct Hc as (? & _ & _ & ?); done).
    unfold GetChannelInfo.
    erewrite bind_eq; [|erewrite bind_eq; [|apply Cache_GetChannel_Ret; eauto]; reflexivity].
    reflexivity.
  - destruct v as [[p|]|]; try done; try (destruct Hc as (? & _ & _ & ?); done).
    unfold GetChannelPlaylist. cbn [deref].
    erewrite bind_eq; [|erewrite bind_eq; [|reflexivity]; cbv beta;
      erewrite bind_eq; [|apply Cache_GetPlaylist_Ret; eauto]; reflexivity].
    reflexivity.
Qed.

(** A call that returns no error leaves what it returned, a non-nil
    value, in the cache under its key. *)
Lemma call_success (gi : M YoutubeApi) (op : Operation) (v : Value) (w w1 : World) :
  call U gi yt op w = Ret (v, None) w1 ->
  isNil v = false /\ cached yt (fst (cacheKeyOf op)) (snd (cacheKeyOf op)) v w1.
Proof.
  intros H. destruct op; cbn [call] in H; cbn [cacheKeyOf fst snd].
  - inv_step H. destruct a as [p e]; cbn in *; subst e.
    unfold FindTags in E. inv_step E. inv_step E.
    + apply Cache_GetVideo_Ret in E0 as [-> Hc]. done.
    + repeat (inv_step E; try discriminate).
      split; [done|]. eapply Cache_SetVideo_cached; eauto.
  - inv_step H. destruct a as [p e]; cbn in *; subst e.
    unfold GetVideos in E. inv_step E. inv_step E.
    + apply Cache_GetVideoDetail_Ret in E0 as [-> Hc]. done.
    + repeat (inv_step E; try discriminate).
      split; [done|]. eapply Cache_SetVideoDetail_cached; eauto.
  - inv_step H. destruct a as [p e]; cbn in *; subst e.
    unfold GetChannelInfo in E. inv_step E. inv_step E.
    + apply Cache_GetChannel_Ret in E0 as [-> Hc]. done.
    + repeat (inv_step E; try discriminate).
      split; [done|]. eapply Cache_SetChannel_cached; eauto.
  - inv_step H. destruct a as [p e]; cbn in *; subst e.
    unfold GetChannelPlaylist in E. cbn [deref] in E. inv_step E. inv_step E.
    + apply Cache_GetPlaylist_Ret in E0 as [-> Hc]. done.
    + repeat (inv_step E; try discriminate).
      split; [done|]. eapply Cache_SetPlaylist_cached; eauto.
Qed.

End CachedOperations.

(** C3: once a call of one of the four cached operations has returned
    without error, a call of the same operation whose cache key is identical
    (whatever its remaining arguments, such as the page count) returns
    exactly the value the first call returned and cached, and leaves the
    whole state as it was: in particular the log of upstream requests is the
    same, no request is made. *)
Theorem second_call_is_cached (U : Upstream) (gi gi' : M YoutubeApi) (yt : YoutubeApi)
    (op op' : Operation) (v : Value) (w w1 : World) :
  call U gi yt op w = Ret (v, None) w1 ->
  cacheKeyOf op' = cacheKeyOf op ->
  cached yt (fst (cacheKeyOf op)) (snd (cacheKeyOf op)) v w1 /\
  call U gi' yt op' w1 = Ret (v, None) w1 /\
  forall w2 r, call U gi' yt op' w1 = Ret r w2 -> requests w2 = requests w1.
Proof.
  intros Hfirst Hkey. apply call_success in Hfirst as [Hv Hc].
  assert (Hsecond : call U gi' yt op' w1 = Ret (v, None) w1).
  { apply call_hit; [done|]. by rewrite Hkey. }
  repeat split; [done..|].
  intros w2 r. rewrite Hsecond. by intros [= _ <-].
Qed.

(** C3, on a search for "cats": the second search asks for five pages
    instead of one and is answered from the cache all the same. *)
Lemma second_call_is_cached_witness :
  call (Script.searchOf "1001") (GetInstance (Script.searchOf "1001") 1) Script.yt
    (OpFindTags "cats" 1) Script.started
  = Ret (ResultSet (Some 1%nat), None) Script.afterSearch /\
  call (Script.searchOf "1001") (GetInstance (Script.searchOf "1001") 0) Script.yt
    (OpFindTags "cats" 5) Script.afterSearch
  = Ret (ResultSet (Some 1%nat), None) Script.afterSearch.
Proof.
  assert (Hfirst :
    call (Script.searchOf "1001") (GetInstance (Script.searchOf "1001") 1) Script.yt
      (OpFindTags "cats" 1) Script.started
    = Ret (ResultSet (Some 1%nat), None) Script.afterSearch) by (by vm_compute).
  split; [exact Hfirst|].
  exact (proj1 (proj2 (second_call_is_cached _ _ (GetInstance (Script.searchOf "1001") 0)
                         _ _ (OpFindTags "cats" 5) _ _ _ Hfirst eq_refl))).
Defined.

(** ** The filter and the merge *)

Lemma set_videos_id (w : World) : w = set_videos (videos w) w.
Proof. by destruct w. Qed.

Lemma mergeFound_mergeStep (vidIds : gmap string VidSnippetInfo) : mergeStep (mergeFound vidIds).
Proof.
  intros v. unfold mergeFound.
  destruct (vidIds !! Video_Id v) as [info|] eqn:Hi; [|by rewrite Hi].
  destruct (Video_Snippet v) as [sn|] eqn:Hs; cbn; rewrite ?Hi, ?Hs; [|done].
  repeat split; eauto.
Qed.


Section Updated.

Variable f : Video -> Video.
Hypothesis Hf : mergeStep f.

Lemma updated_refl (w : World) : updated f [] w w.
Proof.
  split; [apply set_videos_id|]. split; [done|].
  intros l v Hv. split; [by intros ?%elem_of_nil | done].
Qed.

(** A video that went through the loop so far is the original or its merge. *)
Lemma updated_lookup (touched : list (option loc)) (w0 w : World) (l : loc) (v0 : Video) :
  updated f touched w0 w -> videos w0 !! l = Some v0 ->
  exists v, videos w !! l = Some v /\ f v = f v0 /\
            Video_Id v = Video_Id v0 /\ Video_Statistics v = Video_Statistics v0 /\
            (is_Some (Video_Snippet v) <-> is_Some (Video_Snippet v0)).
Proof.
  intros (_ & _ & Hup) Hv0. destruct (Hup l v0 Hv0) as [Hin Hout].
  destruct (Hf v0) as (Hidem & Hid & Hst & Hsn).
  destruct (decide (Some l ∈ touched)) as [H|H].
  - exists (f v0). split; [by apply Hin|]. by rewrite Hidem, Hid, Hst.
  - exists v0. split; [by apply Hout|]. done.
Qed.

Lemma updated_store (touched : list (option loc)) (w0 w : World) (l : loc) (v0 : Video) :
  updated f touched w0 w -> videos w0 !! l = Some v0 ->
  updated f (touched ++ [Some l]) w0 (set_videos (<[l := f v0]> (videos w)) w).
Proof.
  intros (Hw & Hlen & Hup) Hv0. split; [|split].
  - transitivity (set_videos (<[l := f v0]> (videos w)) (set_videos (videos w) w0));
      [by rewrite <- Hw | by destruct w0].
  - cbn. by rewrite length_insert.
  - intros l' v' Hv'. cbn. destruct (Hup l' v' Hv') as [Hin Hout].
    destruct (decide (l' = l)) as [->|Hne].
    + assert (v' = v0) as -> by congruence.
      split; [|intros H; exfalso; apply H, elem_of_app; right; by apply list_elem_of_singleton].
      intros _. apply list_lookup_insert_eq. rewrite Hlen. by eapply lookup_lt_Some.
    + rewrite list_lookup_insert_ne by done.
      split; intros H.
      * apply Hin. apply elem_of_app in H as [H|H%list_elem_of_singleton]; [done|congruence].
      * apply Hout. intros H'. apply H, elem_of_app. by left.
Qed.

Lemma updated_keep (touched : list (option loc)) (w0 w : World) (l : loc) (v0 : Video) :
  updated f touched w0 w -> videos w0 !! l = Some v0 -> f v0 = v0 ->
  updated f (touched ++ [Some l]) w0 w.
Proof.
  intros (Hw & Hlen & Hup) Hv0 Hfix. split; [done|]. split; [done|].
  intros l' v' Hv'. destruct (Hup l' v' Hv') as [Hin Hout].
  destruct (decide (l' = l)) as [->|Hne].
  - assert (v' = v0) as -> by congruence.
    split; [|intros H; exfalso; apply H, elem_of_app; right; by apply list_elem_of_singleton].
    intros _. destruct (decide (Some l ∈ touched)) as [H|H].
    + by apply Hin.
    + rewrite Hfix. by apply Hout.
  - split; intros H.
    + apply Hin. apply elem_of_app in H as [H|H%list_elem_of_singleton]; [done|congruence].
    + apply Hout. intros H'. apply H, elem_of_app. by left.
Qed.

End Updated.


Lemma isEmpty_true (s : string) : isEmpty s = true <-> s = EmptyString.
Proof. unfold isEmpty. apply String.eqb_eq. Qed.

Lemma loadVideo_eq (w : World) (l : loc) (v : Video) :
  videos w !! l = Some v -> loadVideo l w = Ret v w.
Proof. unfold loadVideo. by intros ->. Qed.

Section FilterLoop.

Variable vidIds : gmap string VidSnippetInfo.

(** One round of the filter loop on a valid pointer. *)
Lemma FindTags_filter_cons (l : loc) (items' acc : list (option loc)) (w : World)
    (v : Video) (st : VideoStatistics) :
  videos w !! l = Some v -> Video_Statistics v = Some st ->
  FindTags_filter vidIds (Some l :: items') acc w
  = (if isEmpty (ViewCount st) then FindTags_filter vidIds items' acc
     else
       match strconv.Atoi (ViewCount st) with
       | (_, Some err) => ret ([], Some err)
       | (views, None) =>
           if MinViews <? views then
             match vidIds !! Video_Id v with
             | Some snippetInfo =>
                 sn <- deref (Video_Snippet v) ;;
                 storeVideo l (set_Snippet (mergeSnippetInfo snippetInfo sn) v)
             | None => ret tt
             end ;;;
             FindTags_filter vidIds items' (acc ++ [Some l])
           else FindTags_filter vidIds items' acc
       end) w.
Proof.
  intros Hv Hst. cbn [FindTags_filter].
  erewrite bind_eq by reflexivity.
  erewrite bind_eq by (by apply loadVideo_eq).
  rewrite Hst. erewrite bind_eq by reflexivity.
  reflexivity.
Qed.

Variable w0 : World.

Lemma FindTags_filter_run (items : list (option loc)) :
  forall (acc touched : list (option loc)) (w : World),
  Forall (wellFormed w0) items ->
  updated (mergeFound vidIds) touched w0 w ->
  match firstBad w0 items with
  | Some err => exists w', FindTags_filter vidIds items acc w = Ret ([], Some err) w'
  | None =>
      exists w',
        FindTags_filter vidIds items acc w
        = Ret (acc ++ List.filter (retained w0) items, None) w' /\
        updated (mergeFound vidIds) (touched ++ List.filter (retained w0) items) w0 w'
  end.
Proof.
  induction items as [|item items' IH]; intros acc touched w Hwf Hup.
  - cbn. exists w. by rewrite !app_nil_r.
  - inversion Hwf as [|? ? (v0 & Hv0 & [sn0 Hsn0] & [st0 Hst0]) Hwf']; subst.
    destruct item as [l|]; [|done]. cbn in Hv0.
    destruct (updated_lookup _ (mergeFound_mergeStep vidIds) _ _ _ _ _ Hup Hv0)
      as (v & Hv & Hfv & Hid & Hst & Hsn).
    rewrite Hst0 in Hst.
    rewrite (FindTags_filter_cons _ _ _ _ _ _ Hv Hst).
    cbn [firstBad List.filter].
    unfold retained, viewCountAt. cbn [videoAt]. rewrite Hv0, Hst0.
    cbn [fmap option_fmap option_map]. unfold parsedViews.
    destruct (isEmpty (ViewCount st0)) eqn:Hempty.
    { apply isEmpty_true in Hempty. rewrite Hempty. cbn. by apply IH. }
    destruct (strconv.Atoi (ViewCount st0)) as [views [err|]] eqn:Hatoi.
    { by exists w. }
    destruct (MinViews <? views) eqn:Hviews; [|by apply IH].
    assert (Hstep : exists w1,
      (match vidIds !! Video_Id v with
       | Some snippetInfo =>
           sn <- deref (Video_Snippet v) ;;
           storeVideo l (set_Snippet (mergeSnippetInfo snippetInfo sn) v)
       | None => ret tt
       end) w = Ret tt w1 /\
      updated (mergeFound vidIds) (touched ++ [Some l]) w0 w1).
    { destruct (vidIds !! Video_Id v) as [info|] eqn:Hinfo.
      - destruct Hsn as [_ Hsn]. destruct Hsn as [sn Hsn']; [by rewrite Hsn0|].
        rewrite Hsn'. eexists. split; [reflexivity|].
        assert (set_Snippet (mergeSnippetInfo info sn) v = mergeFound vidIds v0) as ->.
        { rewrite <- Hfv. unfold mergeFound. by rewrite Hinfo, Hsn'. }
        by apply updated_store.
      - exists w. split; [reflexivity|].
        apply updated_keep with v0; [done..|].
        unfold mergeFound. by rewrite <- Hid, Hinfo. }
    destruct Hstep as (w1 & Hrun & Hup1).
    erewrite bind_eq by exact Hrun.
    specialize (IH (acc ++ [Some l]) (touched ++ [Some l]) w1 Hwf' Hup1).
    destruct (firstBad w0 items'); [done|].
    destruct IH as (w' & Hrun' & Hup'). exists w'.
    rewrite <- !app_assoc in Hrun', Hup'. done.
Qed.

End FilterLoop.


Lemma parsedViews_Atoi (s : string) :
  parsedViews s = None <-> exists n err, strconv.Atoi s = (n, Some err).
Proof.
  unfold parsedViews. destruct (strconv.Atoi s) as [n [err|]]; split; eauto; try done.
  by intros (? & ? & [=]).
Qed.

Lemma firstBad_None (w : World) (items : list (option loc)) :
  Forall (emptyOrParses w) items -> firstBad w items = None.
Proof.
  induction 1 as [|item items (s & Hs & Hcase) _ IH]; [done|].
  cbn. rewrite Hs. destruct Hcase as [->|[n Hn]]; [done|].
  destruct (isEmpty s); [done|]. unfold parsedViews in Hn.
  by destruct (strconv.Atoi s) as [? [?|]].
Qed.

Lemma firstBad_Some (w : World) (items : list (option loc)) (bad : option loc) :
  bad ∈ items -> unparsable w bad -> is_Some (firstBad w items).
Proof.
  intros Hin (s & Hs & Hne & Hp).
  induction items as [|item items IH]; [by apply elem_of_nil in Hin|].
  apply elem_of_cons in Hin as [<-|Hin].
  - cbn. rewrite Hs. destruct (isEmpty s) eqn:E; [by apply isEmpty_true in E|].
    apply parsedViews_Atoi in Hp as (n & err & ->). eauto.
  - cbn. destruct (viewCountAt w item) as [s'|]; [|by apply IH].
    destruct (isEmpty s'); [by apply IH|].
    destruct (strconv.Atoi s') as [? [?|]]; [eauto | by apply IH].
Qed.

Lemma parses_emptyOrParses (w : World) (item : option loc) :
  parses w item -> emptyOrParses w item.
Proof. intros (s & n & Hs & Hn). exists s. split; [done|]. right. by rewrite Hn. Qed.

Lemma retained_spec (w : World) (item : option loc) :
  retained w item = true <->
  exists s n, viewCountAt w item = Some s /\ parsedViews s = Some n /\ 1000 < n.
Proof.
  unfold retained, MinViews. split.
  - destruct (viewCountAt w item) as [s|]; [|done].
    destruct (parsedViews s) as [n|] eqn:Hn; [|done].
    intros H%Z.ltb_lt. eauto.
  - intros (s & n & -> & -> & H). by apply Z.ltb_lt.
Qed.

(** C8: on a list of items that carry their blocks and whose view counts
    all parse as integers, the filter of [FindTags], whose threshold
    [MinViews] is 1000, returns without error exactly the items whose parsed
    view count strictly exceeds 1000, in their original relative order. *)
Theorem FindTags_filter_retains (vidIds : gmap string VidSnippetInfo) (w : World)
    (items : list (option loc)) :
  Forall (wellFormed w) items ->
  Forall (parses w) items ->
  MinViews = 1000 /\
  (forall item, retained w item = true <->
     exists s n, viewCountAt w item = Some s /\ parsedViews s = Some n /\ 1000 < n) /\
  exists w',
    FindTags_filter vidIds items [] w = Ret (List.filter (retained w) items, None) w' /\
    forall item, viewCountAt w' item = viewCountAt w item.
Proof.
  intros Hwf Hparse. split; [done|]. split; [apply retained_spec|].
  pose proof (FindTags_filter_run vidIds w items [] [] w Hwf (updated_refl _ w)) as Hrun.
  rewrite firstBad_None in Hrun
    by (eapply Forall_impl; [exact Hparse | apply parses_emptyOrParses]).
  destruct Hrun as (w' & Hrun & Hup). exists w'. split; [exact Hrun|].
  intros [l|]; [|done]. unfold viewCountAt. cbn [videoAt].
  destruct Hup as (_ & Hlen & Hup).
  destruct (videos w !! l) as [v|] eqn:Hv.
  - destruct (Hup l v Hv) as [Hin Hout].
    destruct (mergeFound_mergeStep vidIds v) as (_ & _ & Hst & _).
    destruct (decide (Some l ∈ [] ++ List.filter (retained w) items)) as [H|H].
    + by rewrite (Hin H), Hst.
    + by rewrite (Hout H).
  - apply lookup_ge_None in Hv. rewrite <- Hlen in Hv.
    apply lookup_ge_None in Hv. by rewrite Hv.
Qed.


Lemma looked_wellFormed :
  Forall (wellFormed Script.looked) [Some 0%nat; Some 1%nat; Some 2%nat].
Proof.
  repeat constructor; eexists; (split; [reflexivity|]); split; eexists; reflexivity.
Qed.

Lemma looked_parses :
  Forall (parses Script.looked) [Some 0%nat; Some 1%nat; Some 2%nat].
Proof.
  repeat constructor;
    [exists "500", 500 | exists "1500", 1500 | exists "2000", 2000]; split; reflexivity.
Qed.

(** C8, on view counts 500, 1500 and 2000: the second and the third item
    are kept, in that order. *)
Lemma FindTags_filter_retains_witness :
  Forall (wellFormed Script.looked) [Some 0%nat; Some 1%nat; Some 2%nat] /\
  Forall (parses Script.looked) [Some 0%nat; Some 1%nat; Some 2%nat] /\
  exists w',
    FindTags_filter Script.snippetIndex [Some 0%nat; Some 1%nat; Some 2%nat] [] Script.looked
    = Ret ([Some 1%nat; Some 2%nat], None) w'.
Proof.
  split; [exact looked_wellFormed|]. split; [exact looked_parses|].
  destruct (FindTags_filter_retains Script.snippetIndex Script.looked _
              looked_wellFormed looked_parses) as (_ & _ & w' & Hrun & _).
  exists w'. exact Hrun.
Defined.


Section ProcessLoop.

Variable thumbnails : gmap string Thumbnails.
Variable w0 : World.


End ProcessLoop.









(** ** The search-and-tag operation around its filter *)

Lemma cached_ready yt part key v w : cached yt part key v w -> cacheReady yt w.
Proof. intros (c & Hc & Hmu & _). by exists c. Qed.

Lemma Cache_SetVideo_runs yt key v w :
  cacheReady yt w -> exists w', Cache_SetVideo yt key v w = Ret tt w'.
Proof.
  intros (c & Hc & Hmu). unfold Cache_SetVideo, onCache. rewrite Hc.
  unfold MemoryCache.SetVideo, bind, MemoryCache.Lock, MemoryCache.Unlock, get, put.
  rewrite Hmu. cbn. eauto.
Qed.

Lemma SearchAndRetrieveTags_FindTags U gi yt search pages numPages :
  pageCountOf pages = Some numPages ->
  SearchAndRetrieveTags U gi yt search pages = FindTags U gi yt search numPages.
Proof.
  destruct pages as [[|p rest]|]; cbn; [done|by intros [= <-]..].
Qed.

Lemma pageCountOf_clamped pages numPages :
  pageCountOf pages = Some numPages -> 1 <= numPages <= 5.
Proof.
  destruct pages as [[|p rest]|]; cbn; [done| |intros [= <-]; lia].
  intros [= <-]. destruct (Z.ltb_spec 1 p); [|lia]. destruct (Z.leb_spec 5 p); lia.
Qed.

Section FindTagsAroundFilter.

Variable U : Upstream.
Variable gi : M YoutubeApi.
Variable yt : YoutubeApi.
Variables (input : string) (numPages : Z).
Variables (w w1 w2 w3 : World).
Variables (vids : list string) (vidIds : gmap string VidSnippetInfo).
Variables (p : loc) (vr : VideoResults).

Hypothesis Hmiss : Cache_GetVideo yt input w = Ret None w1.
Hypothesis Hpages :
  FindTags_pages U yt (strings.ReplaceSpaces input "%20%") (Z.to_nat numPages)
    0 EmptyString [] ∅ w1 = Ret (vids, vidIds, None) w2.
Hypothesis Hlookup : GetVideos U gi yt vids w2 = Ret (Some p, None) w3.
Hypothesis Hvr : results w3 !! p = Some vr.

(** [FindTags] from its cache miss up to the filter. *)
Lemma FindTags_to_filter :
  FindTags U gi yt input numPages w
  = (r'' <- FindTags_filter vidIds (Items vr) [] ;;
     match r'' with
     | (_, Some err) => ret (None, Some err)
     | (filteredItems, None) =>
         storeVideoResults p
           {| Items := filteredItems; NextPageToken := NextPageToken vr |} ;;;
         Cache_SetVideo yt input (Some p) ;;;
         ret (Some p, None)
     end) w3.
Proof.
  unfold FindTags.
  rewrite (bind_eq _ _ _ _ _ Hmiss). cbv beta iota.
  rewrite (bind_eq _ _ _ _ _ Hpages). cbv beta iota.
  rewrite (bind_eq _ _ _ _ _ Hlookup). cbv beta iota.
  cbn [deref]. rewrite (bind_eq (ret p) _ w3 w3 p eq_refl).
  assert (Hload : loadVideoResults p w3 = Ret vr w3)
    by (unfold loadVideoResults; by rewrite Hvr).
  by rewrite (bind_eq _ _ _ _ _ Hload).
Qed.

Lemma FindTags_filter_fails (err : error) (filtered : list (option loc)) (w' : World) :
  FindTags_filter vidIds (Items vr) [] w3 = Ret (filtered, Some err) w' ->
  FindTags U gi yt input numPages w = Ret (None, Some err) w'.
Proof. intros H. rewrite FindTags_to_filter. by erewrite bind_eq by exact H. Qed.

Lemma FindTags_filter_succeeds (filtered : list (option loc)) (w' : World) :
  FindTags_filter vidIds (Items vr) [] w3 = Ret (filtered, None) w' ->
  caches w' = caches w3 -> results w' = results w3 ->
  exists w'',
    FindTags U gi yt input numPages w = Ret (Some p, None) w'' /\
    results w'' !! p = Some {| Items := filtered; NextPageToken := NextPageToken vr |}.
Proof.
  intros H Hcaches Hresults. rewrite FindTags_to_filter.
  erewrite bind_eq by exact H.
  assert (Hready : cacheReady yt w3).
  { pose proof (call_success U yt gi (OpGetVideos vids) (ResultSet (Some p)) w2 w3) as Hc.
    cbn [call] in Hc. erewrite bind_eq in Hc by exact Hlookup.
    destruct (Hc eq_refl) as [_ Hc']. by eapply cached_ready. }
  set (w4 := set_results (<[p := {| Items := filtered; NextPageToken := NextPageToken vr |}]>
                            (results w')) w').
  destruct (Cache_SetVideo_runs yt input (Some p) w4) as (w'' & Hset).
  { destruct Hready as (c & Hc & Hmu). exists c. by rewrite <- Hcaches in Hc. }
  exists w''. split.
  - erewrite bind_eq by reflexivity. fold w4. by erewrite bind_eq by exact Hset.
  - apply onCache_Ret in Hset as (c & c' & _ & _ & ->). cbn.
    apply list_lookup_insert_eq. rewrite Hresults. by eapply lookup_lt_Some.
Qed.

End FindTagsAroundFilter.


(** C2, as the code has it: let [FindTags] miss its cache, page the search
    and look the videos up, and let the items it got carry their blocks.
    If some item's view count is not empty and does not parse as an integer,
    the filter fails with the [Atoi] error of the first such item, and
    [FindTags] and [SearchAndRetrieveTags] return that error and no result.
    An item whose view count is empty does not fail the call: with empty or
    integer view counts only, the filter and [FindTags] succeed and the
    empty ones are dropped like the items at or below the threshold. *)
Theorem FindTags_aborts_on_unparsable_views (U : Upstream) (gi : M YoutubeApi)
    (yt : YoutubeApi) (input : string) (numPages : Z) (w w1 w2 w3 : World)
    (vids : list string) (vidIds : gmap string VidSnippetInfo) (p : loc)
    (vr : VideoResults) :
  Cache_GetVideo yt input w = Ret None w1 ->
  FindTags_pages U yt (strings.ReplaceSpaces input "%20%") (Z.to_nat numPages)
    0 EmptyString [] ∅ w1 = Ret (vids, vidIds, None) w2 ->
  GetVideos U gi yt vids w2 = Ret (Some p, None) w3 ->
  results w3 !! p = Some vr ->
  Forall (wellFormed w3) (Items vr) ->
  (forall bad, bad ∈ Items vr -> unparsable w3 bad ->
     exists err w',
       firstBad w3 (Items vr) = Some err /\
       FindTags_filter vidIds (Items vr) [] w3 = Ret ([], Some err) w' /\
       FindTags U gi yt input numPages w = Ret (None, Some err) w' /\
       forall pages, pageCountOf pages = Some numPages ->
         SearchAndRetrieveTags U gi yt input pages w = Ret (None, Some err) w') /\
  (Forall (emptyOrParses w3) (Items vr) ->
     (forall item, viewCountAt w3 item = Some EmptyString -> retained w3 item = false) /\
     exists w' w'',
       FindTags_filter vidIds (Items vr) [] w3
       = Ret (List.filter (retained w3) (Items vr), None) w' /\
       FindTags U gi yt input numPages w = Ret (Some p, None) w'' /\
       results w'' !! p = Some {| Items := List.filter (retained w3) (Items vr);
                                  NextPageToken := NextPageToken vr |}).
Proof.
  intros Hmiss Hpages Hlookup Hvr Hwf.
  pose proof (FindTags_filter_run vidIds w3 (Items vr) [] [] w3 Hwf (updated_refl _ w3)) as Hrun.
  split.
  - intros bad Hin Hbad.
    destruct (firstBad_Some w3 (Items vr) bad Hin Hbad) as [err Herr].
    rewrite Herr in Hrun. destruct Hrun as (w' & Hrun).
    assert (Hfind : FindTags U gi yt input numPages w = Ret (None, Some err) w')
      by (eapply FindTags_filter_fails; eauto).
    exists err, w'. repeat split; [done..|].
    intros pages Hpages'. by rewrite (SearchAndRetrieveTags_FindTags _ _ _ _ _ _ Hpages').
  - intros Hparse. split.
    { intros item Hs. unfold retained. by rewrite Hs. }
    rewrite firstBad_None in Hrun by done.
    destruct Hrun as (w' & Hrun & Hw' & _).
    destruct (FindTags_filter_succeeds U gi yt input numPages w w1 w2 w3 vids vidIds p vr
                Hmiss Hpages Hlookup Hvr _ w' Hrun) as (w'' & Hfind & Hres);
      [by rewrite Hw'..|].
    by exists w', w''.
Qed.


(** C2, on a search whose one video reports the view count "abc". *)
Lemma FindTags_aborts_on_unparsable_views_witness :
  unparsable (Script.lookedUp "abc") (Some 0%nat) /\
  exists w',
    SearchAndRetrieveTags (Script.searchOf "abc") (GetInstance (Script.searchOf "abc") 1)
      Script.yt "cats" None Script.started
    = Ret (None, Some (NumError "Atoi" "abc" strconv.ErrSyntax)) w'.
Proof.
  assert (Hbad : unparsable (Script.lookedUp "abc") (Some 0%nat)).
  { exists "abc". split; [by vm_compute|]. split; [discriminate | reflexivity]. }
  split; [exact Hbad|].
  destruct (FindTags_aborts_on_unparsable_views
              (Script.searchOf "abc") (GetInstance (Script.searchOf "abc") 1) Script.yt
              "cats" 1 Script.started Script.started (Script.searched "abc")
              (Script.lookedUp "abc") ["v1"] Script.searchIndex 1%nat
              {| Items := [Some 0%nat]; NextPageToken := EmptyString |})
    as [Hfail _].
  - by vm_compute.
  - by vm_compute.
  - by vm_compute.
  - by vm_compute.
  - repeat constructor. exists (Script.video "v1" "c" "abc").
    split; [by vm_compute|]. split; eexists; reflexivity.
  - destruct (Hfail (Some 0%nat)) as (err & w' & Herr & _ & _ & Hsearch);
      [repeat constructor | exact Hbad |].
    exists w'. rewrite (Hsearch None eq_refl).
    vm_compute in Herr. by injection Herr as <-.
Defined.

(** C2 as stated fails for the empty view count: the one video of the
    search reports it, the filter skips the video, and the search returns a
    result with no items and no error. *)
Lemma FindTags_empty_views_counterexample :
  viewCountAt (Script.lookedUp EmptyString) (Some 0%nat) = Some EmptyString /\
  returned (FindTags_filter Script.searchIndex [Some 0%nat] [] (Script.lookedUp EmptyString))
  = Some ([], None) /\
  returned (SearchAndRetrieveTags (Script.searchOf EmptyString)
              (GetInstance (Script.searchOf EmptyString) 1) Script.yt "cats" None
              Script.started)
  = Some (Some 1%nat, None).
Proof. by vm_compute. Qed.


(** ** The look-up by identifiers *)

Lemma newVideos_runs (items : list (option Video)) (w : World) :
  exists ps w', newVideos items w = Ret ps w' /\ results w' = results w.
Proof.
  revert w. induction items as [|[v|] items IH]; intros w; cbn [newVideos].
  - by exists [], w.
  - unfold bind at 1, newVideo.
    destruct (IH (set_videos (videos w ++ [v]) w)) as (ps & w' & Hrun & Hres).
    exists (Some (length (videos w)) :: ps), w'. by erewrite bind_eq by exact Hrun.
  - destruct (IH w) as (ps & w' & Hrun & Hres).
    exists (None :: ps), w'. by erewrite bind_eq by exact Hrun.
Qed.

(** A page without continuation token ends the page loop before its items
    are appended: no result object changes. *)
Lemma GetVideos_pages_last_page U gi fp fSearch remaining i nextPage w inst w1 body items :
  gi w = Ret inst w1 ->
  transport U (requests w1) (Sprintf_GetTags (apiKey inst) fSearch (pageTokenParam i nextPage))
  = Body body ->
  json_VideoResults U body = inr (items, EmptyString) ->
  exists w',
    GetVideos_pages U gi fp fSearch (S remaining) i nextPage w = Ret None w' /\
    results w' = results w1.
Proof.
  intros Hgi Hbody Hjson. cbn [GetVideos_pages].
  rewrite (bind_eq _ _ _ _ _ Hgi). cbv beta.
  unfold httpGetRequest, http_Get. unfold bind at 1 2. rewrite Hbody. cbn [ret].
  unfold unmarshalResponse. rewrite Hjson.
  destruct (newVideos_runs items
              (set_requests
                 (requests w1 ++ [Sprintf_GetTags (apiKey inst) fSearch (pageTokenParam i nextPage)])
                 w1)) as (ps & w' & Hrun & Hres).
  exists w'. unfold bind at 1 2. rewrite Hrun. by cbn.
Qed.

(** C1 fails on the code.  [GetVideos] leaves the page loop (line 628)
    before it appends the items of a page without continuation token: such
    a page, the last one of every batch, adds nothing to the result.  So
    the single page that answers the look-up of "a" is decoded and dropped,
    and the call succeeds with no items.  The loop also stops after
    ceil(batches/10) pages, here one: the second page of a two-page answer
    is never requested. *)
Theorem GetVideos_drops_the_last_page :
  (forall U gi fp fSearch remaining i nextPage w inst w1 body items,
     gi w = Ret inst w1 ->
     transport U (requests w1)
       (Sprintf_GetTags (apiKey inst) fSearch (pageTokenParam i nextPage)) = Body body ->
     json_VideoResults U body = inr (items, EmptyString) ->
     exists w',
       GetVideos_pages U gi fp fSearch (S remaining) i nextPage w = Ret None w' /\
       results w' = results w1) /\
  returned Run.singlePage = Some (Some 1%nat, None) /\
  results (worldAfter Run.singlePage Script.started) !! 1%nat
  = Some {| Items := []; NextPageToken := EmptyString |} /\
  videos (worldAfter Run.singlePage Script.started) = [Script.video "a" "c" "2000"] /\
  length (requests (worldAfter Run.singlePage Script.started)) = 1%nat /\
  returned Run.twoPages = Some (Some 1%nat, None) /\
  results (worldAfter Run.twoPages Script.started) !! 1%nat
  = Some {| Items := [Some 0%nat]; NextPageToken := EmptyString |} /\
  videos (worldAfter Run.twoPages Script.started) = [Script.video "a" "c" "2000"] /\
  length (requests (worldAfter Run.twoPages Script.started)) = 1%nat.
Proof.
  split; [intros *; apply GetVideos_pages_last_page|]. by vm_compute.
Qed.

(** ** The playlist of a channel *)

(** C5 as stated fails: the channel "UC-alai" has the uploads playlist
    "UU-alai", and its playlist is cached under "UC-alai-5"; nothing is
    stored under the key made of the playlist identifier. *)
Lemma GetChannelPlaylist_key_counterexample :
  specPlaylistKey Script.channel 5 = Some "UU-alai-5" /\
  playlistCacheKey Script.channel 5 = "UC-alai-5" /\
  returned Run.playlist = Some (Some 1%nat, None) /\
  playlistOf (worldAfter Run.playlist Script.started) 0 !! "UU-alai-5" = None /\
  playlistOf (worldAfter Run.playlist Script.started) 0 !! "UC-alai-5" = Some (Some 1%nat).
Proof. by vm_compute. Qed.



(** ** What the service leaves alone: the playlist partitions *)

Create HintDb preserve discriminated.

Section Preserves.

Variable R : World -> World -> Prop.
Hypothesis R_refl : forall w, R w w.
Hypothesis R_trans : forall w1 w2 w3, R w1 w2 -> R w2 w3 -> R w1 w3.

Lemma preserves_ret {A} (a : A) : preserves R (ret a).
Proof. intros w a' w' [= _ <-]. apply R_refl. Qed.

Lemma preserves_panic {A} : preserves R (@panic World A).
Proof. by intros w a w'. Qed.

Lemma preserves_diverge {A} : preserves R (@diverge World A).
Proof. by intros w a w'. Qed.

Lemma preserves_get : preserves R get.
Proof. intros w a w' [= _ <-]. apply R_refl. Qed.

Lemma preserves_deref {A} (p : option A) : preserves R (deref p).
Proof. destruct p; [apply preserves_ret | apply preserves_panic]. Qed.

Lemma preserves_bind {A B} (m : M A) (k : A -> M B) :
  preserves R m -> (forall a, preserves R (k a)) -> preserves R (bind m k).
Proof.
  intros Hm Hk w b w' H. apply bind_Ret in H as (a & w1 & H1 & H2).
  eapply R_trans; [by eapply Hm | by eapply Hk].
Qed.

End Preserves.

Lemma samePlaylists_refl w : samePlaylists w w.
Proof. by intros ref. Qed.

Lemma samePlaylists_trans w1 w2 w3 :
  samePlaylists w1 w2 -> samePlaylists w2 w3 -> samePlaylists w1 w3.
Proof. intros H12 H23 ref. by rewrite H23, H12. Qed.

(** A state change that keeps the cache objects keeps their playlists. *)
Lemma samePlaylists_caches w w' : caches w' = caches w -> samePlaylists w w'.
Proof. intros H ref. unfold playlistOf. by rewrite H. Qed.

Lemma preserves_caches {A} (m : M A) :
  (forall w a w', m w = Ret a w' -> caches w' = caches w) ->
  preserves samePlaylists m.
Proof. intros H w a w' Hrun. eapply samePlaylists_caches, H, Hrun. Qed.

Lemma preserves_loadVideo l : preserves samePlaylists (loadVideo l).
Proof.
  apply preserves_caches. intros w a w'. unfold loadVideo.
  destruct (videos w !! l); [by intros [= _ <-] | done].
Qed.

Lemma preserves_storeVideo l v : preserves samePlaylists (storeVideo l v).
Proof. apply preserves_caches. by intros w a w' [= _ <-]. Qed.

Lemma preserves_newVideo v : preserves samePlaylists (newVideo v).
Proof. apply preserves_caches. by intros w a w' [= _ <-]. Qed.

Lemma preserves_loadVideoResults l : preserves samePlaylists (loadVideoResults l).
Proof.
  apply preserves_caches. intros w a w'. unfold loadVideoResults.
  destruct (results w !! l); [by intros [= _ <-] | done].
Qed.

Lemma preserves_storeVideoResults l r : preserves samePlaylists (storeVideoResults l r).
Proof. apply preserves_caches. by intros w a w' [= _ <-]. Qed.

Lemma preserves_newVideoResults r : preserves samePlaylists (newVideoResults r).
Proof. apply preserves_caches. by intros w a w' [= _ <-]. Qed.

Lemma preserves_http_Get U url : preserves samePlaylists (http_Get U url).
Proof. apply preserves_caches. by intros w a w' [= _ <-]. Qed.

Lemma preserves_Once_Do key cache : preserves samePlaylists (Once_Do key cache).
Proof.
  apply preserves_caches. intros w a w'. unfold Once_Do.
  destruct (onceDone w); by intros [= _ <-].
Qed.

Lemma preserves_newMemoryCache : preserves samePlaylists newMemoryCache.
Proof.
  intros w a w' [= _ <-] ref. unfold playlistOf. cbn.
  destruct (decide (ref < length (caches w))%nat) as [Hlt|Hge].
  - by rewrite lookup_app_l.
  - rewrite (lookup_ge_None_2 (caches w)) by lia.
    rewrite lookup_app_r by lia.
    by destruct (ref - length (caches w))%nat as [|[|n]].
Qed.

(** A cache method that keeps the playlist map keeps the playlists. *)
Lemma preserves_onCache {A} (ref : nat) (m : St MemoryCache A) :
  (forall c a c', m c = Ret a c' -> playlistCache c' = playlistCache c) ->
  preserves samePlaylists (onCache ref m).
Proof.
  intros Hm w a w' H. apply onCache_Ret in H as (c & c' & Hc & Hrun & ->).
  intros ref'. unfold playlistOf. cbn.
  destruct (decide (ref' = ref)) as [->|Hne].
  - rewrite list_lookup_insert_eq by (by eapply lookup_lt_Some).
    rewrite Hc. by eapply Hm.
  - by rewrite list_lookup_insert_ne.
Qed.

Lemma preserves_Cache_Get yt key :
  preserves samePlaylists (Cache_GetVideo yt key) /\
  preserves samePlaylists (Cache_GetChannel yt key) /\
  preserves samePlaylists (Cache_GetPlaylist yt key) /\
  preserves samePlaylists (Cache_GetVideoDetail yt key).
Proof.
  repeat split; apply preserves_onCache; intros c a c' H;
    (apply read_Ret in H; [by destruct H as (_ & _ & ->) | done]).
Qed.

Lemma preserves_Cache_Set yt key :
  (forall v, preserves samePlaylists (Cache_SetVideo yt key v)) /\
  (forall v, preserves samePlaylists (Cache_SetChannel yt key v)) /\
  (forall v, preserves samePlaylists (Cache_SetVideoDetail yt key v)).
Proof.
  repeat split; intros v; apply preserves_onCache; intros c [] c' H;
    (apply write_Ret in H; [by destruct H as (_ & ->) | done]).
Qed.


#[local] Hint Resolve preserves_loadVideo preserves_storeVideo preserves_newVideo
  preserves_loadVideoResults preserves_storeVideoResults preserves_newVideoResults
  preserves_http_Get preserves_Once_Do preserves_newMemoryCache : preserve.

Ltac preserve_step :=
  lazymatch goal with
  | |- preserves _ (bind _ _) => apply (preserves_bind _ samePlaylists_trans); [|intros ?]
  | |- preserves _ (ret _) => apply (preserves_ret _ samePlaylists_refl)
  | |- preserves _ panic => apply preserves_panic
  | |- preserves _ diverge => apply preserves_diverge
  | |- preserves _ get => apply (preserves_get _ samePlaylists_refl)
  | |- preserves _ (deref _) => apply (preserves_deref _ samePlaylists_refl)
  | |- preserves _ (Cache_GetVideo _ _) => apply preserves_Cache_Get
  | |- preserves _ (Cache_GetChannel _ _) => apply preserves_Cache_Get
  | |- preserves _ (Cache_GetPlaylist _ _) => apply preserves_Cache_Get
  | |- preserves _ (Cache_GetVideoDetail _ _) => apply preserves_Cache_Get
  | |- preserves _ (Cache_SetVideo _ _ _) => apply preserves_Cache_Set
  | |- preserves _ (Cache_SetChannel _ _ _) => apply preserves_Cache_Set
  | |- preserves _ (Cache_SetVideoDetail _ _ _) => apply preserves_Cache_Set
  | |- preserves _ (match ?x with _ => _ end) => destruct x
  | |- preserves _ (let '(_, _) := ?x in _) => destruct x
  | |- preserves _ (if ?x then _ else _) => destruct x
  | |- _ => solve [eauto with preserve]
  end.

Ltac preserve := repeat preserve_step.

Section ServicePreserves.

Variable U : Upstream.
Variable gi : M YoutubeApi.
Hypothesis Hgi : preserves samePlaylists gi.

Lemma preserves_newVideos items : preserves samePlaylists (newVideos items).
Proof. induction items as [|[v|] items IH]; cbn [newVideos]; preserve. Qed.

Lemma preserves_unmarshalResponse body :
  preserves samePlaylists (unmarshalResponse U body).
Proof. pose proof preserves_newVideos. unfold unmarshalResponse. preserve. Qed.

Lemma preserves_httpGetRequest url : preserves samePlaylists (httpGetRequest U url).
Proof. unfold httpGetRequest. preserve. Qed.

Lemma preserves_appendItems fp items : preserves samePlaylists (appendItems fp items).
Proof. unfold appendItems. preserve. Qed.

Lemma preserves_GetVideos_pages fp fSearch remaining :
  forall i nextPage,
    preserves samePlaylists (GetVideos_pages U gi fp fSearch remaining i nextPage).
Proof.
  pose proof preserves_unmarshalResponse. pose proof preserves_httpGetRequest.
  pose proof preserves_appendItems.
  induction remaining as [|remaining IH]; intros i nextPage; cbn [GetVideos_pages]; preserve.
Qed.

Lemma preserves_GetVideos_batches fp bound input :
  preserves samePlaylists (GetVideos_batches U gi fp bound input).
Proof.
  pose proof preserves_GetVideos_pages.
  induction input as [|fSearch input IH]; cbn [GetVideos_batches]; preserve.
Qed.

Lemma preserves_GetVideos yt videoIds :
  preserves samePlaylists (GetVideos U gi yt videoIds).
Proof. pose proof preserves_GetVideos_batches. unfold GetVideos. preserve. Qed.

Lemma preserves_FindTags_pages yt fSearch remaining :
  forall i nextPage vids vidIds,
    preserves samePlaylists (FindTags_pages U yt fSearch remaining i nextPage vids vidIds).
Proof.
  induction remaining as [|remaining IH]; intros i nextPage vids vidIds;
    cbn [FindTags_pages]; preserve.
Qed.

Lemma preserves_FindTags_filter vidIds items :
  forall filtered, preserves samePlaylists (FindTags_filter vidIds items filtered).
Proof.
  induction items as [|item items IH]; intros filtered; cbn [FindTags_filter]; preserve.
Qed.

Lemma preserves_FindTags yt input numPages :
  preserves samePlaylists (FindTags U gi yt input numPages).
Proof.
  pose proof preserves_GetVideos. pose proof preserves_FindTags_pages.
  pose proof preserves_FindTags_filter. unfold FindTags. preserve.
Qed.

Lemma preserves_SearchAndRetrieveTags yt search pages :
  preserves samePlaylists (SearchAndRetrieveTags U gi yt search pages).
Proof. pose proof preserves_FindTags. unfold SearchAndRetrieveTags. preserve. Qed.

Lemma preserves_generatePageUrl playlistId nextPage pageNum :
  preserves samePlaylists (generatePageUrl gi playlistId nextPage pageNum).
Proof. unfold generatePageUrl. preserve. Qed.

Lemma preserves_fetchVideoResultsFromAPI url :
  preserves samePlaylists (fetchVideoResultsFromAPI U url).
Proof. unfold fetchVideoResultsFromAPI. preserve. Qed.

Lemma preserves_fetchPlaylistVideos_pages playlistId remaining :
  forall i nextPage vids thumbnails,
    preserves samePlaylists
      (fetchPlaylistVideos_pages U gi playlistId remaining i nextPage vids thumbnails).
Proof.
  pose proof preserves_generatePageUrl. pose proof preserves_fetchVideoResultsFromAPI.
  induction remaining as [|remaining IH]; intros i nextPage vids thumbnails;
    cbn [fetchPlaylistVideos_pages]; preserve.
Qed.

Lemma preserves_processVideoItems_loop thumbnails items :
  preserves samePlaylists (processVideoItems_loop thumbnails items).
Proof. induction items as [|item items IH]; cbn [processVideoItems_loop]; preserve. Qed.

Lemma preserves_getChannelPlaylist yt playlistId numItems :
  preserves samePlaylists (getChannelPlaylist U gi yt playlistId numItems).
Proof.
  pose proof preserves_fetchPlaylistVideos_pages. pose proof preserves_GetVideos.
  pose proof preserves_processVideoItems_loop.
  unfold getChannelPlaylist, fetchPlaylistVideos, processVideoItems. preserve.
Qed.

End ServicePreserves.

(** The shared instance, to any depth, leaves the playlist partitions alone. *)
Lemma preserves_GetInstance U fuel : preserves samePlaylists (GetInstance U fuel).
Proof.
  induction fuel as [|fuel IH]; cbn [GetInstance]; [apply preserves_diverge|].
  pose proof (preserves_SearchAndRetrieveTags U _ IH). preserve.
Qed.


Lemma Cache_SetPlaylist_Ret yt key v w u w' :
  Cache_SetPlaylist yt key v w = Ret u w' ->
  playlistOf w' (Cache yt) = <[key := v]> (playlistOf w (Cache yt)) /\
  forall ref, ref <> Cache yt -> playlistOf w' ref = playlistOf w ref.
Proof.
  intros H. apply onCache_Ret in H as (c & c' & Hc & H & ->). destruct u.
  apply write_Ret in H; [|done]. destruct H as (Hmu & ->).
  unfold playlistOf. cbn. split.
  - rewrite list_lookup_insert_eq by (by eapply lookup_lt_Some). by rewrite Hc.
  - intros ref Hne. by rewrite list_lookup_insert_ne.
Qed.

Lemma cached_playlistOf yt key p w :
  cached yt PlaylistPartition key (ResultSet p) w ->
  index (playlistOf w (Cache yt)) key = p.
Proof. intros (c & Hc & _ & H). unfold playlistOf. rewrite Hc. cbn in H. congruence. Qed.

Lemma index_Some {V} (m : gmap string (option V)) key v :
  index m key = Some v -> m !! key = Some (Some v).
Proof. unfold index. destruct (m !! key) as [[?|]|]; cbn; congruence. Qed.

Lemma Cache_SetPlaylist_runs yt key v w :
  cacheReady yt w ->
  exists w', Cache_SetPlaylist yt key v w = Ret tt w' /\
             cached yt PlaylistPartition key (ResultSet v) w'.
Proof.
  intros (c & Hc & Hmu).
  assert (Hrun : exists w', Cache_SetPlaylist yt key v w = Ret tt w').
  { unfold Cache_SetPlaylist, onCache. rewrite Hc.
    unfold MemoryCache.SetPlaylist, bind, MemoryCache.Lock, MemoryCache.Unlock, get, put.
    rewrite Hmu. cbn. eauto. }
  destruct Hrun as (w' & Hrun). exists w'. split; [done|].
  by eapply Cache_SetPlaylist_cached.
Qed.

(** Without uploads playlist, a miss stores nil under the key and returns
    the error; the entry then reads as nil, like before. *)
Lemma GetChannelPlaylist_stores_nil U gi yt item vidCount w :
  uploadsOf item = None ->
  cached yt PlaylistPartition (playlistCacheKey item vidCount) (ResultSet None) w ->
  exists w',
    GetChannelPlaylist U gi yt (Some item) vidCount w
    = Ret (None, Some (errorString "contentDetails or RelatedPlaylists are nil")) w' /\
    playlistOf w' (Cache yt) !! playlistCacheKey item vidCount = Some None /\
    cached yt PlaylistPartition (playlistCacheKey item vidCount) (ResultSet None) w'.
Proof.
  intros Huploads Hc.
  destruct (Cache_SetPlaylist_runs yt (playlistCacheKey item vidCount) None w)
    as (w' & Hset & Hc'); [by eapply cached_ready|].
  exists w'. split; [|split; [|done]].
  - unfold GetChannelPlaylist. cbn [deref]. rewrite bind_ret_l.
    erewrite bind_eq by (apply Cache_GetPlaylist_Ret; eauto). cbv beta iota.
    rewrite Huploads. by erewrite bind_eq by exact Hset.
  - apply Cache_SetPlaylist_Ret in Hset as [-> _]. apply lookup_insert_eq.
Qed.

(** C9 fails on the code.  For a channel item without content details
    [GetChannelPlaylist] stores nil under the item's key and returns an
    error; but a nil entry reads like a missing one, so the failure is not
    cached: in the state the call leaves, the probe of the key finds nil
    again, and the next call with the same key runs the miss path.  In the
    run below that next call goes upstream twice and returns a result. *)
Theorem GetChannelPlaylist_nil_marker_is_a_miss :
  (forall U gi yt item vidCount w,
     uploadsOf item = None ->
     cached yt PlaylistPartition (playlistCacheKey item vidCount) (ResultSet None) w ->
     exists w',
       GetChannelPlaylist U gi yt (Some item) vidCount w
       = Ret (None, Some (errorString "contentDetails or RelatedPlaylists are nil")) w' /\
       playlistOf w' (Cache yt) !! playlistCacheKey item vidCount = Some None /\
       cached yt PlaylistPartition (playlistCacheKey item vidCount) (ResultSet None) w') /\
  returned Run.bare
  = Some (None, Some (errorString "contentDetails or RelatedPlaylists are nil")) /\
  playlistOf (worldAfter Run.bare Script.started) 0 !! "UC-alai-5" = Some None /\
  requests (worldAfter Run.bare Script.started) = [] /\
  returned (Cache_GetPlaylist Script.yt "UC-alai-5" (worldAfter Run.bare Script.started))
  = Some None /\
  playlistCacheKey Script.channel 5 = playlistCacheKey Script.bareChannel 5 /\
  returned Run.afterBare = Some (Some 1%nat, None) /\
  length (requests (worldAfter Run.afterBare Script.started)) = 2%nat.
Proof.
  split; [intros *; apply GetChannelPlaylist_stores_nil|]. by vm_compute.
Qed.

(** C5, as the code has it: [GetChannelPlaylist] probes and fills the
    playlist partition under the key made of the channel item's own
    identifier, "-" and the decimal count.  A non-nil entry under that key
    is the answer; a call for an item without uploads playlist that misses
    returns its error and leaves nil under that key; a call that returns
    without error leaves the result it returns under that key; and whatever
    a call that returns has done, no other key of the partition, and no
    playlist partition of another cache object, has changed. *)
Theorem GetChannelPlaylist_cache_key (U : Upstream) (fuel : nat) (yt : YoutubeApi)
    (item : Item) (vidCount : Z) (w : World) :
  playlistCacheKey item vidCount = Item_Id item +:+ "-" +:+ strconv.Itoa vidCount /\
  (forall gi p,
     cached yt PlaylistPartition (playlistCacheKey item vidCount) (ResultSet (Some p)) w ->
     GetChannelPlaylist U gi yt (Some item) vidCount w = Ret (Some p, None) w) /\
  (forall gi,
     uploadsOf item = None ->
     cached yt PlaylistPartition (playlistCacheKey item vidCount) (ResultSet None) w ->
     exists w',
       GetChannelPlaylist U gi yt (Some item) vidCount w
       = Ret (None, Some (errorString "contentDetails or RelatedPlaylists are nil")) w' /\
       playlistOf w' (Cache yt) !! playlistCacheKey item vidCount = Some None) /\
  (forall r err w',
     GetChannelPlaylist U (GetInstance U fuel) yt (Some item) vidCount w = Ret (r, err) w' ->
     (err = None ->
      is_Some r /\ playlistOf w' (Cache yt) !! playlistCacheKey item vidCount = Some r) /\
     (forall ref k, ref <> Cache yt \/ k <> playlistCacheKey item vidCount ->
      playlistOf w' ref !! k = playlistOf w ref !! k)).
Proof.
  split; [reflexivity|]. split.
  { intros gi p Hc.
    pose proof (call_hit U yt gi (OpGetChannelPlaylist item vidCount)
                  (ResultSet (Some p)) w eq_refl Hc) as H.
    cbn [call] in H. inv_step H. destruct a as [r e]. cbn in *. congruence. }
  split.
  { intros gi Huploads Hc.
    destruct (GetChannelPlaylist_stores_nil U gi yt item vidCount w Huploads Hc)
      as (w' & Hrun & Hkey & _). eauto. }
  intros r err w' H. unfold GetChannelPlaylist in H. cbn [deref] in H.
  rewrite bind_ret_l in H. inv_step H.
  apply Cache_GetPlaylist_Ret in E as [-> Hc]. apply cached_playlistOf in Hc.
  inv_step H.
  - (* a hit *)
    split; [intros _; split; [by eauto | by apply index_Some] | done].
  - (* a miss *)
    destruct (uploadsOf item) as [uploads|] eqn:Huploads.
    + inv_step H.
      pose proof (preserves_getChannelPlaylist U _ (preserves_GetInstance U fuel)
                    _ _ _ _ _ _ E) as Hframe.
      repeat (inv_step H; try discriminate);
        try (split; [done|]; intros ref k _; by rewrite Hframe).
      apply Cache_SetPlaylist_Ret in E0 as [Hkey Hother].
      split; [intros _; split; [by eauto | by rewrite Hkey, lookup_insert_eq]|].
      intros ref k [Href|Hk].
      * by rewrite Hother, Hframe.
      * destruct (decide (ref = Cache yt)) as [->|Href]; [|by rewrite Hother, Hframe].
        by rewrite Hkey, lookup_insert_ne, Hframe.
    + inv_step H. apply Cache_SetPlaylist_Ret in E as [Hkey Hother].
      split; [done|].
      intros ref k [Href|Hk].
      * by rewrite Hother.
      * destruct (decide (ref = Cache yt)) as [->|Href]; [|by rewrite Hother].
        by rewrite Hkey, lookup_insert_ne.
Qed.

(** C5, on the channel "UC-alai" and five videos: the call leaves its
    result under "UC-alai-5". *)
Lemma GetChannelPlaylist_cache_key_witness :
  playlistCacheKey Script.channel 5 = "UC-alai-5" /\
  Run.playlist = Ret (Some 1%nat, None) (worldAfter Run.playlist Script.started) /\
  playlistOf (worldAfter Run.playlist Script.started) 0 !! "UC-alai-5" = Some (Some 1%nat) /\
  playlistOf (worldAfter Run.playlist Script.started) 0 !! "UC-other-5"
  = playlistOf Script.started 0 !! "UC-other-5".
Proof.
  assert (Hrun : Run.playlist = Ret (Some 1%nat, None) (worldAfter Run.playlist Script.started))
    by (by vm_compute).
  destruct (GetChannelPlaylist_cache_key Script.uploads 1 Script.yt Script.channel 5
              Script.started) as (_ & _ & _ & Hwrite).
  destruct (Hwrite _ _ _ Hrun) as (Hkey & Hframe).
  destruct (Hkey eq_refl) as [_ Hkey'].
  split; [reflexivity|]. split; [exact Hrun|]. split; [exact Hkey'|].
  apply Hframe. right. discriminate.
Defined.


(** ** Errors of page fetches *)

Section PageErrors.

Variable U : Upstream.
Variable gi : M YoutubeApi.
Variable yt : YoutubeApi.


Lemma FindTags_pages_fetch_error fSearch remaining i nextPage vids vidIds w err :
  fetchError U (json_TagSearchResults U) w
    (Sprintf_SearchVideoIds fSearch (apiKey yt) (pageTokenParam i nextPage)) = Some err ->
  FindTags_pages U yt fSearch (S remaining) i nextPage vids vidIds w
  = Ret (vids, vidIds, Some err)
      (logged (Sprintf_SearchVideoIds fSearch (apiKey yt) (pageTokenParam i nextPage)) w).
Proof.
  unfold fetchError. intros H. cbn [FindTags_pages]. unfold bind, http_Get.
  destruct (transport U (requests w) _) as [e|e|body]; [by injection H as -> ..|].
  destruct (json_TagSearchResults U body) as [e|res]; [by injection H as ->|done].
Qed.

Lemma FindTags_search_error input numPages w w1 vids vidIds err w2 :
  Cache_GetVideo yt input w = Ret None w1 ->
  FindTags_pages U yt (strings.ReplaceSpaces input "%20%") (Z.to_nat numPages)
    0 EmptyString [] ∅ w1 = Ret (vids, vidIds, Some err) w2 ->
  FindTags U gi yt input numPages w = Ret (None, Some err) w2.
Proof.
  intros Hmiss Hpages. unfold FindTags.
  rewrite (bind_eq _ _ _ _ _ Hmiss). cbv beta iota.
  by rewrite (bind_eq _ _ _ _ _ Hpages).
Qed.










End PageErrors.




(** * Further properties of the code *)

(** ** Page counts *)

Lemma calculateNumPages_nonneg (numItems : Z) :
  0 <= numItems -> calculateNumPages numItems = (numItems + 49) / 50.
Proof.
  intros H. unfold calculateNumPages.
  rewrite Z.quot_div_nonneg, Z.rem_mod_nonneg by lia.
  pose proof (Z.div_mod numItems 50 ltac:(lia)) as Hdm.
  pose proof (Z.mod_pos_bound numItems 50 ltac:(lia)) as Hb.
  destruct (Z.ltb_spec 0 (numItems mod 50)) as [Hpos|Hzero].
  - apply (Z.div_unique _ _ _ (numItems mod 50 - 1)); lia.
  - apply (Z.div_unique _ _ _ 49); lia.
Qed.

(** X1: the page count of a playlist is the least number of pages of fifty
    that hold the items; a count of zero or less asks for no page. *)
Theorem calculateNumPages_ceiling (numItems : Z) :
  (0 <= numItems ->
     calculateNumPages numItems = (numItems + 49) / 50 /\
     50 * (calculateNumPages numItems - 1) < numItems <= 50 * calculateNumPages numItems) /\
  (numItems <= 0 ->
     calculateNumPages numItems <= 0 /\ Z.to_nat (calculateNumPages numItems) = 0%nat).
Proof.
  split.
  - intros H. split; [by apply calculateNumPages_nonneg|].
    rewrite calculateNumPages_nonneg by done.
    pose proof (Z.div_mod (numItems + 49) 50 ltac:(lia)) as Hdm.
    pose proof (Z.mod_pos_bound (numItems + 49) 50 ltac:(lia)) as Hb. lia.
  - intros H. assert (calculateNumPages numItems <= 0); [|lia].
    unfold calculateNumPages.
    pose proof (Z.rem_nonpos numItems 50 ltac:(lia) H) as Hrem.
    destruct (Z.ltb_spec 0 (Z.rem numItems 50)) as [Hpos|_]; [lia|].
    pose proof (Z.quot_rem' numItems 50) as Hqr.
    pose proof (Z.rem_bound_abs numItems 50 ltac:(lia)) as Hb.
    destruct (Z.le_gt_cases (Z.quot numItems 50) 0); [done|]. lia.
Qed.

Lemma calculateNumPages_ceiling_witness :
  calculateNumPages 120 = 3 /\ Z.to_nat (calculateNumPages (-7)) = 0%nat.
Proof.
  split.
  - exact (proj1 (proj1 (calculateNumPages_ceiling 120) ltac:(lia))).
  - exact (proj2 (proj2 (calculateNumPages_ceiling (-7)) ltac:(lia))).
Defined.

(** ** Decimal numerals: [strconv.Itoa] and [strconv.Atoi] *)

Section Numerals.

Import strconv.

Lemma digit_of_N (d : N) :
  (d < 10)%N -> digit (ascii_of_N (48 + d)) = Some (Z.of_N d).
Proof.
  intros H. unfold digit. rewrite N_ascii_embedding by lia.
  destruct (Z.leb_spec 48 (Z.of_N (48 + d))); [|lia].
  destruct (Z.leb_spec (Z.of_N (48 + d)) 57); [|lia].
  cbn. f_equal. lia.
Qed.

(** Read back, the digits [formatBits] puts in front of [acc] continue the
    number they stand for. *)
Lemma digits_formatBits (fuel : nat) :
  forall (n : N) (acc : string),
    (n < 2 ^ N.of_nat fuel)%N ->
    digits (formatBits fuel n acc) 0 = digits acc (Z.of_N n).
Proof.
  induction fuel as [|fuel IH]; intros n acc Hn.
  - cbn in Hn. assert (n = 0%N) as -> by lia. reflexivity.
  - cbn [formatBits].
    assert (Hd : (n mod 10 < 10)%N) by (apply N.mod_lt; lia).
    assert (Hstep : forall a, digits (String (ascii_of_N (48 + n mod 10)) acc) a
                              = digits acc (a * 10 + Z.of_N (n mod 10))).
    { intros a. cbn [digits]. by rewrite digit_of_N. }
    destruct (N.ltb_spec n 10) as [Hlt|Hge].
    + rewrite Hstep. f_equal. rewrite N.mod_small by done. lia.
    + rewrite IH.
      * rewrite Hstep. f_equal.
        pose proof (N.div_mod n 10 ltac:(lia)) as Hdm. lia.
      * rewrite Nat2N.inj_succ, N.pow_succ_r' in Hn.
        apply N.Div0.div_lt_upper_bound. lia.
Qed.

Lemma size_nat_bound (p : positive) : (Npos p < 2 ^ N.of_nat (Pos.size_nat p))%N.
Proof.
  induction p as [p IH|p IH|]; cbn [Pos.size_nat];
    rewrite ?Nat2N.inj_succ, ?N.pow_succ_r'; lia.
Qed.

Lemma digits_Itoa_pos (p : positive) :
  digits (formatBits (Pos.size_nat p) (Npos p) EmptyString) 0 = Some (Zpos p).
Proof. rewrite digits_formatBits by apply size_nat_bound. reflexivity. Qed.

(** The numeral of a number that is not negative is made of digits and
    reads back as the number. *)
Lemma digits_Itoa (n : Z) : 0 <= n -> digits (Itoa n) 0 = Some n.
Proof.
  destruct n as [|p|p]; [reflexivity | intros _; apply digits_Itoa_pos | lia].
Qed.

Lemma formatBits_nonempty (p : positive) :
  exists c r, formatBits (Pos.size_nat p) (Npos p) EmptyString = String c r.
Proof.
  destruct (formatBits (Pos.size_nat p) (Npos p) EmptyString) as [|c r] eqn:E; [|by eauto].
  pose proof (digits_Itoa_pos p) as H. rewrite E in H. discriminate.
Qed.

(** A numeral that starts with a digit carries no sign. *)
Lemma Atoi_unsigned (c : ascii) (r : string) (d : Z) :
  digit c = Some d ->
  Atoi (String c r)
  = match digits (String c r) 0 with
    | None => (0, Some (NumError "Atoi" (String c r) ErrSyntax))
    | Some v =>
        if v <? minInt then (minInt, Some (NumError "Atoi" (String c r) ErrRange))
        else if maxInt <? v then (maxInt, Some (NumError "Atoi" (String c r) ErrRange))
        else (v, None)
    end.
Proof.
  intros Hd.
  destruct c as [[] [] [] [] [] [] [] []]; try (vm_compute in Hd; discriminate Hd);
    reflexivity.
Qed.

Lemma Atoi_Itoa (n : Z) : minInt <= n <= maxInt -> Atoi (Itoa n) = (n, None).
Proof.
  intros Hn. destruct n as [|p|p].
  - reflexivity.
  - cbn [Itoa]. destruct (formatBits_nonempty p) as (c & r & E).
    pose proof (digits_Itoa_pos p) as Hdig. rewrite E in Hdig |- *.
    assert (Hc : exists d, digit c = Some d).
    { cbn [digits] in Hdig. destruct (digit c); [by eauto | discriminate]. }
    destruct Hc as [d Hc]. rewrite (Atoi_unsigned _ _ _ Hc), Hdig.
    destruct (Z.ltb_spec (Z.pos p) minInt); [lia|].
    destruct (Z.ltb_spec maxInt (Z.pos p)); [lia|]. reflexivity.
  - cbn [Itoa]. destruct (formatBits_nonempty p) as (c & r & E).
    pose proof (digits_Itoa_pos p) as Hdig. rewrite E in Hdig |- *.
    unfold Atoi. rewrite Hdig.
    change (- Z.pos p) with (Z.neg p).
    destruct (Z.ltb_spec (Z.neg p) minInt); [lia|].
    destruct (Z.ltb_spec maxInt (Z.neg p)); [lia|]. reflexivity.
Qed.

(** No numeral holds a minus sign after its first character. *)
Lemma digits_no_dash (s t : string) (a : Z) : digits (s +:+ String "-" t) a = None.
Proof.
  revert a. induction s as [|c s IH]; intros a; [reflexivity|].
  change (String c s +:+ String "-" t) with (String c (s +:+ String "-" t)).
  cbn [digits]. destruct (digit c); [apply IH | reflexivity].
Qed.

End Numerals.

(** The last "-" of a key separates the identifier from the numeral. *)
Lemma key_split (s1 s2 d1 d2 : string) :
  is_Some (strconv.digits d1 0) -> is_Some (strconv.digits d2 0) ->
  s1 +:+ "-" +:+ d1 = s2 +:+ "-" +:+ d2 -> s1 = s2 /\ d1 = d2.
Proof.
  intros [n1 H1] [n2 H2]. revert s2.
  induction s1 as [|c s1 IH]; intros [|c' s2] H;
    repeat match type of H with
    | context [String ?a ?s +:+ ?t] =>
        change (String a s +:+ t) with (String a (s +:+ t)) in H
    | context [EmptyString +:+ ?t] => change (EmptyString +:+ t) with t in H
    end.
  - by injection H as ->.
  - injection H as <- ->. by rewrite digits_no_dash in H1.
  - injection H as -> <-. by rewrite digits_no_dash in H2.
  - injection H as -> H. destruct (IH _ H) as [-> ->]. done.
Qed.

(** X2: two calls of [GetChannelPlaylist] with counts that are not negative
    share their cache key only if they name the same channel identifier and
    the same count; with a negative count the keys of different channels
    can coincide. *)
Theorem playlistCacheKey_injective :
  (forall (item item' : Item) (n n' : Z),
     0 <= n -> 0 <= n' ->
     cacheKeyOf (OpGetChannelPlaylist item n) = cacheKeyOf (OpGetChannelPlaylist item' n') ->
     Item_Id item = Item_Id item' /\ n = n') /\
  (exists item item',
     Item_Id item <> Item_Id item' /\
     cacheKeyOf (OpGetChannelPlaylist item 1) = cacheKeyOf (OpGetChannelPlaylist item' (-1))).
Proof.
  split.
  - intros item item' n n' Hn Hn' [= H]. unfold playlistCacheKey in H.
    apply key_split in H as [Hid Hnum]; try (rewrite digits_Itoa by done; by eauto).
    split; [done|].
    pose proof (digits_Itoa n Hn) as E. rewrite Hnum, digits_Itoa in E by done.
    congruence.
  - exists {| Item_Id := "UC-"; Item_Snippet := None; Item_ContentDetails := None;
              Item_Statistics := None |},
           {| Item_Id := "UC"; Item_Snippet := None; Item_ContentDetails := None;
              Item_Statistics := None |}.
    split; [discriminate | reflexivity].
Qed.

(** ** The count of a channel's videos *)

(** X3: [GetVideoCount] returns the number whose decimal numeral the
    channel reports, for every number an [int] holds, and leaves the state
    as it is; for a count that is no numeral it returns zero and, in place
    of the parse error, "internal server error". *)
Theorem GetVideoCount_reads_the_numeral (item : Item) (st : ItemStatistics) (w : World) :
  Item_Statistics item = Some st ->
  (forall n, strconv.minInt <= n <= strconv.maxInt -> VideoCount st = strconv.Itoa n ->
     GetVideoCount (Some item) w = Ret (n, None) w) /\
  (parsedViews (VideoCount st) = None ->
     GetVideoCount (Some item) w = Ret (0, Some (errorString "internal server error")) w) /\
  (forall n err w', GetVideoCount (Some item) w = Ret (n, err) w' ->
     w' = w /\ (err = None -> parsedViews (VideoCount st) = Some n) /\
     (err <> None -> n = 0)).
Proof.
  intros Hst. unfold GetVideoCount. cbn [deref]. rewrite bind_ret_l, Hst.
  cbn [deref]. rewrite bind_ret_l. unfold parsedViews. split; [|split].
  - intros n Hn ->. by rewrite Atoi_Itoa.
  - destruct (strconv.Atoi (VideoCount st)) as [n [e|]]; done.
  - intros n err w'.
    destruct (strconv.Atoi (VideoCount st)) as [m [e|]]; intros [= <- <- <-]; done.
Qed.

Lemma GetVideoCount_reads_the_numeral_witness :
  GetVideoCount
    (Some {| Item_Id := "UC-alai"; Item_Snippet := None; Item_ContentDetails := None;
             Item_Statistics := Some {| Item_ViewCount := "0"; SubscriberCount := "0";
                                        HiddenSubscriberCount := false;
                                        VideoCount := "1234" |} |})
    Script.started
  = Ret (1234, None) Script.started.
Proof.
  refine (proj1 (GetVideoCount_reads_the_numeral
                   {| Item_Id := "UC-alai"; Item_Snippet := None; Item_ContentDetails := None;
                      Item_Statistics := Some {| Item_ViewCount := "0"; SubscriberCount := "0";
                                                 HiddenSubscriberCount := false;
                                                 VideoCount := "1234" |} |}
                   _ Script.started eq_refl) 1234 _ eq_refl).
  vm_compute. split; discriminate.
Defined.

(** ** The cache key of a look-up *)

(** X4: the key of [GetVideos] tells two identifier lists apart when both
    are non-empty and no identifier holds a comma; the empty list and the
    list of one empty identifier share a key, and so do a list and the list
    of its comma-joined identifiers. *)
Theorem GetVideos_key_injective :
  (forall ids ids' : list string,
     ids <> [] -> ids' <> [] ->
     Forall (fun id => strings.commaFree id = true) ids ->
     Forall (fun id => strings.commaFree id = true) ids' ->
     cacheKeyOf (OpGetVideos ids) = cacheKeyOf (OpGetVideos ids') -> ids = ids') /\
  cacheKeyOf (OpGetVideos []) = cacheKeyOf (OpGetVideos [EmptyString]) /\
  cacheKeyOf (OpGetVideos ["a"; "b"]) = cacheKeyOf (OpGetVideos ["a,b"]).
Proof.
  split; [|by split].
  intros ids ids' Hne Hne' Hfree Hfree' [= H].
  rewrite <- (SplitComma_Join ids), <- (SplitComma_Join ids') by done.
  by rewrite H.
Qed.

(** ** The batches, one by one *)

Lemma chunks_lookup (fuel : nat) :
  forall (l : list string) (j : nat),
    (length l <= fuel)%nat ->
    chunks fuel l !! j
    = if (j * 50 <? length l)%nat then Some (take 50 (drop (j * 50) l)) else None.
Proof.
  induction fuel as [|fuel IH]; intros l j Hl.
  - destruct l; [|simpl in Hl; lia]. cbn. by destruct (j * 50 <? 0)%nat eqn:E.
  - destruct l as [|x l']; [cbn; by destruct (j * 50 <? 0)%nat eqn:E|].
    cbn [chunks]. destruct j as [|j].
    + by cbn.
    + rewrite lookup_cons.
      rewrite IH by (rewrite length_drop; simpl in *; lia).
      rewrite length_drop, drop_drop.
      replace (50 + j * 50)%nat with (S j * 50)%nat by lia.
      destruct (Nat.ltb_spec (j * 50) (length (x :: l') - 50));
        destruct (Nat.ltb_spec (S j * 50) (length (x :: l'))); try lia; done.
Qed.

(** X5: batch number [j] (from zero) of [batchIteration] is the comma-join
    of the identifiers at positions 50j to 50j+49, as far as the input
    reaches, whatever the identifiers hold; there is no batch beyond the
    input, so no batch is empty. *)
Theorem batchIteration_slices (input : list string) (j : nat) :
  batchIteration input !! j
  = if (j * 50 <? length input)%nat
    then Some (strings.Join (take 50 (drop (j * 50) input)) ",")
    else None.
Proof.
  rewrite batchIteration_chunks_eq, list_lookup_fmap, chunks_lookup by done.
  by destruct (j * 50 <? length input)%nat.
Qed.

(** ** The search term *)

Section SearchTerm.

Import strings.

Lemma append_assoc (s t u : string) : (s +:+ t) +:+ u = s +:+ (t +:+ u).
Proof.
  induction s as [|c s IH]; [reflexivity|].
  change ((String c s +:+ t) +:+ u) with (String c ((s +:+ t) +:+ u)).
  by rewrite IH.
Qed.

Lemma ReplaceSpaces_app (s t new : string) :
  ReplaceSpaces (s +:+ t) new = ReplaceSpaces s new +:+ ReplaceSpaces t new.
Proof.
  induction s as [|c s IH]; [reflexivity|].
  change (String c s +:+ t) with (String c (s +:+ t)). cbn [ReplaceSpaces].
  rewrite IH. destruct (Ascii.eqb c " "); [|reflexivity].
  symmetry. apply append_assoc.
Qed.

Lemma list_ascii_of_string_app (s t : string) :
  list_ascii_of_string (s +:+ t) = list_ascii_of_string s ++ list_ascii_of_string t.
Proof.
  induction s as [|c s IH]; [reflexivity|].
  change (String c s +:+ t) with (String c (s +:+ t)). cbn. by rewrite IH.
Qed.

End SearchTerm.

(** X6: the search term [FindTags] puts into the URL holds no space: every
    space of the input has become the four characters "%20%", every other
    character is kept in place, and an input without space is unchanged. *)
Theorem ReplaceSpaces_escapes_every_space (input : string) :
  (" "%char ∉ list_ascii_of_string (strings.ReplaceSpaces input "%20%")) /\
  (" "%char ∉ list_ascii_of_string input -> strings.ReplaceSpaces input "%20%" = input) /\
  (forall s t, input = s +:+ " " +:+ t ->
     strings.ReplaceSpaces input "%20%"
     = strings.ReplaceSpaces s "%20%" +:+ "%20%" +:+ strings.ReplaceSpaces t "%20%").
Proof.
  split; [|split].
  - induction input as [|c s IH]; cbn [strings.ReplaceSpaces list_ascii_of_string].
    + apply not_elem_of_nil.
    + destruct (Ascii.eqb_spec c " ") as [->|Hc].
      * rewrite list_ascii_of_string_app. cbn.
        rewrite !not_elem_of_cons. repeat split; done.
      * cbn. rewrite not_elem_of_cons. split; [congruence | done].
  - induction input as [|c s IH]; [done|]. cbn [strings.ReplaceSpaces list_ascii_of_string].
    rewrite not_elem_of_cons. intros [Hc Hs].
    destruct (Ascii.eqb_spec c " ") as [->|_]; [done|]. by rewrite IH.
  - intros s t ->. by rewrite ReplaceSpaces_app.
Qed.

(** ** The page count of a search *)

(** X7: [SearchAndRetrieveTags] is [FindTags] with the first of the page
    counts it is given clamped to the range from one to five, and with one
    page when it is given none; the further counts are ignored.  Given a
    slice of counts that is not nil but empty, it panics on the index
    before any request is sent. *)
Theorem SearchAndRetrieveTags_clamps (U : Upstream) (gi : M YoutubeApi) (yt : YoutubeApi)
    (search : string) :
  SearchAndRetrieveTags U gi yt search None = FindTags U gi yt search 1 /\
  (forall w, SearchAndRetrieveTags U gi yt search (Some []) w = Panic) /\
  forall p rest,
    SearchAndRetrieveTags U gi yt search (Some (p :: rest))
    = FindTags U gi yt search (Z.max 1 (Z.min 5 p)) /\
    1 <= Z.max 1 (Z.min 5 p) <= 5 /\
    (1 <= p <= 5 -> Z.max 1 (Z.min 5 p) = p).
Proof.
  split; [reflexivity|]. split; [reflexivity|]. intros p rest. split; [|lia].
  cbn [SearchAndRetrieveTags]. f_equal.
  destruct (Z.ltb_spec 1 p); destruct (Z.leb_spec 5 p); lia.
Qed.



(** X9: on a cache whose mutex is free, in each partition a [Set] replaces
    what an earlier [Set] stored under the same key, the [Set]s of two
    different keys end in the same cache in either order, and so do the
    [Set]s of two different partitions. *)
Theorem MemoryCache_last_write_wins (c : MemoryCache) :
  mu c = false ->
  overwrite_laws MemoryCache.SetVideo c /\
  overwrite_laws MemoryCache.SetChannel c /\
  overwrite_laws MemoryCache.SetPlaylist c /\
  overwrite_laws MemoryCache.SetVideoDetail c /\
  forall (k k' : string) (v v' : option loc) (ch : option ChannelInfo),
    commute (MemoryCache.SetVideo k v) (MemoryCache.SetChannel k' ch) c /\
    commute (MemoryCache.SetVideo k v) (MemoryCache.SetPlaylist k' v') c /\
    commute (MemoryCache.SetVideo k v) (MemoryCache.SetVideoDetail k' v') c /\
    commute (MemoryCache.SetChannel k ch) (MemoryCache.SetPlaylist k' v') c /\
    commute (MemoryCache.SetChannel k ch) (MemoryCache.SetVideoDetail k' v') c /\
    commute (MemoryCache.SetPlaylist k v) (MemoryCache.SetVideoDetail k' v') c.
Proof.
  intros Hmu. destruct c as [vc cc pc dc m]. simpl in Hmu. subst m.
  unfold overwrite_laws, commute, MemoryCache.SetVideo, MemoryCache.SetChannel,
    MemoryCache.SetPlaylist, MemoryCache.SetVideoDetail, bind, MemoryCache.Lock,
    MemoryCache.Unlock, get, put.
  cbn.
  repeat split; try (eexists; split; reflexivity).
  all: try (eexists; split; [reflexivity|]; by rewrite insert_insert_eq).
  all: intros Hne; eexists; split; [reflexivity|];
    by rewrite (insert_insert_ne _ k k').
Qed.

Lemma MemoryCache_last_write_wins_witness :
  exists c',
    (MemoryCache.SetVideo "cats" (Some 1%nat) ;;; MemoryCache.SetVideo "cats" (Some 2%nat))
      NewMemoryCache = Ret tt c' /\
    MemoryCache.SetVideo "cats" (Some 2%nat) NewMemoryCache = Ret tt c'.
Proof.
  destruct (MemoryCache_last_write_wins NewMemoryCache eq_refl) as (H & _).
  exact (proj1 (H "cats" "cats" (Some 1%nat) (Some 2%nat))).
Defined.

Lemma bind_Diverge {S A B} (m : St S A) (k : A -> St S B) (s : S) :
  m s = Diverge -> bind m k s = Diverge.
Proof. unfold bind. by intros ->. Qed.

(** X10: while the mutex of the service's cache is held, none of the four
    cached operations returns: each starts with a [Get] on the cache and
    waits there. *)
Theorem held_mutex_blocks_the_service (U : Upstream) (gi : M YoutubeApi) (yt : YoutubeApi)
    (op : Operation) (c : MemoryCache) (w : World) :
  caches w !! Cache yt = Some c -> mu c = true ->
  call U gi yt op w = Diverge.
Proof.
  intros Hc Hmu.
  assert (Hget : forall A (m : St MemoryCache A),
            m c = Diverge -> onCache (Cache yt) m w = Diverge).
  { intros A m H. unfold onCache. by rewrite Hc, H. }
  destruct op; cbn [call]; apply bind_Diverge.
  - apply bind_Diverge, Hget. unfold MemoryCache.GetVideo, bind, MemoryCache.Lock.
    by rewrite Hmu.
  - apply bind_Diverge, Hget. unfold MemoryCache.GetVideoDetail, bind, MemoryCache.Lock.
    by rewrite Hmu.
  - apply bind_Diverge, Hget. unfold MemoryCache.GetChannel, bind, MemoryCache.Lock.
    by rewrite Hmu.
  - unfold GetChannelPlaylist. cbn [deref]. rewrite bind_ret_l.
    apply bind_Diverge, Hget. unfold MemoryCache.GetPlaylist, bind, MemoryCache.Lock.
    by rewrite Hmu.
Qed.

Lemma held_mutex_blocks_the_service_witness :
  call Script.singlePage (GetInstance Script.singlePage 1) Script.yt (OpGetVideos ["a"])
    (set_caches [MemoryCache.set_mu true NewMemoryCache] Script.started)
  = Diverge.
Proof.
  exact (held_mutex_blocks_the_service _ _ Script.yt _ (MemoryCache.set_mu true NewMemoryCache)
           (set_caches [MemoryCache.set_mu true NewMemoryCache] Script.started)
           eq_refl eq_refl).
Defined.

(** ** Frames of the service, for any relation *)

Section Frames.

Variable R : World -> World -> Prop.
Hypothesis HR : Frame R.
Hypothesis R_SetVideo : forall yt key v, preserves R (Cache_SetVideo yt key v).
Hypothesis R_SetChannel : forall yt key v, preserves R (Cache_SetChannel yt key v).
Hypothesis R_SetPlaylist : forall yt key v, preserves R (Cache_SetPlaylist yt key v).
Hypothesis R_SetVideoDetail : forall yt key v, preserves R (Cache_SetVideoDetail yt key v).

Lemma frame_loadVideo l : preserves R (loadVideo l).
Proof.
  intros w a w'. unfold loadVideo.
  destruct (videos w !! l); [intros [= _ <-]; apply HR | done].
Qed.

Lemma frame_loadVideoResults l : preserves R (loadVideoResults l).
Proof.
  intros w a w'. unfold loadVideoResults.
  destruct (results w !! l); [intros [= _ <-]; apply HR | done].
Qed.

Lemma frame_Cache_Get yt key :
  preserves R (Cache_GetVideo yt key) /\
  preserves R (Cache_GetChannel yt key) /\
  preserves R (Cache_GetPlaylist yt key) /\
  preserves R (Cache_GetVideoDetail yt key).
Proof.
  repeat split; intros w a w' H.
  - apply Cache_GetVideo_Ret in H as [-> _]. apply HR.
  - apply Cache_GetChannel_Ret in H as [-> _]. apply HR.
  - apply Cache_GetPlaylist_Ret in H as [-> _]. apply HR.
  - apply Cache_GetVideoDetail_Ret in H as [-> _]. apply HR.
Qed.

Ltac frame_step :=
  lazymatch goal with
  | |- preserves _ (bind _ _) => apply (preserves_bind _ (frame_trans _ HR)); [|intros ?]
  | |- preserves _ (ret _) => apply (preserves_ret _ (frame_refl _ HR))
  | |- preserves _ panic => apply preserves_panic
  | |- preserves _ diverge => apply preserves_diverge
  | |- preserves _ get => apply (preserves_get _ (frame_refl _ HR))
  | |- preserves _ (deref _) => apply (preserves_deref _ (frame_refl _ HR))
  | |- preserves _ (newVideo _) => apply (frame_newVideo _ HR)
  | |- preserves _ (storeVideo _ _) => apply (frame_storeVideo _ HR)
  | |- preserves _ (loadVideo _) => apply frame_loadVideo
  | |- preserves _ (newVideoResults _) => apply (frame_newVideoResults _ HR)
  | |- preserves _ (storeVideoResults _ _) => apply (frame_storeVideoResults _ HR)
  | |- preserves _ (loadVideoResults _) => apply frame_loadVideoResults
  | |- preserves _ (http_Get _ _) => apply (frame_http_Get _ HR)
  | |- preserves _ (Once_Do _ _) => apply (frame_Once_Do _ HR)
  | |- preserves _ newMemoryCache => apply (frame_newMemoryCache _ HR)
  | |- preserves _ (Cache_GetVideo _ _) => apply frame_Cache_Get
  | |- preserves _ (Cache_GetChannel _ _) => apply frame_Cache_Get
  | |- preserves _ (Cache_GetPlaylist _ _) => apply frame_Cache_Get
  | |- preserves _ (Cache_GetVideoDetail _ _) => apply frame_Cache_Get
  | |- preserves _ (Cache_SetVideo _ _ _) => apply R_SetVideo
  | |- preserves _ (Cache_SetChannel _ _ _) => apply R_SetChannel
  | |- preserves _ (Cache_SetPlaylist _ _ _) => apply R_SetPlaylist
  | |- preserves _ (Cache_SetVideoDetail _ _ _) => apply R_SetVideoDetail
  | |- preserves _ (match ?x with _ => _ end) => destruct x
  | |- preserves _ (let '(_, _) := ?x in _) => destruct x
  | |- preserves _ (if ?x then _ else _) => destruct x
  | |- _ => solve [eauto]
  end.

Ltac frame := repeat frame_step.

Section FramesOfService.

Variable U : Upstream.
Variable gi : M YoutubeApi.
Hypothesis Hgi : preserves R gi.

Lemma frame_newVideos items : preserves R (newVideos items).
Proof. induction items as [|[v|] items IH]; cbn [newVideos]; frame. Qed.

Lemma frame_unmarshalResponse body : preserves R (unmarshalResponse U body).
Proof. pose proof frame_newVideos. unfold unmarshalResponse. frame. Qed.

Lemma frame_httpGetRequest url : preserves R (httpGetRequest U url).
Proof. unfold httpGetRequest. frame. Qed.

Lemma frame_appendItems fp items : preserves R (appendItems fp items).
Proof. unfold appendItems. frame. Qed.

Lemma frame_GetVideos_pages fp fSearch remaining :
  forall i nextPage, preserves R (GetVideos_pages U gi fp fSearch remaining i nextPage).
Proof.
  pose proof frame_unmarshalResponse. pose proof frame_httpGetRequest.
  pose proof frame_appendItems.
  induction remaining as [|remaining IH]; intros i nextPage; cbn [GetVideos_pages]; frame.
Qed.

Lemma frame_GetVideos_batches fp bound input :
  preserves R (GetVideos_batches U gi fp bound input).
Proof.
  pose proof frame_GetVideos_pages.
  induction input as [|fSearch input IH]; cbn [GetVideos_batches]; frame.
Qed.

Lemma frame_GetVideos yt videoIds : preserves R (GetVideos U gi yt videoIds).
Proof. pose proof frame_GetVideos_batches. unfold GetVideos. frame. Qed.

Lemma frame_FindTags_pages yt fSearch remaining :
  forall i nextPage vids vidIds,
    preserves R (FindTags_pages U yt fSearch remaining i nextPage vids vidIds).
Proof.
  induction remaining as [|remaining IH]; intros i nextPage vids vidIds;
    cbn [FindTags_pages]; frame.
Qed.

Lemma frame_FindTags_filter vidIds items :
  forall filtered, preserves R (FindTags_filter vidIds items filtered).
Proof.
  induction items as [|item items IH]; intros filtered; cbn [FindTags_filter]; frame.
Qed.

Lemma frame_FindTags yt input numPages : preserves R (FindTags U gi yt input numPages).
Proof.
  pose proof frame_GetVideos. pose proof frame_FindTags_pages.
  pose proof frame_FindTags_filter. unfold FindTags. frame.
Qed.

Lemma frame_SearchAndRetrieveTags yt search pages :
  preserves R (SearchAndRetrieveTags U gi yt search pages).
Proof. pose proof frame_FindTags. unfold SearchAndRetrieveTags. frame. Qed.

Lemma frame_getChannelInfo channelId : preserves R (getChannelInfo U gi channelId).
Proof. unfold getChannelInfo. frame. Qed.

Lemma frame_GetChannelInfo yt channelId : preserves R (GetChannelInfo U gi yt channelId).
Proof. pose proof frame_getChannelInfo. unfold GetChannelInfo. frame. Qed.

Lemma frame_GetVideoCount item : preserves R (GetVideoCount item).
Proof. unfold GetVideoCount. frame. Qed.

Lemma frame_generatePageUrl playlistId nextPage pageNum :
  preserves R (generatePageUrl gi playlistId nextPage pageNum).
Proof. unfold generatePageUrl. frame. Qed.

Lemma frame_fetchVideoResultsFromAPI url : preserves R (fetchVideoResultsFromAPI U url).
Proof. unfold fetchVideoResultsFromAPI. frame. Qed.

Lemma frame_fetchPlaylistVideos_pages playlistId remaining :
  forall i nextPage vids thumbnails,
    preserves R (fetchPlaylistVideos_pages U gi playlistId remaining i nextPage vids thumbnails).
Proof.
  pose proof frame_generatePageUrl. pose proof frame_fetchVideoResultsFromAPI.
  induction remaining as [|remaining IH]; intros i nextPage vids thumbnails;
    cbn [fetchPlaylistVideos_pages]; frame.
Qed.

Lemma frame_processVideoItems_loop thumbnails items :
  preserves R (processVideoItems_loop thumbnails items).
Proof. induction items as [|item items IH]; cbn [processVideoItems_loop]; frame. Qed.

Lemma frame_getChannelPlaylist yt playlistId numItems :
  preserves R (getChannelPlaylist U gi yt playlistId numItems).
Proof.
  pose proof frame_fetchPlaylistVideos_pages. pose proof frame_GetVideos.
  pose proof frame_processVideoItems_loop.
  unfold getChannelPlaylist, fetchPlaylistVideos, processVideoItems. frame.
Qed.

Lemma frame_GetChannelPlaylist yt item vidCount :
  preserves R (GetChannelPlaylist U gi yt item vidCount).
Proof. pose proof frame_getChannelPlaylist. unfold GetChannelPlaylist. frame. Qed.

Lemma frame_call yt op : preserves R (call U gi yt op).
Proof.
  pose proof frame_FindTags. pose proof frame_GetVideos. pose proof frame_GetChannelInfo.
  pose proof frame_GetChannelPlaylist. destruct op; cbn [call]; frame.
Qed.

End FramesOfService.

(** The shared instance, to any depth. *)
Lemma frame_GetInstance U fuel : preserves R (GetInstance U fuel).
Proof.
  induction fuel as [|fuel IH]; cbn [GetInstance]; [apply preserves_diverge|].
  pose proof (frame_SearchAndRetrieveTags U _ IH). frame.
Qed.

Lemma frame_GetInstanceWith U fuel optionalParams :
  preserves R (GetInstanceWith U fuel optionalParams).
Proof.
  destruct fuel as [|fuel]; cbn [GetInstanceWith]; [apply preserves_diverge|].
  pose proof (frame_SearchAndRetrieveTags U _ (frame_GetInstance U fuel)). frame.
Qed.

End Frames.

(** ** The relations the service keeps *)

(** A relation that looks at the caches, the instance and the request log
    only is kept by every step on the heap. *)
Lemma Frame_intro (R : World -> World -> Prop) :
  (forall w, R w w) ->
  (forall w1 w2 w3, R w1 w2 -> R w2 w3 -> R w1 w3) ->
  (forall w w', caches w' = caches w -> onceDone w' = onceDone w ->
     ServiceInstance w' = ServiceInstance w -> requests w' = requests w -> R w w') ->
  (forall U url, preserves R (http_Get U url)) ->
  (forall key cache, preserves R (Once_Do key cache)) ->
  preserves R newMemoryCache ->
  Frame R.
Proof.
  intros Hrefl Htrans Hheap Hget Honce Hnew.
  split; try done; intros; intros w a w' [= _ <-]; by apply Hheap.
Qed.

(** A [Set] through the mutex, as a step of the state. *)
Lemma Cache_Set_Ret (R : World -> World -> Prop) (ref : nat)
    (upd : MemoryCache -> MemoryCache) :
  (forall c0, mu (upd c0) = mu c0) ->
  (forall w c, caches w !! ref = Some c -> mu c = false ->
     R w (set_caches (<[ref := MemoryCache.set_mu false (upd (MemoryCache.set_mu true c))]>
                        (caches w)) w)) ->
  preserves R (onCache ref (MemoryCache.Lock ;;; c0 <- get ;; put (upd c0) ;;; MemoryCache.Unlock)).
Proof.
  intros Hupd HR w [] w' H. apply onCache_Ret in H as (c & c' & Hc & H & ->).
  apply write_Ret in H as [Hmu ->]; [|done]. by apply HR.
Qed.

Ltac cache_sets :=
  intros; unfold Cache_SetVideo, Cache_SetChannel, Cache_SetPlaylist, Cache_SetVideoDetail,
    MemoryCache.SetVideo, MemoryCache.SetChannel, MemoryCache.SetPlaylist,
    MemoryCache.SetVideoDetail;
  apply Cache_Set_Ret; [done|].

(** *** The request log *)






(** *** The mutexes *)

Lemma keepsMutexesFree_same (w w' : World) : caches w' = caches w -> keepsMutexesFree w w'.
Proof. unfold keepsMutexesFree, mutexesFree. by intros ->. Qed.

Lemma keepsMutexesFree_Frame : Frame keepsMutexesFree.
Proof.
  apply Frame_intro.
  - intros w H. exact H.
  - intros w1 w2 w3 H1 H2 H. by apply H2, H1.
  - intros w w' H _ _ _. by apply keepsMutexesFree_same.
  - intros U url w a w' [= _ <-]. by apply keepsMutexesFree_same.
  - intros key cache w a w'. unfold Once_Do.
    destruct (onceDone w); intros [= _ <-]; by apply keepsMutexesFree_same.
  - intros w a w' [= _ <-] H. unfold mutexesFree in *. cbn.
    apply Forall_app. split; [done|]. by repeat constructor.
Qed.

Lemma keepsMutexesFree_Set :
  (forall yt key v, preserves keepsMutexesFree (Cache_SetVideo yt key v)) /\
  (forall yt key v, preserves keepsMutexesFree (Cache_SetChannel yt key v)) /\
  (forall yt key v, preserves keepsMutexesFree (Cache_SetPlaylist yt key v)) /\
  (forall yt key v, preserves keepsMutexesFree (Cache_SetVideoDetail yt key v)).
Proof.
  split_and!; cache_sets; intros w c Hc Hmu H; unfold mutexesFree in *; cbn;
    (apply Forall_insert; [done|reflexivity]).
Qed.

(** X12: if no mutex of a cache is held when one of the four cached
    operations or [GetInstance] starts, none is held when it returns:
    every lock the service takes on the way is released again, also in the
    caches that [GetInstance] creates. *)
Theorem mutexes_are_released (U : Upstream) (fuel : nat) :
  (forall yt op, preserves keepsMutexesFree (call U (GetInstance U fuel) yt op)) /\
  (forall optionalParams, preserves keepsMutexesFree (GetInstanceWith U fuel optionalParams)).
Proof.
  destruct keepsMutexesFree_Set as (HV & HC & HP & HD).
  split; intros.
  - apply frame_call; try done; [apply keepsMutexesFree_Frame|].
    by apply frame_GetInstance; [apply keepsMutexesFree_Frame|..].
  - by apply frame_GetInstanceWith; [apply keepsMutexesFree_Frame|..].
Qed.

Lemma mutexes_are_released_witness :
  mutexesFree Script.started /\ mutexesFree (worldAfter Run.playlist Script.started).
Proof.
  assert (H : mutexesFree Script.started) by (repeat constructor).
  split; [exact H|].
  refine (proj1 (mutexes_are_released Script.uploads 1) Script.yt
            (OpGetChannelPlaylist Script.channel 5) Script.started
            (ResultSet (Some 1%nat), None) _ _ H).
  by vm_compute.
Defined.

(** *** The instance *)

Lemma keepsInstance_same (w w' : World) :
  onceDone w' = onceDone w -> ServiceInstance w' = ServiceInstance w -> keepsInstance w w'.
Proof. intros H1 H2 H. by rewrite H1, H2. Qed.

Lemma keepsInstance_Frame : Frame keepsInstance.
Proof.
  apply Frame_intro.
  - intros w H. by split.
  - intros w1 w2 w3 H1 H2 H. destruct (H1 H) as [H1' E1].
    destruct (H2 H1') as [H2' E2]. split; [done|]. by rewrite E2.
  - intros w w' _ H1 H2 _. by apply keepsInstance_same.
  - intros U url w a w' [= _ <-]. by apply keepsInstance_same.
  - intros key cache w a w'. unfold Once_Do.
    destruct (onceDone w) eqn:E; intros [= _ <-]; [by apply keepsInstance_same|].
    intros H. congruence.
  - intros w a w' [= _ <-]. by apply keepsInstance_same.
Qed.

Lemma keepsInstance_Set :
  (forall yt key v, preserves keepsInstance (Cache_SetVideo yt key v)) /\
  (forall yt key v, preserves keepsInstance (Cache_SetChannel yt key v)) /\
  (forall yt key v, preserves keepsInstance (Cache_SetPlaylist yt key v)) /\
  (forall yt key v, preserves keepsInstance (Cache_SetVideoDetail yt key v)).
Proof. split_and!; cache_sets; intros; by apply keepsInstance_same. Qed.

Lemma keepsInstance_GetInstance U fuel : preserves keepsInstance (GetInstance U fuel).
Proof.
  destruct keepsInstance_Set as (HV & HC & HP & HD).
  by apply frame_GetInstance; [apply keepsInstance_Frame|..].
Qed.

(** X13: [GetInstance] is a singleton.  A call that returns leaves the
    instance it returns as the instance of the process.  If the instance
    existed before the call, that one is returned and stays, whatever key
    and cache the call was given; if not, the call creates it from the key
    and the cache of its first parameter map, with the empty key and a new
    cache when it has none. *)
Theorem GetInstance_is_a_singleton (U : Upstream) (fuel : nat)
    (optionalParams : list InstanceParams) (w w' : World) (inst : YoutubeApi) :
  GetInstanceWith U fuel optionalParams w = Ret inst w' ->
  onceDone w' = true /\ ServiceInstance w' = Some inst /\
  (onceDone w = true -> ServiceInstance w = Some inst) /\
  (onceDone w = false ->
     inst = match optionalParams with
            | [] => NewYoutubeApi EmptyString (length (caches w))
            | opt :: _ =>
                NewYoutubeApi (default EmptyString (opt_apiKey opt))
                  (default (length (caches w)) (opt_cache opt))
            end).
Proof.
  intros H. destruct fuel as [|fuel]; [discriminate|]. cbn [GetInstanceWith] in H.
  apply bind_Ret in H as (cache & w0 & E & H). injection E as <- <-.
  apply bind_Ret in H as (r & w1 & Eparams & H).
  apply bind_Ret in H as ([] & w2 & Eonce & H).
  apply bind_Ret in H as (wx & w3 & Eget & H). injection Eget as <- <-.
  apply bind_Ret in H as (i & w3 & Einst & H).
  destruct (ServiceInstance w2) as [y|] eqn:Hinst; [|discriminate].
  injection Einst as <- <-.
  apply bind_Ret in H as (tags & w4 & Esearch & H). injection H as <- <-.
  pose proof (frame_SearchAndRetrieveTags _ keepsInstance_Frame
                (proj1 keepsInstance_Set) (proj2 (proj2 (proj2 keepsInstance_Set)))
                U _ (keepsInstance_GetInstance U fuel) _ _ _ _ _ _ Esearch) as Hkeep.
  assert (Hparams :
    r = match optionalParams with
        | [] => (EmptyString, length (caches w))
        | opt :: _ => (default EmptyString (opt_apiKey opt),
                       default (length (caches w)) (opt_cache opt))
        end /\ w1 = set_caches (caches w ++ [NewMemoryCache]) w).
  { destruct optionalParams as [|opt rest]; [by injection Eparams as <- <-|].
    apply bind_Ret in Eparams as (key & w5 & Ekey & Eparams).
    destruct (opt_apiKey opt); [|discriminate].
    injection Ekey as <- <-. by injection Eparams as <- <-. }
  destruct Hparams as [-> ->]. clear Eparams.
  unfold Once_Do in Eonce. cbn [onceDone set_caches] in Eonce.
  destruct (onceDone w) eqn:Honce; injection Eonce as <-.
  - cbn in Hinst. destruct (Hkeep Honce) as [-> ->]. cbn. by rewrite Hinst.
  - destruct (Hkeep eq_refl) as [-> ->]. cbn in *.
    repeat split; try done. intros _. injection Hinst as <-.
    by destruct optionalParams.
Qed.

Lemma GetInstance_is_a_singleton_witness :
  GetInstanceWith (Script.searchOf "1001") 1
    [ {| opt_apiKey := Some "another key"; opt_cache := None |} ] Script.started
  = Ret Script.yt
      (worldAfter (GetInstanceWith (Script.searchOf "1001") 1
                     [ {| opt_apiKey := Some "another key"; opt_cache := None |} ]
                     Script.started) Script.started) /\
  ServiceInstance Script.started = Some Script.yt.
Proof.
  assert (Hrun :
    GetInstanceWith (Script.searchOf "1001") 1
      [ {| opt_apiKey := Some "another key"; opt_cache := None |} ] Script.started
    = Ret Script.yt
        (worldAfter (GetInstanceWith (Script.searchOf "1001") 1
                       [ {| opt_apiKey := Some "another key"; opt_cache := None |} ]
                       Script.started) Script.started)) by (by vm_compute).
  split; [exact Hrun|].
  exact (proj1 (proj2 (proj2 (GetInstance_is_a_singleton _ _ _ _ _ _ Hrun))) eq_refl).
Defined.

(** *** The channel partitions *)

Lemma sameChannels_same (w w' : World) : caches w' = caches w -> sameChannels w w'.
Proof. intros H ref. unfold channelOf. by rewrite H. Qed.

Lemma sameChannels_Frame : Frame sameChannels.
Proof.
  apply Frame_intro.
  - by intros w ref.
  - intros w1 w2 w3 H1 H2 ref. by rewrite H2, H1.
  - intros w w' H _ _ _. by apply sameChannels_same.
  - intros U url w a w' [= _ <-]. by apply sameChannels_same.
  - intros key cache w a w'. unfold Once_Do.
    destruct (onceDone w); intros [= _ <-]; by apply sameChannels_same.
  - intros w a w' [= _ <-] ref. unfold channelOf. cbn.
    destruct (decide (ref < length (caches w))%nat) as [Hlt|Hge].
    + by rewrite lookup_app_l.
    + rewrite (lookup_ge_None_2 (caches w)) by lia.
      rewrite lookup_app_r by lia.
      by destruct (ref - length (caches w))%nat as [|[|n]].
Qed.

Lemma sameChannels_Set :
  (forall yt key v, preserves sameChannels (Cache_SetVideo yt key v)) /\
  (forall yt key v, preserves sameChannels (Cache_SetPlaylist yt key v)) /\
  (forall yt key v, preserves sameChannels (Cache_SetVideoDetail yt key v)).
Proof.
  split_and!; cache_sets; intros w c Hc Hmu ref; unfold channelOf; cbn;
    (destruct (decide (ref = Cache yt)) as [->|Hne];
     [rewrite list_lookup_insert_eq by (by eapply lookup_lt_Some); by rewrite Hc
     |by rewrite list_lookup_insert_ne]).
Qed.

(** X14: only [GetChannelInfo] writes to a channel partition.  A search, a
    look-up and a playlist call leave the channel partition of every cache
    as it was, and so does [GetInstance], to any depth of the calls it
    makes and receives. *)
Theorem only_GetChannelInfo_writes_channels (U : Upstream) (fuel : nat) :
  (forall yt op,
     (forall channelId, op <> OpGetChannelInfo channelId) ->
     preserves sameChannels (call U (GetInstance U fuel) yt op)) /\
  (forall optionalParams, preserves sameChannels (GetInstanceWith U fuel optionalParams)).
Proof.
  destruct sameChannels_Set as (HV & HP & HD).
  assert (Hgi : preserves sameChannels (GetInstance U fuel))
    by (by apply frame_GetInstance; [apply sameChannels_Frame|..]).
  pose proof sameChannels_Frame as HF.
  split.
  - intros yt op Hop. destruct op; cbn [call];
      (apply (preserves_bind _ (frame_trans _ HF));
       [|intros ?; apply (preserves_ret _ (frame_refl _ HF))]).
    + by apply frame_FindTags.
    + by apply frame_GetVideos.
    + by destruct (Hop channelId).
    + by apply frame_GetChannelPlaylist.
  - intros. by apply frame_GetInstanceWith.
Qed.

Lemma only_GetChannelInfo_writes_channels_witness :
  sameChannels Script.started (worldAfter Run.playlist Script.started).
Proof.
  refine (proj1 (only_GetChannelInfo_writes_channels Script.uploads 1) Script.yt
            (OpGetChannelPlaylist Script.channel 5) _ Script.started
            (ResultSet (Some 1%nat), None) _ _); [discriminate|].
  by vm_compute.
Defined.

(** ** Cache accesses, with the state they leave *)

Section CacheSteps.

Variable yt : YoutubeApi.
Variables (w : World) (c : MemoryCache).
Hypothesis Hc : caches w !! Cache yt = Some c.
Hypothesis Hmu : mu c = false.

Ltac set_tac :=
  unfold Cache_SetVideo, Cache_SetChannel, Cache_SetPlaylist, Cache_SetVideoDetail, onCache,
    withCache;
  rewrite Hc;
  unfold MemoryCache.SetVideo, MemoryCache.SetChannel, MemoryCache.SetPlaylist,
    MemoryCache.SetVideoDetail, bind, MemoryCache.Lock, MemoryCache.Unlock, get, put;
  rewrite Hmu; cbn; destruct c; cbn in *; by subst.

Lemma Cache_SetVideo_eq key v :
  Cache_SetVideo yt key v w
  = Ret tt (withCache yt (MemoryCache.set_videoCache (<[key := v]> (videoCache c)) c) w).
Proof. set_tac. Qed.

Lemma Cache_SetChannel_eq key v :
  Cache_SetChannel yt key v w
  = Ret tt (withCache yt (MemoryCache.set_channelCache (<[key := v]> (channelCache c)) c) w).
Proof. set_tac. Qed.

Lemma Cache_SetPlaylist_eq key v :
  Cache_SetPlaylist yt key v w
  = Ret tt (withCache yt (MemoryCache.set_playlistCache (<[key := v]> (playlistCache c)) c) w).
Proof. set_tac. Qed.

Lemma Cache_SetVideoDetail_eq key v :
  Cache_SetVideoDetail yt key v w
  = Ret tt (withCache yt
              (MemoryCache.set_videoDetailsCache (<[key := v]> (videoDetailsCache c)) c) w).
Proof. set_tac. Qed.

Lemma Cache_GetVideo_eq key :
  Cache_GetVideo yt key w = Ret (index (videoCache c) key) w.
Proof. apply Cache_GetVideo_Ret. split; [done|]. by exists c. Qed.

Lemma Cache_GetChannel_eq key :
  Cache_GetChannel yt key w = Ret (index (channelCache c) key) w.
Proof. apply Cache_GetChannel_Ret. split; [done|]. by exists c. Qed.

Lemma Cache_GetPlaylist_eq key :
  Cache_GetPlaylist yt key w = Ret (index (playlistCache c) key) w.
Proof. apply Cache_GetPlaylist_Ret. split; [done|]. by exists c. Qed.

Lemma Cache_GetVideoDetail_eq key :
  Cache_GetVideoDetail yt key w = Ret (index (videoDetailsCache c) key) w.
Proof. apply Cache_GetVideoDetail_Ret. split; [done|]. by exists c. Qed.

End CacheSteps.

Lemma withCache_lookup yt c w :
  (Cache yt < length (caches w))%nat -> caches (withCache yt c w) !! Cache yt = Some c.
Proof. intros H. cbn. by apply list_lookup_insert_eq. Qed.

Lemma withCache_withCache yt c c' w : withCache yt c' (withCache yt c w) = withCache yt c' w.
Proof. unfold withCache. cbn. by rewrite list_insert_insert_eq. Qed.

(** ** The look-up of no identifier *)

Lemma GetVideos_nil (U : Upstream) (gi : M YoutubeApi) (yt : YoutubeApi)
    (w : World) (c : MemoryCache) :
  caches w !! Cache yt = Some c -> mu c = false ->
  index (videoDetailsCache c) EmptyString = None ->
  GetVideos U gi yt [] w
  = Ret (Some (length (results w)), None)
      (withCache yt
         (MemoryCache.set_videoDetailsCache
            (<[EmptyString := Some (length (results w))]> (videoDetailsCache c)) c)
         (allocated noItems w)).
Proof.
  intros Hc Hmu Hmiss. unfold GetVideos.
  change (strings.Join [] ",") with EmptyString.
  rewrite (bind_eq _ _ _ _ _ (Cache_GetVideoDetail_eq yt w c Hc Hmu EmptyString)).
  rewrite Hmiss. cbv beta iota.
  change (batchIteration []) with (@nil string). cbn [GetVideos_batches].
  erewrite bind_eq by reflexivity. rewrite bind_ret_l.
  erewrite bind_eq by (by apply (Cache_SetVideoDetail_eq yt _ c)).
  reflexivity.
Qed.

(** X15: [GetVideos] of the empty identifier list, when the empty key is not
    cached, sends no request and never asks for the instance: it allocates
    a result set without items, stores it under the empty key of the
    look-up partition and returns it without error; the other partitions
    of the cache stay as they were. *)
Theorem GetVideos_of_no_identifiers (U : Upstream) (gi : M YoutubeApi) (yt : YoutubeApi)
    (w : World) (c : MemoryCache) :
  caches w !! Cache yt = Some c -> mu c = false ->
  index (videoDetailsCache c) EmptyString = None ->
  exists w' c',
    GetVideos U gi yt [] w = Ret (Some (length (results w)), None) w' /\
    requests w' = requests w /\
    results w' = results w ++ [noItems] /\
    videos w' = videos w /\
    caches w' = <[Cache yt := c']> (caches w) /\
    videoDetailsCache c' = <[EmptyString := Some (length (results w))]> (videoDetailsCache c) /\
    (videoCache c', channelCache c', playlistCache c', mu c')
    = (videoCache c, channelCache c, playlistCache c, false).
Proof.
  intros Hc Hmu Hmiss.
  exists (withCache yt
            (MemoryCache.set_videoDetailsCache
               (<[EmptyString := Some (length (results w))]> (videoDetailsCache c)) c)
            (allocated noItems w)),
         (MemoryCache.set_videoDetailsCache
            (<[EmptyString := Some (length (results w))]> (videoDetailsCache c)) c).
  split; [by apply GetVideos_nil|]. cbn. rewrite Hmu. by repeat split.
Qed.

Lemma GetVideos_of_no_identifiers_witness :
  returned (GetVideos Script.singlePage (GetInstance Script.singlePage 0) Script.yt []
              Script.started)
  = Some (Some 1%nat, None).
Proof.
  destruct (GetVideos_of_no_identifiers Script.singlePage (GetInstance Script.singlePage 0)
              Script.yt Script.started
              (MemoryCache.set_videoCache {[ "alai" := Some O ]} NewMemoryCache)
              eq_refl eq_refl eq_refl) as (w' & c' & H & _).
  by rewrite H.
Defined.

(** ** The search loop *)

Lemma set_requests_nil (w : World) : w = set_requests (requests w ++ []) w.
Proof. rewrite app_nil_r. by destruct w. Qed.

Lemma FindTags_collect_app (items : list TagSearchItem) :
  forall vids idx vids' idx',
    FindTags_collect items vids idx = Some (vids', idx') ->
    exists more, vids' = vids ++ more /\ length more = length items /\
                 forall id, id ∈ more \/ is_Some (idx !! id) -> is_Some (idx' !! id).
Proof.
  induction items as [|vid items IH]; intros vids idx vids' idx' H; cbn in H.
  - injection H as <- <-. exists []. split; [by rewrite app_nil_r|].
    split; [done|]. by intros id [?%elem_of_nil|?].
  - destruct (TagSearch_Id vid) as [videoId|]; [|done].
    destruct (TagSearch_Snippet vid) as [[[title channel] thumbs]|]; [|done].
    destruct (IH _ _ _ _ H) as (more & -> & Hlen & Hidx).
    exists (videoId :: more). split; [by rewrite <- app_assoc|].
    split; [cbn; by rewrite Hlen|].
    intros id Hid. apply Hidx.
    destruct (decide (id = videoId)) as [->|Hne].
    + right. rewrite lookup_insert_eq. eauto.
    + rewrite lookup_insert_ne by done.
      destruct Hid as [[->|Hin]%elem_of_cons|Hin]; [done|by left|by right].
Qed.

(** X16: the search loop of [FindTags] sends at most as many requests as it
    may fetch pages, each of them to the search endpoint with the search
    term and the key of the service, and changes nothing but the request
    log; the identifiers it returns continue the ones it started with, and
    on success every identifier it has added has an entry in the index it
    returns, as has every identifier that had one before. *)
Theorem FindTags_pages_requests (U : Upstream) (yt : YoutubeApi) (fSearch : string)
    (remaining i : nat) (nextPage : string) (vids vids' : list string)
    (idx idx' : gmap string VidSnippetInfo) (err : option error) (w w' : World) :
  FindTags_pages U yt fSearch remaining i nextPage vids idx w = Ret (vids', idx', err) w' ->
  exists urls more,
    w' = set_requests (requests w ++ urls) w /\
    (length urls <= remaining)%nat /\
    Forall (fun url => exists token, url = Sprintf_SearchVideoIds fSearch (apiKey yt) token)
      urls /\
    vids' = vids ++ more /\
    (err = None -> forall id, id ∈ more \/ is_Some (idx !! id) -> is_Some (idx' !! id)).
Proof.
  revert i nextPage vids idx w.
  induction remaining as [|remaining IH]; intros i nextPage vids idx w H;
    cbn [FindTags_pages] in H.
  - injection H as <- <- <- <-. exists [], [].
    split; [apply set_requests_nil|]. split; [done|]. split; [constructor|].
    split; [by rewrite app_nil_r|]. by intros _ id [?%elem_of_nil|?].
  - apply bind_Ret in H as (resp & w1 & Eget & H). injection Eget as <- <-.
    assert (Hone : forall e, (vids', idx', err) = (vids, idx, Some e) ->
      exists urls more,
        set_requests
          (requests w ++ [Sprintf_SearchVideoIds fSearch (apiKey yt) (pageTokenParam i nextPage)])
          w = set_requests (requests w ++ urls) w /\
        (length urls <= S remaining)%nat /\
        Forall (fun url => exists token, url = Sprintf_SearchVideoIds fSearch (apiKey yt) token)
          urls /\
        vids' = vids ++ more /\
        (err = None -> forall id, id ∈ more \/ is_Some (idx !! id) -> is_Some (idx' !! id))).
    { intros e [= -> -> ->]. eexists [_], []. split; [reflexivity|]. split; [cbn; lia|].
      split; [repeat constructor; by eexists|]. rewrite app_nil_r. by split. }
    destruct (transport U (requests w) _) as [e|e|body];
      [injection H as <- <- <- <-; by eapply Hone..|].
    destruct (json_TagSearchResults U body) as [e|res];
      [injection H as <- <- <- <-; by eapply Hone|].
    destruct (FindTags_collect (TagSearch_Items res) vids idx) as [[vids1 idx1]|] eqn:Ecollect;
      [|done].
    destruct (FindTags_collect_app _ _ _ _ _ Ecollect) as (more1 & -> & _ & Hidx1).
    destruct (isEmpty (TagSearch_NextPageToken res)).
    + injection H as <- <- <- <-. eexists [_], more1. split; [reflexivity|].
      split; [cbn; lia|]. split; [repeat constructor; by eexists|]. split; [done|].
      by intros _.
    + apply IH in H as (urls & more & -> & Hlen & Hurls & -> & Hidx).
      eexists (_ :: urls), (more1 ++ more). cbn [requests set_requests].
      split; [by rewrite <- app_assoc|]. split; [cbn; lia|].
      split; [constructor; [by eexists | done]|].
      split; [by rewrite app_assoc|].
      intros Hok id Hid. apply (Hidx Hok).
      destruct Hid as [[Hin|Hin]%elem_of_app|Hin]; [right; apply Hidx1; by left | by left|].
      right. apply Hidx1. by right.
Qed.

Lemma FindTags_pages_requests_witness :
  exists urls,
    Script.searched "1001" = set_requests (requests Script.started ++ urls) Script.started /\
    (length urls <= 1)%nat.
Proof.
  destruct (FindTags_pages_requests (Script.searchOf "1001") Script.yt "cats" 1 0 EmptyString
              [] ["v1"] ∅ Script.searchIndex None Script.started (Script.searched "1001"))
    as (urls & more & H1 & H2 & _); [by vm_compute|].
  by exists urls.
Defined.

(** ** A search that finds no video *)

Lemma loadVideoResults_allocated (r : VideoResults) (w : World) :
  results (allocated r w) !! length (results w) = Some r.
Proof. cbn. by rewrite lookup_app_r, Nat.sub_diag. Qed.

Section FindTagsWithoutVideos.

Variable U : Upstream.
Variable gi : M YoutubeApi.
Variable yt : YoutubeApi.
Variables (input : string) (numPages : Z).
Variables (w : World) (c : MemoryCache) (idx : gmap string VidSnippetInfo).
Variable urls : list string.

Hypothesis Hc : caches w !! Cache yt = Some c.
Hypothesis Hmu : mu c = false.
Hypothesis Hmiss : index (videoCache c) input = None.
Hypothesis Hdetail : index (videoDetailsCache c) EmptyString = None.
Hypothesis Hpages :
  FindTags_pages U yt (strings.ReplaceSpaces input "%20%") (Z.to_nat numPages)
    0 EmptyString [] ∅ w
  = Ret ([], idx, None) (set_requests (requests w ++ urls) w).

Lemma FindTags_without_videos :
  FindTags U gi yt input numPages w
  = Ret (Some (length (results w)), None)
      (withCache yt
         (MemoryCache.set_videoCache (<[input := Some (length (results w))]> (videoCache c))
            (MemoryCache.set_videoDetailsCache
               (<[EmptyString := Some (length (results w))]> (videoDetailsCache c)) c))
         (allocated noItems (set_requests (requests w ++ urls) w))).
Proof.
  unfold FindTags.
  rewrite (bind_eq _ _ _ _ _ (Cache_GetVideo_eq yt w c Hc Hmu input)), Hmiss.
  cbv beta iota. rewrite (bind_eq _ _ _ _ _ Hpages). cbv beta iota.
  rewrite (bind_eq _ _ _ _ _
             (GetVideos_nil U gi yt (set_requests (requests w ++ urls) w) c
                Hc Hmu Hdetail)).
  cbv beta iota. cbn [deref]. rewrite bind_ret_l.
  set (w3 := withCache yt _ _).
  assert (Hload : loadVideoResults (length (results w)) w3 = Ret noItems w3).
  { unfold loadVideoResults. subst w3. cbn [results withCache set_caches allocated set_results
      set_requests].
    by rewrite lookup_app_r, Nat.sub_diag. }
  cbn [results set_requests]. rewrite (bind_eq _ _ _ _ _ Hload). cbv beta.
  cbn [FindTags_filter Items noItems]. rewrite bind_ret_l. cbv iota.
  erewrite bind_eq by reflexivity.
  assert (Hsame : set_results (<[length (results w) :=
                     {| Items := []; NextPageToken := NextPageToken noItems |}]> (results w3)) w3
                  = w3).
  { subst w3. unfold withCache, allocated. cbn.
    rewrite list_insert_id; [done|]. by rewrite lookup_app_r, Nat.sub_diag. }
  rewrite Hsame.
  erewrite bind_eq.
  2:{ apply (Cache_SetVideo_eq yt w3
               (MemoryCache.set_videoDetailsCache
                  (<[EmptyString := Some (length (results w))]> (videoDetailsCache c)) c));
        [|done].
      subst w3. apply withCache_lookup. cbn. by eapply lookup_lt_Some. }
  subst w3. by rewrite withCache_withCache.
Qed.

End FindTagsWithoutVideos.

(** X17: [FindTags] asked for no page (a page count of zero or less), on an
    input that is not cached, searches nothing: it sends no request, gets a
    result set without items from the look-up of no identifier, stores it
    under the input in the search partition and returns it without error. *)
Theorem FindTags_of_no_page (U : Upstream) (gi : M YoutubeApi) (yt : YoutubeApi)
    (input : string) (numPages : Z) (w : World) (c : MemoryCache) :
  numPages <= 0 ->
  caches w !! Cache yt = Some c -> mu c = false ->
  index (videoCache c) input = None ->
  index (videoDetailsCache c) EmptyString = None ->
  exists w',
    FindTags U gi yt input numPages w = Ret (Some (length (results w)), None) w' /\
    requests w' = requests w /\
    results w' = results w ++ [noItems] /\
    cached yt VideoPartition input (ResultSet (Some (length (results w)))) w'.
Proof.
  intros Hn Hc Hmu Hmiss Hdetail.
  assert (Hpages :
    FindTags_pages U yt (strings.ReplaceSpaces input "%20%") (Z.to_nat numPages)
      0 EmptyString [] ∅ w
    = Ret ([], ∅, None) (set_requests (requests w ++ []) w)).
  { replace (Z.to_nat numPages) with 0%nat by lia. cbn [FindTags_pages]. unfold ret.
    f_equal. apply set_requests_nil. }
  eexists. split; [by eapply FindTags_without_videos|].
  split; [cbn; by rewrite app_nil_r|]. split; [done|].
  eexists. split; [apply withCache_lookup; cbn; by eapply lookup_lt_Some|].
  split; [done|]. cbn. unfold index. by rewrite lookup_insert_eq.
Qed.

Lemma FindTags_of_no_page_witness :
  returned (FindTags Script.singlePage (GetInstance Script.singlePage 0) Script.yt "cats" 0
              Script.started)
  = Some (Some 1%nat, None).
Proof.
  destruct (FindTags_of_no_page Script.singlePage (GetInstance Script.singlePage 0) Script.yt
              "cats" 0 Script.started
              (MemoryCache.set_videoCache {[ "alai" := Some O ]} NewMemoryCache))
    as (w' & H & _); [lia | reflexivity..|].
  by rewrite H.
Defined.

(** ** The playlist of no video *)

Lemma calculateNumPages_nonpos (numItems : Z) :
  numItems <= 0 -> Z.to_nat (calculateNumPages numItems) = 0%nat.
Proof.
  intros H. assert (calculateNumPages numItems <= 0); [|lia].
  unfold calculateNumPages.
  pose proof (Z.rem_nonpos numItems 50 ltac:(lia) H) as Hrem.
  destruct (Z.ltb_spec 0 (Z.rem numItems 50)) as [Hpos|_]; [lia|].
  pose proof (Z.quot_rem' numItems 50) as Hqr.
  pose proof (Z.rem_bound_abs numItems 50 ltac:(lia)) as Hb.
  destruct (Z.le_gt_cases (Z.quot numItems 50) 0); [done|]. lia.
Qed.

Lemma getChannelPlaylist_nil (U : Upstream) (gi : M YoutubeApi) (yt : YoutubeApi)
    (playlistId : string) (numItems : Z) (w : World) (c : MemoryCache) :
  numItems <= 0 ->
  caches w !! Cache yt = Some c -> mu c = false ->
  index (videoDetailsCache c) EmptyString = None ->
  getChannelPlaylist U gi yt playlistId numItems w
  = Ret (Some (length (results w)), None)
      (withCache yt
         (MemoryCache.set_videoDetailsCache
            (<[EmptyString := Some (length (results w))]> (videoDetailsCache c)) c)
         (allocated noItems w)).
Proof.
  intros Hn Hc Hmu Hdetail. unfold getChannelPlaylist, fetchPlaylistVideos.
  rewrite calculateNumPages_nonpos by done. cbn [fetchPlaylistVideos_pages].
  rewrite bind_ret_l.
  rewrite (bind_eq _ _ _ _ _ (GetVideos_nil U gi yt w c Hc Hmu Hdetail)).
  cbv beta iota. unfold processVideoItems. cbn [deref].
  set (w3 := withCache yt _ _).
  assert (Hload : loadVideoResults (length (results w)) w3 = Ret noItems w3).
  { unfold loadVideoResults. subst w3. cbn [results withCache set_caches allocated set_results].
    by rewrite lookup_app_r, Nat.sub_diag. }
  unfold bind. cbn [ret]. rewrite Hload. reflexivity.
Qed.

(** X18: [GetChannelPlaylist] asked for no video (a count of zero or less)
    of a channel with an uploads playlist, on a key that is not cached,
    fetches nothing: it sends no request, gets a result set without items
    from the look-up of no identifier, stores it under its key in the
    playlist partition and returns it without error. *)
Theorem GetChannelPlaylist_of_no_video (U : Upstream) (gi : M YoutubeApi) (yt : YoutubeApi)
    (item : Item) (vidCount : Z) (uploads : string) (w : World) (c : MemoryCache) :
  vidCount <= 0 -> uploadsOf item = Some uploads ->
  caches w !! Cache yt = Some c -> mu c = false ->
  index (playlistCache c) (playlistCacheKey item vidCount) = None ->
  index (videoDetailsCache c) EmptyString = None ->
  exists w',
    GetChannelPlaylist U gi yt (Some item) vidCount w
    = Ret (Some (length (results w)), None) w' /\
    requests w' = requests w /\
    results w' = results w ++ [noItems] /\
    cached yt PlaylistPartition (playlistCacheKey item vidCount)
      (ResultSet (Some (length (results w)))) w'.
Proof.
  intros Hn Huploads Hc Hmu Hmiss Hdetail.
  unfold GetChannelPlaylist. cbn [deref]. rewrite bind_ret_l.
  rewrite (bind_eq _ _ _ _ _ (Cache_GetPlaylist_eq yt w c Hc Hmu _)), Hmiss.
  cbv beta iota. rewrite Huploads.
  rewrite (bind_eq _ _ _ _ _ (getChannelPlaylist_nil U gi yt uploads vidCount w c
                                Hn Hc Hmu Hdetail)).
  cbv beta iota.
  erewrite bind_eq.
  2:{ apply (Cache_SetPlaylist_eq yt _
               (MemoryCache.set_videoDetailsCache
                  (<[EmptyString := Some (length (results w))]> (videoDetailsCache c)) c));
        [|done].
      apply withCache_lookup. by eapply lookup_lt_Some. }
  eexists. split; [reflexivity|]. rewrite withCache_withCache.
  split; [done|]. split; [done|].
  eexists. split; [apply withCache_lookup; by eapply lookup_lt_Some|].
  split; [done|]. cbn. unfold index. by rewrite lookup_insert_eq.
Qed.

Lemma GetChannelPlaylist_of_no_video_witness :
  returned (GetChannelPlaylist Script.uploads (GetInstance Script.uploads 0) Script.yt
              (Some Script.channel) 0 Script.started)
  = Some (Some 1%nat, None).
Proof.
  destruct (GetChannelPlaylist_of_no_video Script.uploads (GetInstance Script.uploads 0)
              Script.yt Script.channel 0 "UU-alai" Script.started
              (MemoryCache.set_videoCache {[ "alai" := Some O ]} NewMemoryCache))
    as (w' & H & _); [lia | reflexivity..|].
  by rewrite H.
Defined.

(** ** The start-up search *)

Lemma GetInstance_started (U : Upstream) (fuel : nat) (inst : YoutubeApi) (w : World) :
  onceDone w = true -> ServiceInstance w = Some inst ->
  GetInstance U (S fuel) w
  = (SearchAndRetrieveTags U (GetInstance U fuel) inst "alai" None ;;; ret inst)
      (set_caches (caches w ++ [NewMemoryCache]) w).
Proof.
  intros Honce Hinst. cbn [GetInstance].
  erewrite bind_eq by reflexivity.
  erewrite bind_eq by (unfold Once_Do; cbn [onceDone set_caches]; by rewrite Honce).
  erewrite bind_eq by reflexivity.
  cbn [ServiceInstance set_caches]. rewrite Hinst. cbn [deref]. by rewrite bind_ret_l.
Qed.

Lemma GetInstance_fresh (U : Upstream) (fuel : nat) (w : World) :
  onceDone w = false ->
  GetInstance U (S fuel) w
  = (SearchAndRetrieveTags U (GetInstance U fuel) (NewYoutubeApi EmptyString (length (caches w)))
       "alai" None ;;;
     ret (NewYoutubeApi EmptyString (length (caches w))))
      (set_instance (Some (NewYoutubeApi EmptyString (length (caches w))))
         (set_caches (caches w ++ [NewMemoryCache]) w)).
Proof.
  intros Honce. cbn [GetInstance].
  erewrite bind_eq by reflexivity.
  erewrite bind_eq by (unfold Once_Do; cbn [onceDone set_caches]; by rewrite Honce).
  erewrite bind_eq by reflexivity.
  cbn [ServiceInstance set_instance deref]. by rewrite bind_ret_l.
Qed.

(** The state [GetInstance] leaves to its search, on a process without
    instance. *)
Lemma fresh_awaitsStartUp (w : World) :
  awaitsStartUp (NewYoutubeApi EmptyString (length (caches w)))
    (set_instance (Some (NewYoutubeApi EmptyString (length (caches w))))
       (set_caches (caches w ++ [NewMemoryCache]) w)).
Proof.
  split; [done|]. split; [done|]. exists NewMemoryCache. cbn.
  split; [by rewrite lookup_app_r, Nat.sub_diag|]. done.
Qed.

Lemma GetInstance_cached (U : Upstream) (fuel : nat) (inst : YoutubeApi) (p : loc) (w : World) :
  onceDone w = true -> ServiceInstance w = Some inst ->
  cached inst VideoPartition "alai" (ResultSet (Some p)) w ->
  GetInstance U (S fuel) w = Ret inst (set_caches (caches w ++ [NewMemoryCache]) w).
Proof.
  intros Honce Hinst (c & Hc & Hmu & Hp). rewrite (GetInstance_started U fuel inst) by done.
  cbn [SearchAndRetrieveTags]. unfold FindTags.
  assert (Hc' : caches (set_caches (caches w ++ [NewMemoryCache]) w) !! Cache inst = Some c).
  { cbn. rewrite lookup_app_l; [done|]. by eapply lookup_lt_Some. }
  erewrite bind_eq.
  2:{ erewrite bind_eq by (by apply (Cache_GetVideo_eq inst _ c)).
      cbn in Hp. injection Hp as ->. reflexivity. }
  reflexivity.
Qed.

(** X19: once the start-up search is cached, [GetInstance] returns the
    instance at once: it sends no request, makes no call of its own, and
    changes nothing but the list of cache objects, to which the cache it
    creates on every call (line 66) is added. *)
Theorem GetInstance_after_the_start_up_search (U : Upstream) (fuel : nat)
    (inst : YoutubeApi) (p : loc) (w : World) :
  onceDone w = true -> ServiceInstance w = Some inst ->
  cached inst VideoPartition "alai" (ResultSet (Some p)) w ->
  GetInstance U (S fuel) w = Ret inst (set_caches (caches w ++ [NewMemoryCache]) w) /\
  GetInstanceWith U (S fuel) [] w = Ret inst (set_caches (caches w ++ [NewMemoryCache]) w).
Proof. intros Honce Hinst Hc. split; by apply (GetInstance_cached U fuel inst p). Qed.

Lemma GetInstance_after_the_start_up_search_witness :
  GetInstance Script.singlePage 1 Script.started
  = Ret Script.yt (set_caches (caches Script.started ++ [NewMemoryCache]) Script.started).
Proof.
  apply (GetInstance_after_the_start_up_search Script.singlePage 0 Script.yt 0%nat);
    [reflexivity..|].
  eexists. split; [reflexivity|]. by split.
Defined.

(** ** The first call of a process *)

(** X20: the first [GetInstance] of a process whose start-up search finds no
    video creates the instance with the empty key and a new cache, sends
    the one search request, caches the result set without items under
    "alai" and returns the instance; from then on every [GetInstance]
    returns that instance without a request, whatever the upstream. *)
Theorem GetInstance_without_videos (U : Upstream) (fuel : nat) (w : World)
    (body : string) (res : TagSearchResults) :
  onceDone w = false ->
  transport U (requests w) (startUpSearch EmptyString) = Body body ->
  json_TagSearchResults U body = inr res ->
  TagSearch_Items res = [] ->
  exists w',
    GetInstance U (S fuel) w = Ret (NewYoutubeApi EmptyString (length (caches w))) w' /\
    requests w' = requests w ++ [startUpSearch EmptyString] /\
    onceDone w' = true /\
    ServiceInstance w' = Some (NewYoutubeApi EmptyString (length (caches w))) /\
    results w' = results w ++ [noItems] /\
    cached (NewYoutubeApi EmptyString (length (caches w))) VideoPartition "alai"
      (ResultSet (Some (length (results w)))) w' /\
    forall U' fuel',
      GetInstance U' (S fuel') w'
      = Ret (NewYoutubeApi EmptyString (length (caches w)))
          (set_caches (caches w' ++ [NewMemoryCache]) w').
Proof.
  intros Honce Ht Hj Hitems. rewrite GetInstance_fresh by done.
  set (inst := NewYoutubeApi EmptyString (length (caches w))).
  set (w1 := set_instance _ _).
  assert (Hc : caches w1 !! Cache inst = Some NewMemoryCache)
    by (subst w1 inst; cbn; by rewrite lookup_app_r, Nat.sub_diag).
  assert (Hpages :
    FindTags_pages U inst (strings.ReplaceSpaces "alai" "%20%") (Z.to_nat 1)
      0 EmptyString [] ∅ w1
    = Ret ([], ∅, None) (set_requests (requests w1 ++ [startUpSearch EmptyString]) w1)).
  { change (Z.to_nat 1) with 1%nat. cbn [FindTags_pages]. unfold bind, http_Get.
    unfold startUpSearch in Ht. cbn [requests w1 set_instance set_caches apiKey inst NewYoutubeApi].
    rewrite Ht, Hj, Hitems. cbn [FindTags_collect].
    by destruct (isEmpty (TagSearch_NextPageToken res)). }
  cbn [SearchAndRetrieveTags].
  erewrite bind_eq
    by (by apply (FindTags_without_videos U _ inst "alai" 1 w1 NewMemoryCache ∅
                     [startUpSearch EmptyString])).
  eexists. split; [reflexivity|].
  assert (Hc' : cached inst VideoPartition "alai" (ResultSet (Some (length (results w))))
                  (withCache inst
                     (MemoryCache.set_videoCache
                        (<["alai" := Some (length (results w1))]> (videoCache NewMemoryCache))
                        (MemoryCache.set_videoDetailsCache
                           (<[EmptyString := Some (length (results w1))]>
                              (videoDetailsCache NewMemoryCache)) NewMemoryCache))
                     (allocated noItems
                        (set_requests (requests w1 ++ [startUpSearch EmptyString]) w1)))).
  { eexists. split; [apply withCache_lookup; cbn; by eapply lookup_lt_Some|].
    split; [done|]. cbn. unfold index. by rewrite lookup_insert_eq. }
  split; [done|]. split; [done|]. split; [done|]. split; [done|]. split; [exact Hc'|].
  intros U' fuel'. by apply (GetInstance_cached U' fuel' inst (length (results w))).
Qed.

Lemma GetInstance_without_videos_witness :
  returned (GetInstance Startup.findsNothing 1 Startup.fresh) = Some Startup.instance.
Proof.
  destruct (GetInstance_without_videos Startup.findsNothing 0 Startup.fresh "search"
              {| TagSearch_Items := []; TagSearch_NextPageToken := EmptyString |}
              eq_refl eq_refl eq_refl eq_refl) as (w' & H & _).
  by rewrite H.
Defined.

(** X21: [GetInstance] drops the error of its start-up search: on a process
    without instance whose search request or its decoding fails, the call
    still creates and returns the instance, having sent the one request;
    nothing is cached, so the search is not yet done for the next call. *)
Theorem GetInstance_drops_the_search_error (U : Upstream) (fuel : nat) (w : World)
    (err : error) :
  onceDone w = false ->
  fetchError U (json_TagSearchResults U) w (startUpSearch EmptyString) = Some err ->
  GetInstance U (S fuel) w
  = Ret (NewYoutubeApi EmptyString (length (caches w)))
      (logged (startUpSearch EmptyString)
         (set_instance (Some (NewYoutubeApi EmptyString (length (caches w))))
            (set_caches (caches w ++ [NewMemoryCache]) w))) /\
  awaitsStartUp (NewYoutubeApi EmptyString (length (caches w)))
    (logged (startUpSearch EmptyString)
       (set_instance (Some (NewYoutubeApi EmptyString (length (caches w))))
          (set_caches (caches w ++ [NewMemoryCache]) w))).
Proof.
  intros Honce Herr. split; [|apply (fresh_awaitsStartUp w)].
  rewrite GetInstance_fresh by done.
  set (inst := NewYoutubeApi EmptyString (length (caches w))).
  set (w1 := set_instance _ _).
  assert (Hc : caches w1 !! Cache inst = Some NewMemoryCache)
    by (subst w1 inst; cbn; by rewrite lookup_app_r, Nat.sub_diag).
  cbn [SearchAndRetrieveTags].
  erewrite bind_eq; [reflexivity|].
  eapply FindTags_search_error.
  - by apply (Cache_GetVideo_eq inst w1 NewMemoryCache).
  - change (Z.to_nat 1) with 1%nat. by apply FindTags_pages_fetch_error.
Qed.

Lemma GetInstance_drops_the_search_error_witness :
  returned (GetInstance Script.playlistFails 1 Startup.fresh) = Some Startup.instance.
Proof.
  destruct (GetInstance_drops_the_search_error Script.playlistFails 0 Startup.fresh
              Script.timeout eq_refl eq_refl) as [H _].
  by rewrite H.
Defined.

(** ** A start-up search that finds a video *)

Lemma ceilTenth_pos (n : nat) : exists b, ceilTenth (S n) = S b.
Proof.
  unfold ceilTenth. destruct ((S n + 9) / 10)%nat as [|b] eqn:E; [|by eauto].
  apply Nat.div_small_iff in E; lia.
Qed.

Lemma awaitsStartUp_caches (inst : YoutubeApi) (w w' : World) (more : list MemoryCache) :
  awaitsStartUp inst w ->
  onceDone w' = onceDone w -> ServiceInstance w' = ServiceInstance w ->
  caches w' = caches w ++ more ->
  awaitsStartUp inst w'.
Proof.
  intros (Honce & Hinst & c & Hc & Hrest) H1 H2 H3.
  split; [congruence|]. split; [congruence|]. exists c. split; [|done].
  rewrite H3, lookup_app_l; [done|]. by eapply lookup_lt_Some.
Qed.

(** The search for "alai" on an instance that awaits it reaches the call of
    [GetInstance] in the look-up, in a state that awaits it still. *)
Lemma search_awaits (U : Upstream) (inst : YoutubeApi) (gi : M YoutubeApi) :
  alwaysFinds U (apiKey inst) ->
  (forall w, awaitsStartUp inst w -> gi w = Diverge) ->
  forall w, awaitsStartUp inst w ->
    SearchAndRetrieveTags U gi inst "alai" None w = Diverge.
Proof.
  intros Hfinds Hgi w Hw. pose proof Hw as (Honce & Hinst & c & Hc & Hmu & Halai & Hdetail).
  cbn [SearchAndRetrieveTags]. unfold FindTags.
  rewrite (bind_eq _ _ _ _ _ (Cache_GetVideo_eq inst w c Hc Hmu "alai")), Halai.
  cbv beta iota.
  destruct (Hfinds (requests w)) as (body & res & vids & idx & Ht & Hj & Hcollect & Hne).
  assert (Hpages :
    FindTags_pages U inst (strings.ReplaceSpaces "alai" "%20%") (Z.to_nat 1)
      0 EmptyString [] ∅ w
    = Ret (vids, idx, None) (logged (startUpSearch (apiKey inst)) w)).
  { change (Z.to_nat 1) with 1%nat. cbn [FindTags_pages]. unfold bind, http_Get.
    unfold startUpSearch in Ht. rewrite Ht, Hj, Hcollect.
    by destruct (isEmpty (TagSearch_NextPageToken res)). }
  rewrite (bind_eq _ _ _ _ _ Hpages). cbv beta iota. apply bind_Diverge.
  unfold GetVideos.
  rewrite (bind_eq _ _ _ _ _
             (Cache_GetVideoDetail_eq inst (logged (startUpSearch (apiKey inst)) w) c Hc Hmu _)).
  rewrite Hdetail. cbv beta iota.
  destruct vids as [|id vids]; [done|].
  rewrite batchIteration_chunks_eq. cbn [length chunks map].
  erewrite bind_eq by reflexivity. apply bind_Diverge.
  destruct (ceilTenth_pos (length (map (fun chunk => strings.Join chunk ",")
                                     (chunks (length vids) (drop 50 (id :: vids))))))
    as [b Hb].
  rewrite Hb. cbn [GetVideos_batches GetVideos_pages]. do 2 apply bind_Diverge.
  apply Hgi. eapply awaitsStartUp_caches with (more := []); [exact Hw|done..|].
  cbn. by rewrite app_nil_r.
Qed.

Lemma GetInstance_awaits (U : Upstream) (inst : YoutubeApi) :
  alwaysFinds U (apiKey inst) ->
  forall fuel w, awaitsStartUp inst w -> GetInstance U fuel w = Diverge.
Proof.
  intros Hfinds. induction fuel as [|fuel IH]; intros w Hw; [reflexivity|].
  rewrite (GetInstance_started U fuel inst) by apply Hw.
  apply bind_Diverge, search_awaits; [done..|].
  by eapply awaitsStartUp_caches with (more := [NewMemoryCache]).
Qed.

(** X22: [GetInstance] does not return while its start-up search finds a
    video.  Let the upstream answer the search for "alai" with a page of
    at least one video whenever it is asked.  On a process without
    instance, and on one whose instance has neither the search nor a
    look-up in its cache, the search calls [GetVideos], whose first page
    asks [GetInstance] for the key (line 616) before anything is cached,
    and that call runs the same search again: whatever the bound on the
    depth of these calls, the run exceeds it. *)
Theorem GetInstance_never_returns (U : Upstream) (inst : YoutubeApi) (w : World) (fuel : nat) :
  alwaysFinds U (apiKey inst) ->
  (onceDone w = false /\ inst = NewYoutubeApi EmptyString (length (caches w))) \/
  awaitsStartUp inst w ->
  GetInstance U fuel w = Diverge.
Proof.
  intros Hfinds [[Honce ->]|Hw]; [|by apply (GetInstance_awaits U inst)].
  destruct fuel as [|fuel]; [reflexivity|].
  rewrite GetInstance_fresh by done.
  apply bind_Diverge, search_awaits; [done| |apply fresh_awaitsStartUp].
  intros w' Hw'. by apply (GetInstance_awaits U _ Hfinds).
Qed.

Lemma GetInstance_never_returns_witness :
  GetInstance Startup.findsOne 5 Startup.fresh = Diverge.
Proof.
  apply (GetInstance_never_returns Startup.findsOne Startup.instance).
  - intros history. eexists _, _, _, _. split; [reflexivity|].
    split; [reflexivity|]. split; [reflexivity|]. discriminate.
  - left. by split.
Defined.

(** ** The channel information *)

Lemma getChannelInfo_eq (U : Upstream) (gi : M YoutubeApi) (inst : YoutubeApi)
    (channelId : string) (w w1 : World) :
  gi w = Ret inst w1 ->
  getChannelInfo U gi channelId w
  = Ret match transport U (requests w1) (Sprintf_GetChannelVideos channelId (apiKey inst)) with
        | GetFailed err => (None, Some err)
        | ReadFailed err => (None, Some err)
        | Body body =>
            match json_ChannelInfo U body with
            | inl err => (None, Some err)
            | inr res => (Some res, None)
            end
        end
      (logged (Sprintf_GetChannelVideos channelId (apiKey inst)) w1).
Proof.
  intros Hgi. unfold getChannelInfo. rewrite (bind_eq _ _ _ _ _ Hgi). cbv beta.
  unfold bind, http_Get.
  destruct (transport U (requests w1) _) as [e|e|body]; [done..|].
  by destruct (json_ChannelInfo U body).
Qed.

(** X23: [GetChannelInfo] on a channel that is not cached asks [GetInstance]
    for the key and sends one request, to the channel endpoint with the
    channel identifier and the key of the instance (not the key of the
    service it is called on).  If the request or its decoding fails it
    returns no channel and the error "channel info not found" in place of
    the failure; if the answer holds no item it returns no channel and "no
    item available in cInfo"; in both cases nothing is cached.  Otherwise it
    stores the channel information under the channel identifier and
    returns it. *)
Theorem GetChannelInfo_outcomes (U : Upstream) (gi : M YoutubeApi) (yt inst : YoutubeApi)
    (channelId : string) (w w1 : World) (c : MemoryCache) :
  caches w !! Cache yt = Some c -> mu c = false ->
  index (channelCache c) channelId = None ->
  gi w = Ret inst w1 ->
  (forall err,
     fetchError U (json_ChannelInfo U) w1 (Sprintf_GetChannelVideos channelId (apiKey inst))
     = Some err ->
     GetChannelInfo U gi yt channelId w
     = Ret (None, Some (errorString "channel info not found"))
         (logged (Sprintf_GetChannelVideos channelId (apiKey inst)) w1)) /\
  (forall body cInfo,
     transport U (requests w1) (Sprintf_GetChannelVideos channelId (apiKey inst)) = Body body ->
     json_ChannelInfo U body = inr cInfo ->
     (ChannelInfo_Items cInfo = [] ->
      GetChannelInfo U gi yt channelId w
      = Ret (None, Some (errorString "no item available in cInfo"))
          (logged (Sprintf_GetChannelVideos channelId (apiKey inst)) w1)) /\
     (forall c1, ChannelInfo_Items cInfo <> [] ->
        caches w1 !! Cache yt = Some c1 -> mu c1 = false ->
        GetChannelInfo U gi yt channelId w
        = Ret (Some cInfo, None)
            (withCache yt
               (MemoryCache.set_channelCache
                  (<[channelId := Some cInfo]> (channelCache c1)) c1)
               (logged (Sprintf_GetChannelVideos channelId (apiKey inst)) w1)))).
Proof.
  intros Hc Hmu Hmiss Hgi.
  unfold GetChannelInfo.
  rewrite (bind_eq _ _ _ _ _ (Cache_GetChannel_eq yt w c Hc Hmu channelId)), Hmiss.
  cbv beta iota.
  rewrite (bind_eq _ _ _ _ _ (getChannelInfo_eq U gi inst channelId w w1 Hgi)).
  split.
  - intros err Herr. unfold fetchError in Herr.
    destruct (transport U (requests w1) _) as [e|e|body]; [done..|].
    by destruct (json_ChannelInfo U body) as [e|res].
  - intros body cInfo Ht Hj. rewrite Ht, Hj. split.
    + by intros ->.
    + intros c1 Hne Hc1 Hmu1. destruct (ChannelInfo_Items cInfo) as [|item items]; [done|].
      erewrite bind_eq by (by apply (Cache_SetChannel_eq yt _ c1)). reflexivity.
Qed.

Lemma GetChannelInfo_outcomes_witness :
  GetChannelInfo Script.playlistFails (GetInstance Script.playlistFails 1) Script.yt "UC-alai"
    Script.started
  = Ret (None, Some (errorString "channel info not found"))
      (logged (Sprintf_GetChannelVideos "UC-alai" "k")
         (set_caches (caches Script.started ++ [NewMemoryCache]) Script.started)).
Proof.
  refine (proj1 (GetChannelInfo_outcomes Script.playlistFails
                   (GetInstance Script.playlistFails 1) Script.yt Script.yt "UC-alai"
                   Script.started
                   (set_caches (caches Script.started ++ [NewMemoryCache]) Script.started)
                   (MemoryCache.set_videoCache {[ "alai" := Some O ]} NewMemoryCache)
                   eq_refl eq_refl eq_refl _) Script.timeout eq_refl).
  by vm_compute.
Defined.

(** ** The search filters the cached look-up in place *)

Lemma call_GetVideos_hit (U : Upstream) (gi : M YoutubeApi) (yt : YoutubeApi)
    (videoIds : list string) (p : loc) (w : World) :
  cached yt VideoDetailPartition (strings.Join videoIds ",") (ResultSet (Some p)) w ->
  GetVideos U gi yt videoIds w = Ret (Some p, None) w.
Proof.
  intros (c & Hc & Hmu & Hp). unfold GetVideos.
  rewrite (bind_eq _ _ _ _ _ (Cache_GetVideoDetail_eq yt w c Hc Hmu _)).
  cbn in Hp. injection Hp as ->. reflexivity.
Qed.

(** X24: the result set [FindTags] returns is the very object [GetVideos]
    returned and cached, with its items replaced by the filtered ones.  So
    after a search that succeeds, the search partition under the input and
    the look-up partition under the joined identifiers hold the same
    object, and a look-up of the identifiers the search found is answered
    from the cache with the filtered items, not with the items the look-up
    had fetched. *)
Theorem FindTags_filters_the_cached_look_up (U : Upstream) (gi : M YoutubeApi)
    (yt : YoutubeApi) (input : string) (numPages : Z) (w w1 w2 w3 : World)
    (vids : list string) (vidIds : gmap string VidSnippetInfo) (p : loc)
    (vr : VideoResults) :
  Cache_GetVideo yt input w = Ret None w1 ->
  FindTags_pages U yt (strings.ReplaceSpaces input "%20%") (Z.to_nat numPages)
    0 EmptyString [] ∅ w1 = Ret (vids, vidIds, None) w2 ->
  GetVideos U gi yt vids w2 = Ret (Some p, None) w3 ->
  results w3 !! p = Some vr ->
  Forall (wellFormed w3) (Items vr) ->
  Forall (emptyOrParses w3) (Items vr) ->
  exists w',
    FindTags U gi yt input numPages w = Ret (Some p, None) w' /\
    results w' !! p = Some {| Items := List.filter (retained w3) (Items vr);
                              NextPageToken := NextPageToken vr |} /\
    cached yt VideoPartition input (ResultSet (Some p)) w' /\
    cached yt VideoDetailPartition (strings.Join vids ",") (ResultSet (Some p)) w' /\
    forall gi', GetVideos U gi' yt vids w' = Ret (Some p, None) w'.
Proof.
  intros Hmiss Hpages Hlookup Hvr Hwf Hparse.
  pose proof (FindTags_filter_run vidIds w3 (Items vr) [] [] w3 Hwf (updated_refl _ w3)) as Hrun.
  rewrite firstBad_None in Hrun by done. destruct Hrun as (wf & Hrun & Hwf' & _).
  cbn [app] in Hrun.
  pose proof (call_success U yt gi (OpGetVideos vids) (ResultSet (Some p)) w2 w3) as Hcached.
  cbn [call] in Hcached. erewrite bind_eq in Hcached by exact Hlookup.
  destruct (Hcached eq_refl) as [_ (c & Hc & Hmu & Hp)]. cbn in Hp.
  rewrite (FindTags_to_filter U gi yt input numPages w w1 w2 w3 vids vidIds p vr
             Hmiss Hpages Hlookup Hvr).
  erewrite bind_eq by exact Hrun. cbv beta iota.
  erewrite bind_eq by reflexivity.
  set (w4 := set_results _ wf).
  assert (Hc4 : caches w4 !! Cache yt = Some c)
    by (subst w4; rewrite Hwf'; exact Hc).
  erewrite bind_eq by (by apply (Cache_SetVideo_eq yt w4 c)).
  eexists. split; [reflexivity|].
  assert (Hlen : (Cache yt < length (caches w4))%nat) by (by eapply lookup_lt_Some).
  assert (Hdetail : cached yt VideoDetailPartition (strings.Join vids ",") (ResultSet (Some p))
                      (withCache yt
                         (MemoryCache.set_videoCache (<[input := Some p]> (videoCache c)) c)
                         w4)).
  { eexists. split; [by apply withCache_lookup|]. split; [done|]. cbn. by rewrite Hp. }
  split; [|split; [|split; [exact Hdetail|]]].
  - subst w4. cbn. apply list_lookup_insert_eq. rewrite Hwf'. cbn. by eapply lookup_lt_Some.
  - eexists. split; [by apply withCache_lookup|]. split; [done|].
    cbn. unfold index. by rewrite lookup_insert_eq.
  - intros gi'. by apply call_GetVideos_hit.
Qed.

Lemma FindTags_filters_the_cached_look_up_witness :
  exists w',
    FindTags (Script.searchOf "1001") (GetInstance (Script.searchOf "1001") 1) Script.yt
      "cats" 1 Script.started = Ret (Some 1%nat, None) w' /\
    GetVideos (Script.searchOf "1001") (GetInstance (Script.searchOf "1001") 0) Script.yt
      ["v1"] w' = Ret (Some 1%nat, None) w'.
Proof.
  destruct (FindTags_filters_the_cached_look_up
              (Script.searchOf "1001") (GetInstance (Script.searchOf "1001") 1) Script.yt
              "cats" 1 Script.started Script.started (Script.searched "1001")
              (Script.lookedUp "1001") ["v1"] Script.searchIndex 1%nat
              {| Items := [Some 0%nat]; NextPageToken := EmptyString |})
    as (w' & Hrun & _ & _ & _ & Hhit).
  - by vm_compute.
  - by vm_compute.
  - by vm_compute.
  - by vm_compute.
  - repeat constructor. exists (Script.video "v1" "c" "1001").
    split; [by vm_compute|]. split; eexists; reflexivity.
  - repeat constructor. exists "1001". split; [by vm_compute|]. right. by eexists.
  - exists w'. split; [exact Hrun | apply Hhit].
Defined.

(** ** The errors of the channel operations *)

(** X25: the errors of the channel operations are fixed texts.  An error of
    [GetChannelInfo] is "channel info not found" or "no item available in
    cInfo"; an error of [GetVideoCount] is "internal server error"; an
    error of [GetChannelPlaylist] is "internal server error" or
    "contentDetails or RelatedPlaylists are nil".  The error "no results
    found" of [GetChannelPlaylist] is never returned: [getChannelPlaylist]
    has a result whenever it has no error. *)
Theorem errors_of_the_channel_operations (U : Upstream) (gi : M YoutubeApi)
    (yt : YoutubeApi) :
  (forall channelId w r err w',
     GetChannelInfo U gi yt channelId w = Ret (r, Some err) w' ->
     err = errorString "channel info not found" \/
     err = errorString "no item available in cInfo") /\
  (forall item w n err w',
     GetVideoCount item w = Ret (n, Some err) w' ->
     err = errorString "internal server error") /\
  (forall item vidCount w r err w',
     GetChannelPlaylist U gi yt item vidCount w = Ret (r, Some err) w' ->
     err = errorString "internal server error" \/
     err = errorString "contentDetails or RelatedPlaylists are nil") /\
  (forall playlistId numItems w w',
     getChannelPlaylist U gi yt playlistId numItems w <> Ret (None, None) w').
Proof.
  assert (Hsome : forall playlistId numItems w w',
            getChannelPlaylist U gi yt playlistId numItems w <> Ret (None, None) w').
  { intros playlistId numItems w w' H. unfold getChannelPlaylist in H.
    repeat (inv_step H; try discriminate).
    unfold processVideoItems in E1. repeat (inv_step E1; try discriminate). }
  split; [|split; [|split; [|exact Hsome]]].
  - intros channelId w r err w' H. unfold GetChannelInfo in H.
    repeat (inv_step H; try discriminate); eauto.
  - intros item w n err w' H. unfold GetVideoCount in H.
    repeat (inv_step H; try discriminate); eauto.
  - intros item vidCount w r err w' H. unfold GetChannelPlaylist in H.
    inv_step H. inv_step H. destruct a0 as [p|]; [by inv_step H|].
    destruct (uploadsOf a) as [uploads|].
    + apply bind_Ret in H as ([[p|] [e|]] & w2 & E2 & H); cbv beta iota in H.
      * injection H as <- <- <-. by left.
      * apply bind_Ret in H as (u & w3 & _ & H). by injection H.
      * injection H as <- <- <-. by left.
      * by destruct (Hsome _ _ _ _ E2).
    + apply bind_Ret in H as (u & w2 & _ & H). injection H as <- <- <-. by right.
Qed.

(** ** The requests of a look-up *)

Lemma keepsStartedUp_same (inst : YoutubeApi) (w w' : World) :
  caches w' = caches w -> onceDone w' = onceDone w ->
  ServiceInstance w' = ServiceInstance w -> keepsStartedUp inst w w'.
Proof.
  intros H1 H2 H3 (Honce & Hinst & p & c & Hc & Hrest).
  split; [congruence|]. split; [congruence|]. exists p, c. by rewrite H1.
Qed.

Lemma keepsStartedUp_Frame (inst : YoutubeApi) : Frame (keepsStartedUp inst).
Proof.
  apply Frame_intro.
  - intros w H. exact H.
  - intros w1 w2 w3 H1 H2 H. by apply H2, H1.
  - intros w w' H1 H2 H3 _. by apply keepsStartedUp_same.
  - intros U url w a w' [= _ <-]. by apply keepsStartedUp_same.
  - intros key cache w a w'. unfold Once_Do.
    destruct (onceDone w) eqn:E; intros [= _ <-]; [by apply keepsStartedUp_same|].
    intros (Honce & _). congruence.
  - intros w a w' [= _ <-] (Honce & Hinst & p & c & Hc & Hrest).
    split; [done|]. split; [done|]. exists p, c. split; [|done].
    cbn. rewrite lookup_app_l; [done|]. by eapply lookup_lt_Some.
Qed.


Lemma keepsStartedUp_GetInstance (inst : YoutubeApi) (U : Upstream) (fuel : nat) :
  preserves (keepsStartedUp inst) (GetInstance U fuel).
Proof.
  destruct fuel as [|fuel]; [apply preserves_diverge|].
  intros w a w' H Hw. pose proof Hw as (Honce & Hinst & p & Hp).
  rewrite (GetInstance_cached U fuel inst p) in H by done. injection H as <- <-.
  by apply (frame_newMemoryCache _ (keepsStartedUp_Frame inst) w (length (caches w))).
Qed.





Section LookUpRequests.

Variable U : Upstream.
Variable fuel : nat.
Variable inst : YoutubeApi.




End LookUpRequests.



(** ** The pages of a playlist *)





(** ** The requests of a playlist *)

Lemma afterPages_nil (w : World) : w = afterPages [] w.
Proof. destruct w. unfold afterPages. cbn. by rewrite !app_nil_r. Qed.

Lemma afterPages_cons (url : string) (urls : list string) (w : World) :
  afterPages urls (logged url (set_caches (caches w ++ [NewMemoryCache]) w))
  = afterPages (url :: urls) w.
Proof. destruct w. unfold afterPages, logged. cbn. by rewrite <- !app_assoc. Qed.

Lemma isEmpty_false (s : string) : isEmpty s = false -> s <> EmptyString.
Proof. by intros H ->. Qed.

Lemma fetchVideoResultsFromAPI_logged (U : Upstream) (url : string) (w w' : World) r :
  fetchVideoResultsFromAPI U url w = Ret r w' -> w' = logged url w.
Proof.
  unfold fetchVideoResultsFromAPI, bind, http_Get.
  destruct (transport U (requests w) url) as [e|e|body]; [by intros [= _ <-]..|].
  destruct (json_ChannelPlaylistVideoResults U body); by intros [= _ <-].
Qed.

Lemma fetchPlaylistVideos_pages_sent (U : Upstream) (fuel : nat) (inst : YoutubeApi)
    (playlistId : string) (remaining : nat) :
  forall i nextPage vids thumbnails w r w',
    startedUp inst w ->
    fetchPlaylistVideos_pages U (GetInstance U fuel) playlistId remaining i nextPage
      vids thumbnails w = Ret r w' ->
    exists urls,
      (length urls <= remaining)%nat /\ w' = afterPages urls w /\
      (urls = [] \/
       exists tokens,
         urls = playlistUrls playlistId (apiKey inst) (pageTokenParam i nextPage) tokens /\
         Forall (fun token => token <> EmptyString) tokens).
Proof.
  induction remaining as [|remaining IH]; intros i nextPage vids thumbnails w r w' Hw H;
    cbn [fetchPlaylistVideos_pages] in H.
  - injection H as <- <-. exists []. split; [done|]. split; [apply afterPages_nil | by left].
  - unfold generatePageUrl in H.
    apply bind_Ret in H as (url & w1 & Eurl & H).
    apply bind_Ret in Eurl as (i' & w0 & Egi & Eurl). injection Eurl as <- <-.
    pose proof (keepsStartedUp_GetInstance inst U fuel _ _ _ Egi Hw) as Hw0.
    destruct fuel as [|f]; [done|].
    pose proof Hw as (Honce & Hinst & p & Hp).
    rewrite (GetInstance_cached U f inst p) in Egi by done. injection Egi as <- <-.
    apply bind_Ret in H as ([res e] & w2 & Efetch & H).
    apply fetchVideoResultsFromAPI_logged in Efetch as ->.
    set (url := Sprintf_GetChannelPlaylist playlistId (apiKey inst)
                  (pageTokenParam i nextPage)) in *.
    assert (Hone : exists urls,
              (length urls <= S remaining)%nat /\
              logged url (set_caches (caches w ++ [NewMemoryCache]) w) = afterPages urls w /\
              (urls = [] \/
               exists tokens,
                 urls = playlistUrls playlistId (apiKey inst) (pageTokenParam i nextPage)
                          tokens /\
                 Forall (fun token => token <> EmptyString) tokens)).
    { exists [url]. split; [cbn; lia|]. split; [by rewrite <- afterPages_cons, <- afterPages_nil|].
      right. by exists []. }
    destruct e as [e|]; [by injection H as <- <-|].
    apply bind_Ret in H as (r' & w3 & E & H). destruct res as [res|]; [|done].
    injection E as <- <-.
    destruct (fetchPlaylistVideos_collect (Playlist_Items res) vids thumbnails)
      as [[vids1 thumbnails1]|]; [|done].
    destruct (isEmpty (Playlist_NextPageToken res)) eqn:Etoken; [by injection H as <- <-|].
    apply IH in H as (urls & Hlen & -> & Hurls).
    2:{ by apply (frame_http_Get _ (keepsStartedUp_Frame inst) U url _ _ _ eq_refl). }
    exists (url :: urls). split; [cbn; lia|]. split; [apply afterPages_cons|].
    right. destruct Hurls as [->|(tokens & -> & Htokens)].
    + by exists [].
    + exists (Playlist_NextPageToken res :: tokens). split; [done|].
      constructor; [by apply isEmpty_false | done].
Qed.

(** X28: once the start-up search is cached, a [fetchPlaylistVideos] that
    returns has changed nothing but the request log and the list of cache
    objects.  It sent at most [numPages] requests, all to the playlist endpoint
    with the key of the instance: the first without a page token, each later
    one with a non-empty page token; and every request left behind one new
    cache object, made by the [GetInstance] that read the key. *)
Theorem fetchPlaylistVideos_requests (U : Upstream) (fuel : nat) (inst : YoutubeApi)
    (playlistId : string) (numPages : Z) (w w' : World)
    (r : list string * gmap string Thumbnails * option error) :
  startedUp inst w ->
  fetchPlaylistVideos U (GetInstance U fuel) playlistId numPages w = Ret r w' ->
  exists urls,
    Z.of_nat (length urls) <= Z.max 0 numPages /\
    w' = afterPages urls w /\
    (urls = [] \/
     exists tokens,
       urls = playlistUrls playlistId (apiKey inst) EmptyString tokens /\
       Forall (fun token => token <> EmptyString) tokens).
Proof.
  intros Hw H. unfold fetchPlaylistVideos in H.
  apply (fetchPlaylistVideos_pages_sent U fuel inst) in H as (urls & Hlen & -> & Hurls);
    [|done].
  exists urls. split; [lia|]. by split.
Qed.

Lemma fetchPlaylistVideos_requests_witness :
  exists urls,
    worldAfter (fetchPlaylistVideos Script.uploads (GetInstance Script.uploads 1)
                  "UU-alai" 1 Script.started) Script.started
    = afterPages urls Script.started /\ Z.of_nat (length urls) <= 1.
Proof.
  destruct (fetchPlaylistVideos_requests Script.uploads 1 Script.yt "UU-alai" 1 Script.started
              (worldAfter (fetchPlaylistVideos Script.uploads (GetInstance Script.uploads 1)
                             "UU-alai" 1 Script.started) Script.started)
              (["v1"], {[ "v1" := Script.thumbnail "https://i.ytimg.com/vi/v1/default.jpg" ]},
               None))
    as (urls & Hlen & Hw & _).
  - split; [done|]. split; [done|]. exists 0%nat. eexists. split; [reflexivity|]. by split.
  - by vm_compute.
  - exists urls. by split.
Defined.

(** ** The playlist is the cached look-up *)

Lemma processVideoItems_loop_heap (thumbnails : gmap string Thumbnails)
    (items : list (option loc)) :
  forall w u w',
    processVideoItems_loop thumbnails items w = Ret u w' ->
    caches w' = caches w /\ results w' = results w /\ requests w' = requests w.
Proof.
  induction items as [|item items IH]; intros w u w' H; cbn [processVideoItems_loop] in H.
  - by injection H as <- <-.
  - apply bind_Ret in H as (l & w1 & E & H). destruct item as [l'|]; [|done].
    injection E as <- <-.
    apply bind_Ret in H as (v & w2 & E & H). unfold loadVideo in E.
    destruct (videos w !! l') as [v'|]; [|done]. injection E as <- <-.
    apply bind_Ret in H as (u' & w3 & E & H). apply IH in H as (-> & -> & ->).
    destruct (thumbnails !! Video_Id v') as [thumbs|].
    + apply bind_Ret in E as (sn & w4 & E & H). destruct (Video_Snippet v'); [|done].
      injection E as <- <-. by injection H as <- <-.
    + by injection E as <- <-.
Qed.

(** X29: the result set [getChannelPlaylist] returns is the very object the
    look-up by [GetVideos] returned and cached: the merge of the thumbnails
    writes into the videos of that object and allocates nothing.  So after
    a playlist fetch that succeeds, the look-up partition holds the
    playlist's result set under the joined identifiers, and a later look-up
    of those identifiers is answered from the cache with the videos as the
    merge left them. *)
Theorem getChannelPlaylist_returns_the_cached_look_up (U : Upstream) (gi : M YoutubeApi)
    (yt : YoutubeApi) (playlistId : string) (numItems : Z) (w w' : World) (p : loc) :
  getChannelPlaylist U gi yt playlistId numItems w = Ret (Some p, None) w' ->
  exists vids thumbnails w1 w2,
    fetchPlaylistVideos U gi playlistId (calculateNumPages numItems) w
    = Ret (vids, thumbnails, None) w1 /\
    GetVideos U gi yt vids w1 = Ret (Some p, None) w2 /\
    processVideoItems (Some p) thumbnails w2 = Ret (Some p) w' /\
    caches w' = caches w2 /\ results w' = results w2 /\ requests w' = requests w2 /\
    cached yt VideoDetailPartition (strings.Join vids ",") (ResultSet (Some p)) w' /\
    forall gi', GetVideos U gi' yt vids w' = Ret (Some p, None) w'.
Proof.
  intros H. unfold getChannelPlaylist in H.
  apply bind_Ret in H as ([[vids thumbnails] [e|]] & w1 & Efetch & H); [by injection H|].
  apply bind_Ret in H as ([q [e|]] & w2 & Elookup & H); [by injection H|].
  apply bind_Ret in H as (q' & w3 & Eprocess & H). injection H as -> ->.
  assert (Hq : q = Some p).
  { unfold processVideoItems in Eprocess.
    apply bind_Ret in Eprocess as (l & w4 & E & Eprocess). destruct q as [q|]; [|done].
    injection E as <- <-.
    apply bind_Ret in Eprocess as (vr & w5 & _ & Eprocess).
    apply bind_Ret in Eprocess as (u & w6 & _ & Eprocess). by injection Eprocess as <- _. }
  subst q.
  assert (Hheap : caches w' = caches w2 /\ results w' = results w2 /\ requests w' = requests w2).
  { unfold processVideoItems in Eprocess.
    apply bind_Ret in Eprocess as (l & w4 & E & Eprocess). injection E as <- <-.
    apply bind_Ret in Eprocess as (vr & w5 & E & Eprocess). unfold loadVideoResults in E.
    destruct (results w2 !! p); [|done]. injection E as <- <-.
    apply bind_Ret in Eprocess as (u & w6 & E & Eprocess). injection Eprocess as <-.
    by apply processVideoItems_loop_heap in E. }
  pose proof (call_success U yt gi (OpGetVideos vids) (ResultSet (Some p)) w1 w2) as Hcached.
  cbn [call] in Hcached. erewrite bind_eq in Hcached by exact Elookup.
  destruct (Hcached eq_refl) as [_ (c & Hc & Hmu & Hp)].
  assert (Hcached' : cached yt VideoDetailPartition (strings.Join vids ",")
                       (ResultSet (Some p)) w').
  { exists c. destruct Hheap as (-> & _). by split. }
  exists vids, thumbnails, w1, w2. destruct Hheap as (Hc' & Hr' & Hq').
  split_and!; try done. intros gi'. by apply call_GetVideos_hit.
Qed.

Lemma getChannelPlaylist_returns_the_cached_look_up_witness :
  exists w',
    getChannelPlaylist Script.uploads (GetInstance Script.uploads 1) Script.yt "UU-alai" 1
      Script.started = Ret (Some 1%nat, None) w' /\
    GetVideos Script.uploads (GetInstance Script.uploads 0) Script.yt ["v1"] w'
    = Ret (Some 1%nat, None) w'.
Proof.
  set (w' := worldAfter (getChannelPlaylist Script.uploads (GetInstance Script.uploads 1)
                           Script.yt "UU-alai" 1 Script.started) Script.started).
  assert (Hrun : getChannelPlaylist Script.uploads (GetInstance Script.uploads 1) Script.yt
                   "UU-alai" 1 Script.started = Ret (Some 1%nat, None) w') by (by vm_compute).
  destruct (getChannelPlaylist_returns_the_cached_look_up _ _ _ _ _ _ _ _ Hrun)
    as (vids & thumbnails & w1 & w2 & Hfetch & _ & _ & _ & _ & _ & _ & Hhit).
  assert (Hvids : vids = ["v1"]).
  { assert (Hf : fetchPlaylistVideos Script.uploads (GetInstance Script.uploads 1) "UU-alai"
                   (calculateNumPages 1) Script.started
                 = Ret (["v1"],
                        {[ "v1" := Script.thumbnail "https://i.ytimg.com/vi/v1/default.jpg" ]},
                        None)
                     (worldAfter (fetchPlaylistVideos Script.uploads
                                    (GetInstance Script.uploads 1) "UU-alai" 1 Script.started)
                        Script.started)) by (by vm_compute).
    rewrite Hf in Hfetch. by injection Hfetch as <- _ _. }
  subst vids. exists w'. split; [exact Hrun | apply Hhit].
Defined.
